(** * Distilled dual-encoder ranker: the training core

    A shallow embedding of [src/models/distill_dual_ranker.py]: the
    dual-encoder scorer ([DualEncoderModel.forward]), the loss composition
    inside [train], the epoch loop with its optimizer and learning-rate
    scheduler, [evaluate], the dataset class [DualEncoderDataset], the
    corpus loader [load_msmarco_data] and [main].

    Tensors hold floating-point numbers.  They are modelled as rationals
    extended with the IEEE special values (the two infinities and NaN):
    arithmetic on finite values is exact, arithmetic on special values
    follows IEEE 754.  Rounding and signed zeros are not modelled.  The
    elementary functions [exp] and [log] on finite arguments, the gradients
    computed by autograd and the AdamW update rule are interfaces
    (type classes), since their values are not rational. *)

From stdpp Require Import base option list gmap strings.
From Stdlib Require Import QArith Qminmax Qround Lqa.
Close Scope Q_scope.

(** ** Python exceptions and results *)

Inductive exn :=
| RuntimeError | IndexError | KeyError | AttributeError
| ZeroDivisionError | ValueError.

Inductive result (A : Type) :=
| Ok (a : A)
| Raise (e : exn).
Arguments Ok {A} a.
Arguments Raise {A} e.

Definition rbind {A B} (r : result A) (k : A -> result B) : result B :=
  match r with Ok a => k a | Raise e => Raise e end.

Definition of_option {A} (e : exn) (o : option A) : result A :=
  match o with Some a => Ok a | None => Raise e end.

Fixpoint rmapM {A B} (f : A -> result B) (l : list A) : result (list B) :=
  match l with
  | [] => Ok []
  | a :: l' => rbind (f a) (fun b => rbind (rmapM f l') (fun bs => Ok (b :: bs)))
  end.

(** ** Tensor scalars: rationals with IEEE special values *)

Module XReal.

Inductive xreal := NInf | Fin (q : Q) | PInf | NaN.

Definition is_finite (a : xreal) : bool :=
  match a with Fin _ => true | _ => false end.

(** Equality of values: [Fin] up to equality of fractions. *)
Definition xeq (a b : xreal) : Prop :=
  match a, b with
  | NInf, NInf | PInf, PInf | NaN, NaN => True
  | Fin x, Fin y => (x == y)%Q
  | _, _ => False
  end.

Definition xeqb (a b : xreal) : bool :=
  match a, b with
  | NInf, NInf | PInf, PInf | NaN, NaN => true
  | Fin x, Fin y => Qeq_bool x y
  | _, _ => false
  end.

Definition xneg (a : xreal) : xreal :=
  match a with
  | NInf => PInf | PInf => NInf | NaN => NaN
  | Fin x => Fin (- x)%Q
  end.

Definition xadd (a b : xreal) : xreal :=
  match a, b with
  | NaN, _ | _, NaN => NaN
  | PInf, NInf | NInf, PInf => NaN
  | PInf, _ | _, PInf => PInf
  | NInf, _ | _, NInf => NInf
  | Fin x, Fin y => Fin (x + y)%Q
  end.

Definition xsub (a b : xreal) : xreal := xadd a (xneg b).

(** An infinity scaled by a finite factor [x]. *)
Definition scale_inf (pos : bool) (x : Q) : xreal :=
  match (x ?= 0)%Q with
  | Eq => NaN
  | Gt => if pos then PInf else NInf
  | Lt => if pos then NInf else PInf
  end.

Definition xmul (a b : xreal) : xreal :=
  match a, b with
  | NaN, _ | _, NaN => NaN
  | Fin x, Fin y => Fin (x * y)%Q
  | Fin x, PInf | PInf, Fin x => scale_inf true x
  | Fin x, NInf | NInf, Fin x => scale_inf false x
  | PInf, PInf | NInf, NInf => PInf
  | PInf, NInf | NInf, PInf => NInf
  end.

Definition xdiv (a b : xreal) : xreal :=
  match a, b with
  | NaN, _ | _, NaN => NaN
  | Fin x, Fin y =>
      match (y ?= 0)%Q with
      | Eq => match (x ?= 0)%Q with Eq => NaN | Gt => PInf | Lt => NInf end
      | _ => Fin (x / y)%Q
      end
  | Fin _, (PInf | NInf) => Fin 0
  | PInf, Fin y => match (y ?= 0)%Q with Lt => NInf | _ => PInf end
  | NInf, Fin y => match (y ?= 0)%Q with Lt => PInf | _ => NInf end
  | (PInf | NInf), (PInf | NInf) => NaN
  end.

(** [torch.max] as a reduction: NaN wins, otherwise the larger value. *)
Definition xmax (a b : xreal) : xreal :=
  match a, b with
  | NaN, _ | _, NaN => NaN
  | PInf, _ | _, PInf => PInf
  | NInf, c | c, NInf => c
  | Fin x, Fin y => if Qle_bool x y then Fin y else Fin x
  end.

(** [clamp_min(0)]: NaN stays NaN. *)
Definition clamp_min0 (a : xreal) : xreal :=
  match a with
  | NaN => NaN
  | PInf => PInf
  | NInf => Fin 0
  | Fin x => if Qle_bool x 0 then Fin 0 else Fin x
  end.

Definition of_nat (n : nat) : xreal := Fin (inject_Z (Z.of_nat n)).

End XReal.
Export XReal.

Declare Scope xreal_scope.
Delimit Scope xreal_scope with X.
Bind Scope xreal_scope with xreal.
Infix "+" := xadd : xreal_scope.
Infix "-" := xsub : xreal_scope.
Infix "*" := xmul : xreal_scope.
Infix "/" := xdiv : xreal_scope.
Notation "- a" := (xneg a) : xreal_scope.
Infix "=x=" := xeq (at level 70, no associativity).

(** The elementary functions of the numeric backend on finite arguments.
    A float [exp] may overflow to [PInf]; [flog] is only called on
    positive arguments. *)
Class Elementary := {
  fexp : Q -> xreal;
  flog : Q -> xreal
}.

Module Tensor.

Definition vec := list xreal.
Definition mat := list (list xreal).

Definition is_matrix (r c : nat) (m : mat) : Prop :=
  length m = r /\ Forall (fun row => length row = c) m.

Definition all_finite (m : mat) : Prop :=
  Forall (Forall (fun a => is_finite a = true)) m.

Definition vsum (v : vec) : xreal := foldl xadd (Fin 0) v.

(** [mean()]: the sum divided by the number of elements (0/0 is NaN). *)
Definition vmean (v : vec) : xreal := (vsum v / of_nat (length v))%X.

(** [Tensor.diag()] on a 2-D tensor: a fresh 1-D tensor holding the
    main diagonal (a copy, unlike [diagonal()], which is a view). *)
Fixpoint diag_from (i : nat) (m : mat) : vec :=
  match m with
  | [] => []
  | row :: m' =>
      match row !! i with
      | Some a => a :: diag_from (S i) m'
      | None => []
      end
  end.
Definition diag (m : mat) : vec := diag_from 0 m.

(** [fill_diagonal_(v)]: writes [v] on the main diagonal of the tensor
    itself.  The result is the new content of that same tensor. *)
Definition fill_diagonal_ (v : xreal) (m : mat) : mat :=
  imap (fun i row => <[i := v]> row) m.

(** [max(dim=1)[0]]: the maximum of every row; an empty reduction
    dimension is an error. *)
Definition row_max (row : vec) : result xreal :=
  match row with
  | [] => Raise IndexError
  | a :: row' => Ok (foldl xmax a row')
  end.
Definition max_dim1 (m : mat) : result vec := rmapM row_max m.

(** [m / t] for a Python float [t]. *)
Definition div_scalar (m : mat) (t : xreal) : mat :=
  map (map (fun a => (a / t)%X)) m.

Definition ones_like (v : vec) : vec := map (fun _ => Fin 1) v.

(** Element-wise binary operation with broadcasting of a length-1
    operand, as for 1-D tensors. *)
Definition broadcast2 (f : xreal -> xreal -> xreal) (u v : vec) : result vec :=
  if decide (length u = length v) then Ok (zip_with f u v)
  else match u, v with
       | [a], _ => Ok (map (f a) v)
       | _, [b] => Ok (map (fun a => f a b) u)
       | _, _ => Raise RuntimeError
       end.

Definition dot (u v : vec) : xreal := vsum (zip_with xmul u v).

(** [torch.matmul(q, d.t())] for 2-D [q] ([Bq] x [D]) and [d]
    ([Bd] x [D]): a [Bq] x [Bd] tensor; the inner dimensions must
    agree. *)
Definition width (m : mat) : nat :=
  match m with [] => 0 | row :: _ => length row end.
Definition matmul_t (q d : mat) : result mat :=
  if decide (width q = width d)
  then Ok (map (fun qi => map (fun dj => dot qi dj) d) q)
  else Raise RuntimeError.

End Tensor.
Export Tensor.

(** ** The loss functions of [torch.nn] used by [train] *)

Module Loss.

(** [MarginRankingLoss(margin)(x1, x2, y)] with the default mean
    reduction: [mean(clamp_min(-y * (x1 - x2) + margin, 0))]. *)
Definition MarginRankingLoss (margin : xreal) (x1 x2 y : vec) : result xreal :=
  rbind (broadcast2 xsub x1 x2) (fun d =>
  rbind (broadcast2 xmul (map xneg y) d) (fun p =>
  Ok (vmean (map (fun a => clamp_min0 (a + margin)%X) p)))).

(** The term of one example with target [1]. *)
Definition hinge_term (margin p n : xreal) : xreal :=
  clamp_min0 ((- Fin 1) * (p - n) + margin)%X.

Section Elem.
Context `{Elementary}.

Definition xexp (a : xreal) : xreal :=
  match a with
  | NaN => NaN | NInf => Fin 0 | PInf => PInf
  | Fin x => fexp x
  end.

Definition xlog (a : xreal) : xreal :=
  match a with
  | NaN | NInf => NaN
  | PInf => PInf
  | Fin x =>
      match (x ?= 0)%Q with
      | Lt => NaN | Eq => NInf | Gt => flog x
      end
  end.

(** [F.log_softmax(m, dim=1)], computed per row as the backend does:
    [x - max - log(sum(exp(x - max)))]. *)
Definition log_softmax_row (row : vec) : vec :=
  match row with
  | [] => []
  | a :: row' =>
      let mx := foldl xmax a row' in
      let lse := xlog (vsum (map (fun x => xexp (x - mx)%X) row)) in
      map (fun x => (x - mx - lse)%X) row
  end.
Definition log_softmax (m : mat) : mat := map log_softmax_row m.

(** [xlogy(x, y)]. *)
Definition xlogy (x y : xreal) : xreal :=
  match y, x with
  | NaN, _ => NaN
  | _, Fin q => if Qeq_bool q 0 then Fin 0 else (x * xlog y)%X
  | _, _ => (x * xlog y)%X
  end.

(** [KLDivLoss(reduction='batchmean')(input, target)] with the default
    [log_target=False]: the sum over all entries of
    [xlogy(target, target) - target * input], divided by the number
    of rows of [input]. *)
Definition kl_pointwise (inp tgt : xreal) : xreal :=
  (xlogy tgt tgt - tgt * inp)%X.
Definition KLDivLoss_batchmean (input target : mat) : xreal :=
  (vsum (concat (zip_with (zip_with kl_pointwise) input target))
   / of_nat (length input))%X.

End Elem.

End Loss.
Export Loss.

(** ** The dual-encoder scorer *)

Module Scorer.

(** A parameter tensor is named by its identity; all parameters live in
    one store, so that two models could share one. *)
Abbreviation Store := (gmap positive (list xreal)).

(** A batch of tokenized inputs: the Python dict from field name
    ([input_ids], [attention_mask], [token_type_ids]) to an integer
    tensor of shape [B x L]. *)
Abbreviation TokBatch := (gmap string (list (list Z))).

Record EncoderOutput := {
  last_hidden_state : list (list (list xreal));   (* [B x L x D] *)
  pooler_output : option (list (list xreal))      (* [B x D], if any *)
}.

(** A pretrained text encoder ([AutoModel.from_pretrained]). *)
Record Encoder := {
  is_DistilBert : bool;
  enc_parameters : list positive;
  enc_call : Store -> bool -> TokBatch -> result EncoderOutput
}.

Record DualEncoderModel := {
  model_id : positive;
  query_encoder : Encoder;
  doc_encoder : Encoder
}.

(** [model.parameters()] *)
Definition parameters (m : DualEncoderModel) : list positive :=
  enc_parameters (query_encoder m) ++ enc_parameters (doc_encoder m).

Definition any_DistilBert (m : DualEncoderModel) : bool :=
  is_DistilBert (query_encoder m) || is_DistilBert (doc_encoder m).

(** [h[:, 0, :]] *)
Definition cls_token (h : list (list (list xreal))) : result mat :=
  rmapM (fun ex => of_option IndexError (ex !! 0%nat)) h.

(** [DualEncoderModel.forward].  The two dicts are the caller's
    objects: [pop] changes them in place, so their new contents are
    returned with the scores. *)
Definition forward_scores (m : DualEncoderModel) (theta : Store) (training : bool)
    (query_inputs doc_inputs : TokBatch) : result (mat * TokBatch * TokBatch) :=
  let query_inputs :=
    if any_DistilBert m then delete "token_type_ids" query_inputs else query_inputs in
  let doc_inputs :=
    if any_DistilBert m then delete "token_type_ids" doc_inputs else doc_inputs in
  rbind
    (if any_DistilBert m then
       rbind (enc_call (query_encoder m) theta training query_inputs) (fun qo =>
       rbind (cls_token (last_hidden_state qo)) (fun query_embeds =>
       rbind (enc_call (doc_encoder m) theta training doc_inputs) (fun do =>
       rbind (cls_token (last_hidden_state do)) (fun doc_embeds =>
       Ok (query_embeds, doc_embeds)))))
     else
       rbind (enc_call (query_encoder m) theta training query_inputs) (fun qo =>
       rbind (of_option AttributeError (pooler_output qo)) (fun query_embeds =>
       rbind (enc_call (doc_encoder m) theta training doc_inputs) (fun do =>
       rbind (of_option AttributeError (pooler_output do)) (fun doc_embeds =>
       Ok (query_embeds, doc_embeds))))))
    (fun '(query_embeds, doc_embeds) =>
       rbind (matmul_t query_embeds doc_embeds) (fun scores =>
       Ok (scores, query_inputs, doc_inputs))).

End Scorer.
Export Scorer.

(** ** Dataset and data loader *)

Module Data.

Record Example := {
  ex_query_inputs : gmap string (list Z);
  ex_doc_inputs : gmap string (list Z);
  ex_labels : xreal
}.

Record Batch := {
  query_inputs : gmap string (list (list Z));
  doc_inputs : gmap string (list (list Z));
  labels : list xreal
}.

(** [DualEncoderDataset]; the tokenizer call with truncation and
    padding to [max_length], followed by [squeeze(0)], is the
    function [tokenizer]. *)
Record DualEncoderDataset := {
  tokenizer : string -> nat -> gmap string (list Z);
  ds_queries : list string;
  ds_documents : list string;
  ds_labels : list xreal;
  max_length : nat
}.

Definition ds_len (ds : DualEncoderDataset) : nat := length (ds_queries ds).

Definition getitem (ds : DualEncoderDataset) (index : nat) : result Example :=
  rbind (of_option IndexError (ds_queries ds !! index)) (fun query =>
  rbind (of_option IndexError (ds_documents ds !! index)) (fun document =>
  rbind (of_option IndexError (ds_labels ds !! index)) (fun label =>
  Ok {| ex_query_inputs := tokenizer ds query (max_length ds);
        ex_doc_inputs := tokenizer ds document (max_length ds);
        ex_labels := label |}))).

(** [default_collate] on dicts of 1-D tensors: the keys of the first
    element, each field stacked over the batch. *)
Definition stack_field (ds : list (gmap string (list Z))) (k : string)
    : result (string * list (list Z)) :=
  rbind (rmapM (fun d : gmap string (list Z) => of_option KeyError (d !! k)) ds) (fun rows =>
  match rows with
  | [] => Ok (k, rows)
  | r :: _ =>
      if forallb (fun r' => Nat.eqb (length r') (length r)) rows
      then Ok (k, rows) else Raise RuntimeError
  end).

Definition collate_dicts (ds : list (gmap string (list Z)))
    : result (gmap string (list (list Z))) :=
  match ds with
  | [] => Ok ∅
  | d0 :: _ =>
      rbind (rmapM (stack_field ds) (map fst (map_to_list d0))) (fun fields =>
      Ok (list_to_map fields))
  end.

Definition collate (exs : list Example) : result Batch :=
  rbind (collate_dicts (map ex_query_inputs exs)) (fun q =>
  rbind (collate_dicts (map ex_doc_inputs exs)) (fun d =>
  Ok {| query_inputs := q; doc_inputs := d; labels := map ex_labels exs |})).

Record DataLoader := {
  dl_dataset : DualEncoderDataset;
  dl_batch_size : nat;
  dl_shuffle : bool
}.

(** [len(loader)]: the number of batches, the last one possibly
    smaller ([drop_last=False]). *)
Definition len (dl : DataLoader) : nat :=
  (ds_len (dl_dataset dl) + dl_batch_size dl - 1) `div` dl_batch_size dl.

Fixpoint chunks_fuel {A} (fuel bs : nat) (l : list A) : list (list A) :=
  match fuel with
  | O => []
  | S fuel' =>
      match l with
      | [] => []
      | _ => take bs l :: chunks_fuel fuel' bs (drop bs l)
      end
  end.
Definition chunks {A} (bs : nat) (l : list A) : list (list A) :=
  chunks_fuel (length l) bs l.

(** One batch of the loader: the examples at the given indices,
    collated. *)
Definition fetch (dl : DataLoader) (indices : list nat) : result Batch :=
  rbind (rmapM (getitem (dl_dataset dl)) indices) collate.

End Data.
Export Data.

(** The global random generator used for shuffling: the permutation of
    [0 .. n-1] produced by the [k]-th draw. *)
Class RandomGen := {
  randperm : nat -> nat -> list nat;
  randperm_length : forall k n, length (randperm k n) = n
}.

(** ** The mutable world of a training run *)

Module Runtime.

(** The state that AdamW keeps per parameter. *)
Record AdamState := {
  adam_step : nat;
  exp_avg : list xreal;
  exp_avg_sq : list xreal
}.

(** The optimizer object: one parameter group. *)
Record Optimizer := {
  param_group : list positive;
  group_lr : xreal;
  opt_state : gmap positive AdamState
}.

(** The [LambdaLR] object built by [get_linear_schedule_with_warmup]. *)
Record Scheduler := {
  base_lr : xreal;
  num_warmup_steps : nat;
  num_training_steps : nat;
  last_epoch : nat
}.

Inductive Event :=
| EvForward (model : positive) (grad : bool) (training : bool)
| EvZeroGrad
| EvBackward (loss : xreal)
| EvOptimizerStep (lr : xreal)
| EvSchedulerStep (step : nat).

Inductive Line :=
| AverageLoss (epoch epochs : nat) (avg : xreal)
| ValidationLoss (avg : xreal).

Record World := mkWorld {
  params : gmap positive (list xreal);     (* parameter tensors *)
  grads : gmap positive (list xreal);      (* their [.grad]; absent is None *)
  training : gmap positive bool;           (* [Module.training], default True *)
  grad_enabled : bool;                     (* the autograd mode *)
  optimizer : Optimizer;
  scheduler : Scheduler;
  rng : nat;                               (* draws taken from the generator *)
  stdout : list Line;
  trace : list Event
}.

Definition with_params (f : gmap positive (list xreal) -> gmap positive (list xreal))
    (w : World) : World :=
  mkWorld (f (params w)) (grads w) (training w) (grad_enabled w) (optimizer w)
          (scheduler w) (rng w) (stdout w) (trace w).
Definition with_grads (f : gmap positive (list xreal) -> gmap positive (list xreal))
    (w : World) : World :=
  mkWorld (params w) (f (grads w)) (training w) (grad_enabled w) (optimizer w)
          (scheduler w) (rng w) (stdout w) (trace w).
Definition with_training (f : gmap positive bool -> gmap positive bool)
    (w : World) : World :=
  mkWorld (params w) (grads w) (f (training w)) (grad_enabled w) (optimizer w)
          (scheduler w) (rng w) (stdout w) (trace w).
Definition with_grad_enabled (b : bool) (w : World) : World :=
  mkWorld (params w) (grads w) (training w) b (optimizer w)
          (scheduler w) (rng w) (stdout w) (trace w).
Definition with_optimizer (f : Optimizer -> Optimizer) (w : World) : World :=
  mkWorld (params w) (grads w) (training w) (grad_enabled w) (f (optimizer w))
          (scheduler w) (rng w) (stdout w) (trace w).
Definition with_scheduler (f : Scheduler -> Scheduler) (w : World) : World :=
  mkWorld (params w) (grads w) (training w) (grad_enabled w) (optimizer w)
          (f (scheduler w)) (rng w) (stdout w) (trace w).
Definition with_rng (f : nat -> nat) (w : World) : World :=
  mkWorld (params w) (grads w) (training w) (grad_enabled w) (optimizer w)
          (scheduler w) (f (rng w)) (stdout w) (trace w).
Definition with_stdout (f : list Line -> list Line) (w : World) : World :=
  mkWorld (params w) (grads w) (training w) (grad_enabled w) (optimizer w)
          (scheduler w) (rng w) (f (stdout w)) (trace w).
Definition with_trace (f : list Event -> list Event) (w : World) : World :=
  mkWorld (params w) (grads w) (training w) (grad_enabled w) (optimizer w)
          (scheduler w) (rng w) (stdout w) (f (trace w)).

(** Computations that change the world and may raise. *)
Definition M (A : Type) : Type := World -> World * result A.

Definition m_ret {A} (a : A) : M A := fun w => (w, Ok a).
Definition m_bind {A B} (c : M A) (k : A -> M B) : M B :=
  fun w => match c w with
           | (w', Ok a) => k a w'
           | (w', Raise e) => (w', Raise e)
           end.
Definition lift {A} (r : result A) : M A := fun w => (w, r).
Definition modify (f : World -> World) : M unit := fun w => (f w, Ok tt).
Definition gets {A} (f : World -> A) : M A := fun w => (w, Ok (f w)).
Definition emit (ev : Event) : M unit := modify (with_trace (fun t => t ++ [ev])).
Definition print (l : Line) : M unit := modify (with_stdout (fun o => o ++ [l])).

(** [for a in l: s = body(s, a)] *)
Fixpoint foldM {A St} (body : St -> A -> M St) (l : list A) (s : St) : M St :=
  match l with
  | [] => m_ret s
  | a :: l' => m_bind (body s a) (foldM body l')
  end.

(** [with torch.no_grad(): body]; the previous mode is restored on
    exit, also when [body] raises. *)
Definition no_grad {A} (body : M A) : M A :=
  fun w =>
    let prev := grad_enabled w in
    let '(w', r) := body (with_grad_enabled false w) in
    (with_grad_enabled prev w', r).

End Runtime.
Export Runtime.

#[global] Instance M_ret : MRet M := @m_ret.
#[global] Instance M_bind : MBind M := fun A B k c => m_bind c k.

(** What autograd and the optimizer compute. [gradient] is the
    derivative of the batch loss with respect to one parameter, as a
    function of everything the loss was computed from. *)
Record GradCtx := {
  gc_params : gmap positive (list xreal);
  gc_query_inputs : gmap string (list (list Z));
  gc_doc_inputs : gmap string (list (list Z));
  gc_teacher_scores : mat;
  gc_alpha : xreal;
  gc_temperature : xreal;
  gc_loss : xreal
}.

Class Autograd := {
  gradient : GradCtx -> positive -> list xreal;
  adamw_update : xreal -> option AdamState -> list xreal -> list xreal
                 -> list xreal * AdamState
}.

(** ** Optimizer, scheduler and autograd operations *)

Module Optim.

(** The multiplier of [get_linear_schedule_with_warmup]:
    [step / max(1, warmup)] during warmup, then
    [max(0, (total - step) / max(1, total - warmup))]. *)
Definition lr_lambda (num_warmup num_training current_step : nat) : Q :=
  if (current_step <? num_warmup)%nat
  then (inject_Z (Z.of_nat current_step)
        / inject_Z (Z.of_nat (Nat.max 1 num_warmup)))%Q
  else Qmax 0 (inject_Z (Z.of_nat num_training - Z.of_nat current_step)
               / inject_Z (Z.max 1 (Z.of_nat num_training - Z.of_nat num_warmup)))%Q.

Definition scheduled_lr (s : Scheduler) : xreal :=
  (base_lr s * Fin (lr_lambda (num_warmup_steps s) (num_training_steps s) (last_epoch s)))%X.

Definition set_lr (lr : xreal) (o : Optimizer) : Optimizer :=
  {| param_group := param_group o; group_lr := lr; opt_state := opt_state o |}.

(** [AdamW(params, lr=lr)] *)
Definition AdamW (ps : list positive) (lr : xreal) : M unit :=
  modify (with_optimizer (fun _ =>
    {| param_group := ps; group_lr := lr; opt_state := ∅ |})).

(** [get_linear_schedule_with_warmup(optimizer, w, t)]: a [LambdaLR]
    over the optimizer; its constructor performs the initial step,
    which sets the counter to 0 and the rate to [base * lambda(0)]. *)
Definition get_linear_schedule_with_warmup (num_warmup num_training : nat) : M unit :=
  modify (fun w =>
    let s := {| base_lr := group_lr (optimizer w);
                num_warmup_steps := num_warmup;
                num_training_steps := num_training;
                last_epoch := 0 |} in
    with_optimizer (set_lr (scheduled_lr s)) (with_scheduler (fun _ => s) w)).

(** [scheduler.step()] *)
Definition scheduler_step : M unit :=
  modify (fun w =>
    let s0 := scheduler w in
    let s := {| base_lr := base_lr s0;
                num_warmup_steps := num_warmup_steps s0;
                num_training_steps := num_training_steps s0;
                last_epoch := S (last_epoch s0) |} in
    with_trace (fun t => t ++ [EvSchedulerStep (last_epoch s)])
      (with_optimizer (set_lr (scheduled_lr s)) (with_scheduler (fun _ => s) w))).

(** [optimizer.zero_grad()]: the gradients of the optimizer's own
    parameters are reset to None. *)
Definition zero_grad : M unit :=
  modify (fun w =>
    with_trace (fun t => t ++ [EvZeroGrad])
      (with_grads (fun g => foldr delete g (param_group (optimizer w))) w)).

Section Auto.
Context `{Autograd}.

Definition accumulate (ctx : GradCtx) (g : gmap positive (list xreal)) (p : positive)
    : gmap positive (list xreal) :=
  match g !! p with
  | None => <[p := gradient ctx p]> g
  | Some old => <[p := zip_with xadd old (gradient ctx p)]> g
  end.

(** [loss.backward()]: the gradient of the loss is accumulated into
    every parameter it was computed from with gradient tracking
    ([leaves]); a loss without any is an error. *)
Definition backward (loss : xreal) (leaves : list positive) (ctx : GradCtx) : M unit :=
  match leaves with
  | [] => fun w => (w, Raise RuntimeError)
  | _ => modify (fun w =>
           with_trace (fun t => t ++ [EvBackward loss])
             (with_grads (fun g => foldl (accumulate ctx) g leaves) w))
  end.

Definition step_param (lr : xreal) (w : World) (p : positive) : World :=
  match grads w !! p, params w !! p with
  | Some g, Some v =>
      let '(v', s') := adamw_update lr (opt_state (optimizer w) !! p) v g in
      with_optimizer (fun o =>
          {| param_group := param_group o; group_lr := group_lr o;
             opt_state := <[p := s']> (opt_state o) |})
        (with_params (<[p := v']>) w)
  | _, _ => w
  end.

(** [optimizer.step()]: every parameter of the group that has a
    gradient is updated. *)
Definition optimizer_step : M unit :=
  modify (fun w =>
    let lr := group_lr (optimizer w) in
    foldl (step_param lr)
          (with_trace (fun t => t ++ [EvOptimizerStep lr]) w)
          (param_group (optimizer w))).

End Auto.

End Optim.
Export Optim.

(** ** [train] and [evaluate] *)

Module Training.

(** [model.train()] and [model.eval()] *)
Definition set_mode (m : DualEncoderModel) (b : bool) : M unit :=
  modify (with_training (<[model_id m := b]>)).
Definition mode_of (w : World) (m : DualEncoderModel) : bool :=
  default true (training w !! model_id m).

(** [model(query_inputs, doc_inputs)]: the scores, the parameters the
    result tracks gradients for, and the two dicts after the call. *)
Definition forward (m : DualEncoderModel)
    (query_inputs doc_inputs : gmap string (list (list Z)))
    : M (mat * list positive * gmap string (list (list Z)) * gmap string (list (list Z))) :=
  fun w =>
    let w' := with_trace (fun t => t ++ [EvForward (model_id m) (grad_enabled w) (mode_of w m)]) w in
    match forward_scores m (params w) (mode_of w m) query_inputs doc_inputs with
    | Ok (scores, q, d) =>
        (w', Ok (scores, if grad_enabled w then parameters m else [], q, d))
    | Raise e => (w', Raise e)
    end.

(** [DataLoader(dataset, batch_size=, shuffle=)] *)
Definition mkDataLoader (ds : DualEncoderDataset) (batch_size : nat) (shuffle : bool)
    : M DataLoader :=
  match batch_size with
  | O => lift (Raise ValueError)
  | _ => mret {| dl_dataset := ds; dl_batch_size := batch_size; dl_shuffle := shuffle |}
  end.

(** [a / n] for a Python float [a] and an int [n]. *)
Definition py_div (a : xreal) (n : nat) : result xreal :=
  match n with
  | O => Raise ZeroDivisionError
  | _ => Ok (a / of_nat n)%X
  end.

(** The values of the local variables of one batch step of [train]
    when line 163 has run. *)
Record Locals := {
  positive_scores : vec;
  negative_scores : vec;
  student_scores_masked : mat;   (* [student_scores] after line 154 *)
  ranking_loss : xreal;
  teacher_log_probs : mat;       (* [teacher_scores] after line 159 *)
  student_log_probs : mat;       (* [student_scores] after line 160 *)
  distillation_loss : xreal;
  loss : xreal
}.

Section Backend.
Context `{Elementary} `{Autograd} `{RandomGen}.

(** The batches of one pass over a loader, as index lists; a
    shuffling loader draws a new permutation for every pass. *)
Definition iter_indices (dl : DataLoader) : M (list (list nat)) :=
  if dl_shuffle dl
  then fun w => (with_rng S w,
                 Ok (chunks (dl_batch_size dl) (randperm (rng w) (ds_len (dl_dataset dl)))))
  else mret (chunks (dl_batch_size dl) (seq 0 (ds_len (dl_dataset dl)))).

(** [for batch in loader: s = body(s, batch)]: the batch of every
    index list is fetched when the loop reaches it. *)
Definition with_batch {St} (dl : DataLoader) (body : St -> Batch -> M St)
    (s : St) (chunk : list nat) : M St :=
  batch ← lift (fetch dl chunk); body s batch.
Definition for_batches {St} (dl : DataLoader) (body : St -> Batch -> M St) (s0 : St)
    : M St :=
  idx ← iter_indices dl;
  foldM (with_batch dl body) idx s0.

(** Line 163 of [train]. *)
Definition combined_loss (alpha ranking_loss distillation_loss : xreal) : xreal :=
  (alpha * ranking_loss + (Fin 1 - alpha) * distillation_loss)%X.

(** Lines 153 to 163 of [train]. *)
Definition compose_loss (loss_fn : vec -> vec -> vec -> result xreal)
    (alpha temperature : xreal) (teacher_scores student_scores : mat) : result Locals :=
  let positive_scores := diag student_scores in
  (* in place: from here on [student_scores] is the masked tensor *)
  let student_scores := fill_diagonal_ NInf student_scores in
  rbind (max_dim1 student_scores) (fun negative_scores =>
  let targets := ones_like positive_scores in
  rbind (loss_fn positive_scores negative_scores targets) (fun ranking_loss =>
  let teacher_scores := log_softmax (div_scalar teacher_scores temperature) in
  let student_log := log_softmax (div_scalar student_scores temperature) in
  let distillation_loss := KLDivLoss_batchmean student_log teacher_scores in
  let loss := combined_loss alpha ranking_loss distillation_loss in
  Ok {| positive_scores := positive_scores;
        negative_scores := negative_scores;
        student_scores_masked := student_scores;
        ranking_loss := ranking_loss;
        teacher_log_probs := teacher_scores;
        student_log_probs := student_log;
        distillation_loss := distillation_loss;
        loss := loss |})).

(** The body of the batch loop of [train] (lines 145 to 171). *)
Definition train_batch (model teacher_model : DualEncoderModel)
    (loss_fn : vec -> vec -> vec -> result xreal) (alpha temperature : xreal)
    (total_loss : xreal) (batch : Batch) : M xreal :=
  let query_inputs := query_inputs batch in
  let doc_inputs := doc_inputs batch in
  let labels := labels batch in
  ' (teacher_scores, _, query_inputs, doc_inputs) ←
      no_grad (forward teacher_model query_inputs doc_inputs);
  ' (student_scores, leaves, query_inputs, doc_inputs) ←
      forward model query_inputs doc_inputs;
  l ← lift (compose_loss loss_fn alpha temperature teacher_scores student_scores);
  zero_grad ;;
  theta ← gets params;
  backward (loss l) leaves
    {| gc_params := theta; gc_query_inputs := query_inputs;
       gc_doc_inputs := doc_inputs; gc_teacher_scores := teacher_scores;
       gc_alpha := alpha; gc_temperature := temperature; gc_loss := loss l |} ;;
  optimizer_step ;;
  scheduler_step ;;
  mret (total_loss + loss l)%X.

(** The body of the batch loop of [evaluate] (lines 193 to 203). *)
Definition evaluate_batch (model : DualEncoderModel)
    (loss_fn : vec -> vec -> vec -> result xreal)
    (total_loss : xreal) (batch : Batch) : M xreal :=
  let query_inputs := query_inputs batch in
  let doc_inputs := doc_inputs batch in
  let labels := labels batch in
  ' (scores, _, _, _) ← forward model query_inputs doc_inputs;
  let positive_scores := diag scores in
  let scores := fill_diagonal_ NInf scores in
  negative_scores ← lift (max_dim1 scores);
  let targets := ones_like positive_scores in
  loss ← lift (loss_fn positive_scores negative_scores targets);
  mret (total_loss + loss)%X.

Definition evaluate (model : DualEncoderModel) (val_loader : DataLoader)
    (loss_fn : vec -> vec -> vec -> result xreal) : M unit :=
  set_mode model false ;;
  total_loss ← no_grad (for_batches val_loader (evaluate_batch model loss_fn) (Fin 0));
  avg_val_loss ← lift (py_div total_loss (len val_loader));
  print (ValidationLoss avg_val_loss).

(** One iteration of the epoch loop of [train] (lines 140 to 176). *)
Definition train_epoch (model teacher_model : DualEncoderModel)
    (train_loader val_loader : DataLoader)
    (loss_fn : vec -> vec -> vec -> result xreal)
    (epochs : nat) (alpha temperature : xreal) (_ : unit) (epoch : nat) : M unit :=
  set_mode model true ;;
  set_mode teacher_model false ;;
  total_loss ← for_batches train_loader
                  (train_batch model teacher_model loss_fn alpha temperature) (Fin 0);
  avg_train_loss ← lift (py_div total_loss (len train_loader));
  print (AverageLoss (epoch + 1) epochs avg_train_loss) ;;
  evaluate model val_loader loss_fn.

(** [train]; the parameters [tokenizer] and [max_length] are not
    used by its body, and moving tensors to the device does not
    change them. *)
Definition train (model teacher_model : DualEncoderModel)
    (tokenizer : string -> nat -> gmap string (list Z))
    (train_dataset val_dataset : DualEncoderDataset)
    (epochs batch_size : nat) (learning_rate : xreal) (max_length : nat)
    (alpha temperature : xreal) : M unit :=
  train_loader ← mkDataLoader train_dataset batch_size true;
  val_loader ← mkDataLoader val_dataset batch_size false;
  AdamW (parameters model) learning_rate ;;
  let total_steps := (len train_loader * epochs)%nat in
  get_linear_schedule_with_warmup 0 total_steps ;;
  let loss_fn := MarginRankingLoss (Fin 1) in
  foldM (train_epoch model teacher_model train_loader val_loader loss_fn
                     epochs alpha temperature)
        (seq 0 epochs) tt.

End Backend.

End Training.
Export Training.

(** ** A small instance of the interfaces

    The statements of this development quantify over the encoders and
    over the three backend interfaces.  To run the definitions on
    concrete batches, this module fixes small rational stand-ins for
    them: second-order approximations of [exp] and [log], a gradient
    that is the loss itself, a plain gradient step as the optimizer
    update, the reversal as the shuffling permutation, and encoders
    that scale the token ids by their single weight. *)

Module Demo.

#[export] Instance elem : Elementary := {|
  fexp q := Fin (1 + q + q * q / 2)%Q;
  flog q := Fin (2 * (q - 1) / (q + 1))%Q
|}.

#[export] Instance auto : Autograd := {|
  gradient ctx p := [gc_loss ctx];
  adamw_update lr st v g :=
    (zip_with (fun x d => x - lr * d)%X v g,
     {| adam_step := S (from_option adam_step 0%nat st);
        exp_avg := g; exp_avg_sq := zip_with xmul g g |})
|}.

#[export] Instance gen : RandomGen := {|
  randperm k n := reverse (seq 0 n);
  randperm_length k n := eq_trans (length_reverse (seq 0 n)) (length_seq n 0)
|}.

Definition weight (theta : gmap positive (list xreal)) (p : positive) : xreal :=
  match theta !! p with
  | Some (a :: _) => a
  | _ => Fin 1
  end.

Definition embed (theta : gmap positive (list xreal)) (p : positive) (ids : list Z) : vec :=
  map (fun t => (weight theta p * Fin (inject_Z t))%X) ids.

Definition encoder (distil : bool) (p : positive) : Encoder := {|
  is_DistilBert := distil;
  enc_parameters := [p];
  enc_call theta training inputs :=
    match inputs !! "input_ids" with
    | None => Raise KeyError
    | Some ids =>
        Ok {| last_hidden_state := map (fun row => [embed theta p row]) ids;
              pooler_output := if distil then None else Some (map (embed theta p) ids) |}
    end
|}.

Definition student : DualEncoderModel :=
  {| model_id := 1; query_encoder := encoder true 1; doc_encoder := encoder true 2 |}.
Definition teacher : DualEncoderModel :=
  {| model_id := 2; query_encoder := encoder false 3; doc_encoder := encoder false 4 |}.

Definition tok (s : string) (n : nat) : gmap string (list Z) :=
  let codes := map (fun a => Z.of_nat (Ascii.nat_of_ascii a)) (String.list_ascii_of_string s) in
  {[ "input_ids" := take n (codes ++ replicate n 0%Z);
     "attention_mask" := take n (map (fun _ => 1%Z) codes ++ replicate n 0%Z);
     "token_type_ids" := replicate n 0%Z ]}.

Definition dataset (qs ds : list string) (ls : list xreal) : DualEncoderDataset :=
  {| tokenizer := tok; ds_queries := qs; ds_documents := ds; ds_labels := ls;
     max_length := 2 |}.

Definition train_set : DualEncoderDataset :=
  dataset ["ab"; "c"; "a"] ["b"; "ca"; "bb"] [Fin 1; Fin 0; Fin 1].
Definition val_set : DualEncoderDataset :=
  dataset ["a"; "b"] ["a"; "c"] [Fin 1; Fin 1].

Definition world0 : World :=
  {| params := {[ 1%positive := [Fin (1 # 100)]; 2%positive := [Fin (1 # 100)];
                  3%positive := [Fin (1 # 50)]; 4%positive := [Fin (1 # 100)] ]};
     grads := ∅; training := ∅; grad_enabled := true;
     optimizer := {| param_group := []; group_lr := Fin 0; opt_state := ∅ |};
     scheduler := {| base_lr := Fin 0; num_warmup_steps := 0;
                     num_training_steps := 0; last_epoch := 0 |};
     rng := 0; stdout := []; trace := [] |}.

End Demo.

(** ** The loss formulas as the specification words them *)

Module Spec.

(** A score matrix with finite entries. *)
Definition inj (m : list (list Q)) : mat := map (map Fin) m.

Definition entry (m : list (list Q)) (i j : nat) : Q :=
  default 0%Q (m !! i ≫= (.!! j)).

Definition qmax_list (l : list Q) : Q :=
  match l with
  | [] => 0%Q
  | a :: l' => foldl Qmax a l'
  end.

(** [pos_i]: the diagonal entry. *)
Definition pos (m : list (list Q)) (i : nat) : Q := entry m i i.

(** [neg_i]: the maximum over row [i] excluding the diagonal. *)
Definition neg (m : list (list Q)) (i : nat) : Q :=
  qmax_list (delete i (default [] (m !! i))).

Definition hinge (margin p n : Q) : Q := Qmax 0 (margin - (p - n))%Q.

Definition qsum (l : list Q) : Q := foldr Qplus 0%Q l.

(** [L_rank = mean_i max(0, m - (pos_i - neg_i))] *)
Definition ranking_loss (margin : Q) (m : list (list Q)) : Q :=
  (qsum (map (fun i => hinge margin (pos m i) (neg m i)) (seq 0 (length m)))
   / inject_Z (Z.of_nat (length m)))%Q.

(** [L = alpha L_rank + (1 - alpha) L_distill] *)
Definition combined (alpha l_rank l_distill : Q) : Q :=
  (alpha * l_rank + (1 - alpha) * l_distill)%Q.

End Spec.

(** ** Predicates used in the statements *)

Module Props.

(** [steps R c]: running [c] takes every world to an [R]-related one,
    whatever the outcome. *)
Definition steps {A} (R : relation World) (c : M A) : Prop :=
  forall w, R w (c w).1.

(** [ticks n c]: a run of [c] that returns has advanced the
    scheduler's step counter by [n]. *)
Definition ticks {A} (n : nat) (c : M A) : Prop :=
  forall w w' a, c w = (w', Ok a) ->
    last_epoch (scheduler w') = (last_epoch (scheduler w) + n)%nat.

(** A forward pass of model [tid] ran with gradients disabled. *)
Definition teacher_nograd (tid : positive) (ev : Event) : Prop :=
  match ev with
  | EvForward m g _ => m = tid -> g = false
  | _ => True
  end.

(** From [w] to [w']: the optimizer's parameter group is the same, no
    parameter outside it has changed, and the new events contain no
    forward pass of model [tid] with gradients enabled. *)
Definition frozen (tid : positive) (w w' : World) : Prop :=
  param_group (optimizer w') = param_group (optimizer w)
  /\ (forall p, p ∉ param_group (optimizer w) -> params w' !! p = params w !! p)
  /\ exists evs, trace w' = trace w ++ evs /\ Forall (teacher_nograd tid) evs.

Definition is_update (ev : Event) : bool :=
  match ev with
  | EvOptimizerStep _ | EvSchedulerStep _ => true
  | _ => false
  end.

(** [step_pairs lr0 total k evs k']: in [evs], optimizer and scheduler
    steps only occur as adjacent pairs, numbered from [k + 1] to [k'];
    the optimizer step of pair [j + 1] ran at the rate
    [lr0 * lr_lambda 0 total j]. *)
Inductive step_pairs (lr0 : xreal) (total : nat) : nat -> list Event -> nat -> Prop :=
| sp_nil k : step_pairs lr0 total k [] k
| sp_pair k evs k' :
    step_pairs lr0 total (S k) evs k' ->
    step_pairs lr0 total k
      (EvOptimizerStep (lr0 * Fin (lr_lambda 0 total k))%X :: EvSchedulerStep (S k) :: evs) k'
| sp_other k ev evs k' :
    is_update ev = false ->
    step_pairs lr0 total k evs k' ->
    step_pairs lr0 total k (ev :: evs) k'.

(** The scheduler is the linear one over [total] steps from [lr0]
    without warmup, and the optimizer runs at the scheduled rate. *)
Definition sched_inv (lr0 : xreal) (total : nat) (w : World) : Prop :=
  base_lr (scheduler w) = lr0
  /\ num_warmup_steps (scheduler w) = 0%nat
  /\ num_training_steps (scheduler w) = total
  /\ group_lr (optimizer w) = scheduled_lr (scheduler w).

Definition scheduled (lr0 : xreal) (total : nat) (w w' : World) : Prop :=
  sched_inv lr0 total w ->
  sched_inv lr0 total w'
  /\ exists evs, trace w' = trace w ++ evs
       /\ step_pairs lr0 total (last_epoch (scheduler w)) evs (last_epoch (scheduler w')).

(** The ranking loss of one validation batch. *)
Definition eval_loss (model : DualEncoderModel) (theta : gmap positive (list xreal))
    (training : bool) (loss_fn : vec -> vec -> vec -> result xreal) (b : Batch)
    : result xreal :=
  rbind (forward_scores model theta training (query_inputs b) (doc_inputs b))
    (fun '(scores, _, _) =>
  rbind (max_dim1 (fill_diagonal_ NInf scores)) (fun negative_scores =>
  loss_fn (diag scores) negative_scores (ones_like (diag scores)))).

(** The index lists of the batches a loader yields in a pass that
    starts in world [w]. *)
Definition batch_indices `{RandomGen} (dl : DataLoader) (w : World) : list (list nat) :=
  chunks (dl_batch_size dl)
    (if dl_shuffle dl then randperm (rng w) (ds_len (dl_dataset dl))
     else seq 0 (ds_len (dl_dataset dl))).

(** The same dataset with every label replaced by 0. *)
Definition erase_labels (ds : DualEncoderDataset) : DualEncoderDataset :=
  {| tokenizer := tokenizer ds; ds_queries := ds_queries ds;
     ds_documents := ds_documents ds;
     ds_labels := map (fun _ => Fin 0) (ds_labels ds);
     max_length := max_length ds |}.

Definition erase_loader (dl : DataLoader) : DataLoader :=
  {| dl_dataset := erase_labels (dl_dataset dl); dl_batch_size := dl_batch_size dl;
     dl_shuffle := dl_shuffle dl |}.

Definition erase_example (ex : Example) : Example :=
  {| ex_query_inputs := ex_query_inputs ex; ex_doc_inputs := ex_doc_inputs ex;
     ex_labels := Fin 0 |}.

Definition erase_batch (b : Batch) : Batch :=
  {| query_inputs := query_inputs b; doc_inputs := doc_inputs b;
     labels := map (fun _ => Fin 0) (labels b) |}.

(** Two datasets that differ at most in their labels. *)
Definition same_except_labels (ds ds' : DualEncoderDataset) : Prop :=
  tokenizer ds = tokenizer ds' /\ ds_queries ds = ds_queries ds'
  /\ ds_documents ds = ds_documents ds' /\ max_length ds = max_length ds'
  /\ length (ds_labels ds) = length (ds_labels ds').

(** The representation extraction of [forward]: the first-position
    hidden state when one of the encoders is a DistilBERT, the pooled
    output otherwise. *)
Definition representation (m : DualEncoderModel) (o : EncoderOutput) : result mat :=
  if any_DistilBert m then cls_token (last_hidden_state o)
  else of_option AttributeError (pooler_output o).

(** The dict an encoder of [m] receives. *)
Definition popped (m : DualEncoderModel) (inputs : gmap string (list (list Z)))
    : gmap string (list (list Z)) :=
  if any_DistilBert m then delete "token_type_ids" inputs else inputs.

End Props.
Export Props.

(** ** Concrete batches for the small instance *)

Module DemoData.
Import Demo.

Definition ids (rows : list (list Z)) : gmap string (list (list Z)) :=
  {[ "input_ids" := rows ]}.

(** The world when [train] enters its first epoch. *)
Definition ready : World :=
  ((AdamW (parameters student) (Fin (1 # 10)) ≫= fun _ =>
    get_linear_schedule_with_warmup 0 4) world0).1.

Definition batch_of_one : Batch :=
  {| query_inputs := ids [[3; 1]]%Z; doc_inputs := ids [[2; 5]]%Z; labels := [Fin 1] |}.
Definition batch_of_two : Batch :=
  {| query_inputs := ids [[3; 1]; [0; 2]]%Z; doc_inputs := ids [[2; 5]; [4; 1]]%Z;
     labels := [Fin 1; Fin 0] |}.

Definition val_loader : DataLoader :=
  {| dl_dataset := val_set; dl_batch_size := 2; dl_shuffle := false |}.

(** [train_set] with other labels. *)
Definition train_set' : DualEncoderDataset :=
  dataset ["ab"; "c"; "a"] ["b"; "ca"; "bb"] [Fin 0; Fin 3; Fin 2].

End DemoData.

(** ** The MS MARCO loader and [main] *)

(** [for a in l: s = f(s, a)] for a body that may raise. *)
Fixpoint rfoldl {A St} (f : St -> A -> result St) (l : list A) (s : St) : result St :=
  match l with
  | [] => Ok s
  | a :: l' => rbind (f s a) (rfoldl f l')
  end.

Module MsMarco.

(** The records of [ir_datasets]. *)
Record GenericQuery := { query_id : string; query_text : string }.
Record GenericDoc := { doc_id : string; doc_text : string }.
Record TrecQrel := {
  qrel_query_id : string;
  qrel_doc_id : string;
  relevance : Z;
  iteration : string
}.

(** What [ir_datasets.load("msmarco-passage/train")] gives access to:
    the three iterators, each consumed once. *)
Record Dataset := {
  queries_iter : list GenericQuery;
  docs_iter : list GenericDoc;
  qrels_iter : list TrecQrel
}.

(** [{query.query_id: query.text for query in queries}]: a later
    record with the same id replaces the earlier one. *)
Definition query_dict (queries : list GenericQuery) : gmap string string :=
  foldl (fun d query => <[query_id query := query_text query]> d) ∅ queries.
Definition doc_dict (docs : list GenericDoc) : gmap string string :=
  foldl (fun d doc => <[doc_id doc := doc_text doc]> d) ∅ docs.

(** The body of the loop over the qrels (lines 228 to 230): a missing
    key raises KeyError. *)
Definition append_qrel (query_dict doc_dict : gmap string string)
    (acc : list string * list string * list Z) (qrel : TrecQrel)
    : result (list string * list string * list Z) :=
  let '(queries, documents, labels) := acc in
  rbind (of_option KeyError (query_dict !! qrel_query_id qrel)) (fun q =>
  rbind (of_option KeyError (doc_dict !! qrel_doc_id qrel)) (fun d =>
  Ok (queries ++ [q], documents ++ [d], labels ++ [relevance qrel]))).

(** [load_msmarco_data], on the corpus that [ir_datasets.load] has
    opened. *)
Definition load_msmarco_data (dataset : Dataset)
    : result (list string * list string * list Z) :=
  let queries := queries_iter dataset in
  let docs := docs_iter dataset in
  let qrels := qrels_iter dataset in
  let query_dict := query_dict queries in
  let doc_dict := doc_dict docs in
  rfoldl (append_qrel query_dict doc_dict) qrels ([], [], []).

(** What the loop appends to the three lists for one qrel. *)
Definition qrel_row (qd dd : gmap string string) (qrel : TrecQrel)
    : result (string * string * Z) :=
  rbind (of_option KeyError (qd !! qrel_query_id qrel)) (fun q =>
  rbind (of_option KeyError (dd !! qrel_doc_id qrel)) (fun d =>
  Ok (q, d, relevance qrel))).

End MsMarco.
Export MsMarco.

Module Main.

(** The parsed command line; the integer arguments are taken to be
    non-negative. *)
Record Args := {
  teacher_model_name : string;
  student_model_name : string;
  epochs : nat;
  batch_size : nat;
  learning_rate : xreal;
  max_length : nat;
  alpha : xreal;
  temperature : xreal;
  save_model_path : string
}.

Definition subset_size : nat := 1000.

(** [int(0.8 * subset_size)] *)
Definition split_idx : nat :=
  Z.to_nat (Qfloor ((8 # 10) * inject_Z (Z.of_nat subset_size))).

(** [torch.tensor(label, dtype=torch.float)] for an integer label. *)
Definition as_float (label : Z) : xreal := Fin (inject_Z label).

(** Lines 244 to 261 of [main]: the subset, the split and the two
    datasets.  A dataset keeps its labels as the floats that
    [__getitem__] turns them into. *)
Definition datasets (tokenizer : string -> nat -> gmap string (list Z)) (max_length : nat)
    (queries documents : list string) (labels : list Z)
    : DualEncoderDataset * DualEncoderDataset :=
  let queries := take subset_size queries in
  let documents := take subset_size documents in
  let labels := take subset_size labels in
  let train_queries := take split_idx queries in
  let train_documents := take split_idx documents in
  let train_labels := take split_idx labels in
  let val_queries := drop split_idx queries in
  let val_documents := drop split_idx documents in
  let val_labels := drop split_idx labels in
  ({| tokenizer := tokenizer; ds_queries := train_queries;
      ds_documents := train_documents; ds_labels := map as_float train_labels;
      Data.max_length := max_length |},
   {| tokenizer := tokenizer; ds_queries := val_queries;
      ds_documents := val_documents; ds_labels := map as_float val_labels;
      Data.max_length := max_length |}).

Section Run.
Context `{Elementary} `{Autograd} `{RandomGen}.

(** [main]; the tokenizer and the two models that lines 236 to 238
    load from the hub, and the corpus that [ir_datasets.load] opens,
    are given. *)
Definition main (tokenizer : string -> nat -> gmap string (list Z))
    (teacher_model student_model : DualEncoderModel) (corpus : Dataset)
    (args : Args) : M unit :=
  ' (queries, documents, labels) ← lift (load_msmarco_data corpus);
  let '(train_dataset, val_dataset) :=
    datasets tokenizer (max_length args) queries documents labels in
  train student_model teacher_model tokenizer train_dataset val_dataset
    (epochs args) (batch_size args) (learning_rate args) (max_length args)
    (alpha args) (temperature args).

End Run.

End Main.

(** ** Specifications of computations *)

Module Triples.

(** [triple P c Q E]: from a world in [P], a run of [c] that returns
    [a] ends in a world in [Q a], and a run that raises [e] ends in a
    world in [E e]. *)
Definition triple {A} (P : World -> Prop) (c : M A)
    (Q : A -> World -> Prop) (E : exn -> World -> Prop) : Prop :=
  forall w, P w ->
    match c w with
    | (w', Ok a) => Q a w'
    | (w', Raise e) => E e w'
    end.

End Triples.
Export Triples.

Module Reports.

(** The lines printed by the epochs [epoch], [epoch + 1], ... of
    [train], for the given averages of the training loss and of the
    validation loss. *)
Fixpoint report_lines (epochs epoch : nat) (reps : list (xreal * xreal)) : list Line :=
  match reps with
  | [] => []
  | (a, v) :: reps' =>
      AverageLoss (epoch + 1) epochs a :: ValidationLoss v
        :: report_lines epochs (S epoch) reps'
  end.

Definition is_forward (ev : Event) : bool :=
  match ev with EvForward _ _ _ => true | _ => false end.

(** From [w] to [w']: the autograd mode, the modes of the modules and
    the output are the same, and no forward pass was run. *)
Definition calm (w w' : World) : Prop :=
  grad_enabled w' = grad_enabled w /\ training w' = training w
  /\ stdout w' = stdout w
  /\ exists evs, trace w' = trace w ++ evs /\ Forall (fun ev => is_forward ev = false) evs.

(** The same without the condition on the events. *)
Definition quiet (w w' : World) : Prop :=
  grad_enabled w' = grad_enabled w /\ training w' = training w
  /\ stdout w' = stdout w.

(** The modes a forward pass may run in: the teacher [tid] without
    gradients and in evaluation mode; the student [sid] either in
    training mode with the autograd mode [g0] of the caller, or in
    evaluation mode without gradients. *)
Definition mode_ok (sid tid : positive) (g0 : bool) (ev : Event) : Prop :=
  match ev with
  | EvForward m g t =>
      (m = tid -> g = false /\ t = false)
      /\ (m = sid -> (g = g0 /\ t = true) \/ (g = false /\ t = false))
  | _ => True
  end.

(** The invariant of the epoch loop: the autograd mode is [g0], and the
    forward passes since [w0] ran in their modes. *)
Definition forwards_ok (sid tid : positive) (g0 : bool) (w0 w : World) : Prop :=
  grad_enabled w = g0
  /\ exists evs, trace w = trace w0 ++ evs /\ Forall (mode_ok sid tid g0) evs.

(** The invariant of the batch loop of [train]: moreover the student
    is in training mode and the teacher in evaluation mode. *)
Definition batch_ready (sid tid : positive) (g0 : bool) (w0 w : World) : Prop :=
  forwards_ok sid tid g0 w0 w
  /\ training w !! sid = Some true /\ training w !! tid = Some false.

End Reports.
Export Reports.

Module Setup.

(** The world when [train] enters its epoch loop: the optimizer and
    the scheduler of lines 132 to 134 are in place. *)
Definition after_setup (model : DualEncoderModel) (learning_rate : xreal)
    (total_steps : nat) (w : World) : World :=
  ((AdamW (parameters model) learning_rate ≫= fun _ =>
    get_linear_schedule_with_warmup 0 total_steps) w).1.

(** The two loaders of lines 129 and 130. *)
Definition train_loader_of (ds : DualEncoderDataset) (batch_size : nat) : DataLoader :=
  {| dl_dataset := ds; dl_batch_size := batch_size; dl_shuffle := true |}.
Definition val_loader_of (ds : DualEncoderDataset) (batch_size : nat) : DataLoader :=
  {| dl_dataset := ds; dl_batch_size := batch_size; dl_shuffle := false |}.

(** On every batch that the loader can yield in a shuffled pass, the
    score matrix of model [m] has at least one entry. *)
Definition answers `{RandomGen} (m : DualEncoderModel) (dl : DataLoader) : Prop :=
  forall k chunk b theta training scores q d,
    chunk ∈ chunks (dl_batch_size dl) (randperm k (ds_len (dl_dataset dl))) ->
    fetch dl chunk = Ok b ->
    forward_scores m theta training (query_inputs b) (doc_inputs b) = Ok (scores, q, d) ->
    exists x r T, scores = (x :: r) :: T.

(** On every batch that a pass in dataset order yields, the score
    matrix of model [m] under the parameters [theta] is a single
    finite number. *)
Definition single_scores (m : DualEncoderModel) (dl : DataLoader)
    (theta : gmap positive (list xreal)) : Prop :=
  forall chunk b training scores q d,
    chunk ∈ chunks (dl_batch_size dl) (seq 0 (ds_len (dl_dataset dl))) ->
    fetch dl chunk = Ok b ->
    forward_scores m theta training (query_inputs b) (doc_inputs b) = Ok (scores, q, d) ->
    exists s, scores = [[Fin s]].

End Setup.
Export Setup.

(** ** A small corpus for the small instance *)

Module DemoCorpus.
Import Demo.

Definition query (id text : string) : GenericQuery :=
  {| query_id := id; query_text := text |}.
Definition doc (id text : string) : GenericDoc :=
  {| doc_id := id; doc_text := text |}.
Definition qrel (q d : string) (r : Z) : TrecQrel :=
  {| qrel_query_id := q; qrel_doc_id := d; relevance := r; iteration := "0" |}.

(** Two records carry the query id [q1]. *)
Definition corpus : Dataset :=
  {| queries_iter := [query "q1" "ab"; query "q2" "c"; query "q1" "a"];
     docs_iter := [doc "d1" "b"; doc "d2" "ca"];
     qrels_iter := [qrel "q1" "d1" 1; qrel "q2" "d2" 0; qrel "q1" "d2" 1] |}.

(** The last qrel refers to a query that the corpus does not have. *)
Definition dangling : Dataset :=
  {| queries_iter := queries_iter corpus; docs_iter := docs_iter corpus;
     qrels_iter := qrels_iter corpus ++ [qrel "q9" "d1" 1] |}.

Definition args : Main.Args :=
  {| Main.teacher_model_name := "bert-base-uncased";
     Main.student_model_name := "distilbert-base-uncased";
     Main.epochs := 2; Main.batch_size := 2; Main.learning_rate := Fin (1 # 10);
     Main.max_length := 2; Main.alpha := Fin (1 # 2); Main.temperature := Fin 2;
     Main.save_model_path := "./fine_tuned_student_model" |}.

(** A validation set without examples, and one with a document
    missing. *)
Definition no_examples : DualEncoderDataset := dataset [] [] [].
Definition short_set : DualEncoderDataset := dataset ["a"; "b"] ["a"] [Fin 1; Fin 1].

End DemoCorpus.

(** * Properties *)

(** ** Scalars *)

Section XRealFacts.

#[local] Open Scope Q_scope.

Lemma xeq_refl a : a =x= a.
Proof. destruct a; simpl; auto. reflexivity. Qed.

Lemma xeq_sym a b : a =x= b -> b =x= a.
Proof. destruct a, b; simpl; auto. intros; symmetry; done. Qed.

Lemma xeq_trans a b c : a =x= b -> b =x= c -> a =x= c.
Proof. destruct a, b, c; simpl; auto; try tauto. intros; etrans; eauto. Qed.

#[global] Instance xeq_equiv : Equivalence xeq.
Proof. split; [exact xeq_refl | exact xeq_sym | exact xeq_trans]. Qed.

Lemma xeq_finite a b : a =x= b -> is_finite a = is_finite b.
Proof. destruct a, b; simpl; tauto. Qed.

#[global] Instance xadd_proper : Proper (xeq ==> xeq ==> xeq) xadd.
Proof.
  intros a a' Ha b b' Hb.
  destruct a, a'; simpl in Ha; try tauto;
    destruct b, b'; simpl in Hb; try tauto; simpl; auto.
  by rewrite Ha, Hb.
Qed.

#[global] Instance xneg_proper : Proper (xeq ==> xeq) xneg.
Proof.
  intros a a' Ha. destruct a, a'; simpl in *; try tauto. by rewrite Ha.
Qed.

#[global] Instance xsub_proper : Proper (xeq ==> xeq ==> xeq) xsub.
Proof. intros a a' Ha b b' Hb. unfold xsub. by rewrite Ha, Hb. Qed.

Lemma scale_inf_proper s x y : x == y -> scale_inf s x = scale_inf s y.
Proof. intros E. unfold scale_inf. by rewrite E. Qed.

#[global] Instance xmul_proper : Proper (xeq ==> xeq ==> xeq) xmul.
Proof.
  intros a a' Ha b b' Hb.
  destruct a, a'; simpl in Ha; try tauto;
    destruct b, b'; simpl in Hb; try tauto; simpl; auto;
    try (by rewrite Ha, Hb);
    try (rewrite (scale_inf_proper _ _ _ Ha); reflexivity);
    try (rewrite (scale_inf_proper _ _ _ Hb); reflexivity).
Qed.

#[global] Instance xdiv_proper : Proper (xeq ==> xeq ==> xeq) xdiv.
Proof.
  intros a a' Ha b b' Hb.
  destruct a as [|x| |], a' as [|x'| |]; simpl in Ha; try tauto;
    destruct b as [|y| |], b' as [|y'| |]; simpl in Hb; try tauto; simpl; auto;
    try reflexivity.
  - rewrite (Qcompare_comp y y' Hb 0 0 (Qeq_refl 0)).
    reflexivity.
  - rewrite (Qcompare_comp y y' Hb 0 0 (Qeq_refl 0)).
    rewrite (Qcompare_comp x x' Ha 0 0 (Qeq_refl 0)).
    destruct (y' ?= 0); [destruct (x' ?= 0) | |]; simpl; auto; by rewrite Ha, Hb.
  - rewrite (Qcompare_comp y y' Hb 0 0 (Qeq_refl 0)).
    reflexivity.
Qed.

#[global] Instance clamp_min0_proper : Proper (xeq ==> xeq) clamp_min0.
Proof.
  intros a a' Ha.
  destruct a as [|x| |], a' as [|x'| |]; simpl in *; try tauto; try reflexivity.
  destruct (Qle_bool x 0) eqn:E1, (Qle_bool x' 0) eqn:E2; simpl; auto; try reflexivity.
  - rewrite Qle_bool_iff in E1. rewrite Ha in E1.
    apply Qle_bool_iff in E1. congruence.
  - rewrite Qle_bool_iff in E2. rewrite <- Ha in E2.
    apply Qle_bool_iff in E2. congruence.
Qed.

(** A special value in an operand stays in the result. *)
Lemma xadd_finite a b :
  is_finite (a + b)%X = true -> is_finite a = true /\ is_finite b = true.
Proof. destruct a, b; simpl; auto. Qed.

Lemma xneg_finite a : is_finite (- a)%X = is_finite a.
Proof. by destruct a. Qed.

Lemma xsub_finite a b :
  is_finite (a - b)%X = true -> is_finite a = true /\ is_finite b = true.
Proof.
  unfold xsub. intros [? ?]%xadd_finite. by rewrite xneg_finite in *.
Qed.

Lemma xmul_finite a b :
  is_finite (a * b)%X = true -> is_finite a = true /\ is_finite b = true.
Proof.
  destruct a as [|x| |], b as [|y| |]; simpl; auto; unfold scale_inf;
    first [destruct (x ?= 0) | destruct (y ?= 0)]; simpl; auto.
Qed.

Lemma xdiv_finite a b : is_finite (a / b)%X = true -> is_finite a = true.
Proof.
  destruct a as [|x| |], b as [|y| |]; simpl; auto; destruct (y ?= 0); simpl; auto.
Qed.

Lemma foldl_xadd_finite a v :
  is_finite (foldl xadd a v) = true ->
  is_finite a = true /\ Forall (fun b => is_finite b = true) v.
Proof.
  revert a. induction v as [|b v IH]; simpl; intros a Hf; [done|].
  apply IH in Hf as [[? ?]%xadd_finite ?]. auto.
Qed.

Lemma vsum_finite v :
  is_finite (vsum v) = true -> Forall (fun b => is_finite b = true) v.
Proof. intros Hf. by apply foldl_xadd_finite in Hf as [_ ?]. Qed.

End XRealFacts.

(** ** The ranking loss *)

Section RankingFacts.
#[local] Open Scope Q_scope.

Lemma xmax_fin a b : xmax (Fin a) (Fin b) =x= Fin (Qmax a b).
Proof.
  simpl. destruct (Qle_bool a b) eqn:E; simpl.
  - apply Qle_bool_iff in E. symmetry. by apply Q.max_r.
  - symmetry. apply Q.max_l. apply Qlt_le_weak, Qnot_le_lt.
    intros Hle. apply Qle_bool_iff in Hle. congruence.
Qed.

#[global] Instance xmax_proper : Proper (xeq ==> xeq ==> xeq) xmax.
Proof.
  intros a a' Ha b b' Hb.
  destruct a as [|x| |], a' as [|x'| |]; simpl in Ha; try tauto;
    destruct b as [|y| |], b' as [|y'| |]; simpl in Hb; try tauto; simpl; auto.
  destruct (Qle_bool x y) eqn:E1, (Qle_bool x' y') eqn:E2; simpl; auto.
  - apply Qle_bool_iff in E1. rewrite Ha, Hb in E1.
    apply Qle_bool_iff in E1. congruence.
  - apply Qle_bool_iff in E2. rewrite <- Ha, <- Hb in E2.
    apply Qle_bool_iff in E2. congruence.
Qed.

Lemma foldl_xmax_proper a a' l : a =x= a' -> foldl xmax a l =x= foldl xmax a' l.
Proof.
  revert a a'. induction l as [|b l IH]; simpl; intros a a' E; [done|].
  apply IH. by rewrite E.
Qed.

Lemma foldl_Qmax_proper a a' l : a == a' -> foldl Qmax a l == foldl Qmax a' l.
Proof.
  revert a a'. induction l as [|b l IH]; simpl; intros a a' E; [done|].
  apply IH. by rewrite E.
Qed.

Lemma foldl_xmax_fin a l :
  foldl xmax (Fin a) (map Fin l) =x= Fin (foldl Qmax a l).
Proof.
  revert a. induction l as [|b l IH]; intros a; [simpl; reflexivity|].
  cbn [map foldl]. rewrite <- IH. apply foldl_xmax_proper, xmax_fin.
Qed.

(** The row maximum after masking position [k] is the maximum of the
    other entries. *)
Lemma foldl_xmax_masked a l k :
  foldl xmax (Fin a) (<[k := NInf]> (map Fin l)) =x= Fin (foldl Qmax a (delete k l)).
Proof.
  revert a k. induction l as [|b l IH]; intros a k; [simpl; reflexivity|].
  destruct k as [|k].
  - cbn. apply foldl_xmax_fin.
  - cbn [map foldl delete]. change (<[S k:=NInf]> (Fin b :: map Fin l))
      with (Fin b :: <[k:=NInf]> (map Fin l)).
    cbn [foldl]. etrans; [apply foldl_xmax_proper, xmax_fin|]. apply IH.
Qed.

Lemma row_max_masked r i :
  (2 <= length r)%nat ->
  exists v, row_max (<[i := NInf]> (map Fin r)) = Ok v
            /\ v =x= Fin (Spec.qmax_list (delete i r)).
Proof.
  intros Hlen. destruct r as [|a [|b r]]; simpl in Hlen; try lia.
  destruct i as [|i].
  - eexists; split; [reflexivity|]. cbn. apply foldl_xmax_fin.
  - eexists; split; [reflexivity|].
    change (foldl xmax (Fin a) (<[i := NInf]> (map Fin (b :: r)))
            =x= Fin (foldl Qmax a (delete i (b :: r)))).
    apply foldl_xmax_masked.
Qed.

Lemma diag_from_inj k (m : list (list Q)) :
  (forall i r, m !! i = Some r -> (k + i < length r)%nat) ->
  diag_from k (Spec.inj m) = imap (fun i r => Fin (default 0 (r !! (k + i)%nat))) m.
Proof.
  revert k. induction m as [|r m IH]; intros k Hlen; [done|].
  cbn [Spec.inj map diag_from imap].
  pose proof (Hlen 0%nat r eq_refl) as Hr. rewrite Nat.add_0_r in Hr.
  apply lookup_lt_is_Some_2 in Hr as [a Ha].
  rewrite list_lookup_fmap, Nat.add_0_r, Ha. cbn. f_equal.
  change (map (map Fin) m) with (Spec.inj m). rewrite IH.
  - apply imap_ext. intros i x _. cbn. by rewrite Nat.add_succ_r.
  - intros i r' Hi. specialize (Hlen (S i) r' Hi). lia.
Qed.

Lemma max_dim1_masked k (m : list (list Q)) :
  Forall (fun r => (2 <= length r)%nat) m ->
  exists negs,
    max_dim1 (imap (fun i row => <[(k + i)%nat := NInf]> row) (Spec.inj m)) = Ok negs
    /\ Forall2 xeq negs
         (imap (fun i r => Fin (Spec.qmax_list (delete (k + i)%nat r))) m).
Proof.
  revert k. induction m as [|r m IH]; intros k Hlen.
  - exists []. split; [done|constructor].
  - apply Forall_cons in Hlen as [Hr Hm].
    destruct (row_max_masked r (k + 0) Hr) as (v & Hv & Ev).
    destruct (IH (S k) Hm) as (negs & Hn & En).
    exists (v :: negs). split.
    + unfold max_dim1 in *. cbn [Spec.inj map imap rmapM]. rewrite Hv. cbn [rbind].
      change (map (map Fin) m) with (Spec.inj m).
      erewrite imap_ext; [rewrite Hn; done|].
      intros i x _. cbn. by rewrite Nat.add_succ_r.
    + cbn [imap]. constructor; [done|].
      erewrite imap_ext; [exact En|].
      intros i x _. cbn. by rewrite Nat.add_succ_r.
Qed.

Lemma MarginRankingLoss_same_length margin (p n : vec) :
  length p = length n ->
  MarginRankingLoss margin p n (ones_like p)
  = Ok (vmean (zip_with (hinge_term margin) p n)).
Proof.
  intros Hlen. unfold MarginRankingLoss, broadcast2.
  rewrite decide_True by done. cbn [rbind].
  rewrite decide_True.
  2:{ unfold ones_like. rewrite !length_map, length_zip_with. lia. }
  cbn [rbind]. f_equal. f_equal.
  revert n Hlen. induction p as [|a p IH]; intros [|b n] Hlen; simplify_eq/=; [done|].
  f_equal. by apply IH.
Qed.

Lemma clamp_min0_fin x : clamp_min0 (Fin x) =x= Fin (Qmax 0 x).
Proof.
  simpl. destruct (Qle_bool x 0) eqn:E; simpl.
  - apply Qle_bool_iff in E. symmetry. by apply Q.max_l.
  - symmetry. apply Q.max_r. apply Qlt_le_weak, Qnot_le_lt.
    intros Hle. apply Qle_bool_iff in Hle. congruence.
Qed.

Lemma hinge_term_fin m p n :
  hinge_term (Fin m) (Fin p) (Fin n) =x= Fin (Spec.hinge m p n).
Proof.
  unfold hinge_term, Spec.hinge. cbn [xneg xsub xadd xmul].
  etrans; [apply clamp_min0_fin|]. simpl.
  apply Q.max_compat; [reflexivity|]. ring.
Qed.

#[global] Instance hinge_term_proper : Proper (xeq ==> xeq ==> xeq ==> xeq) hinge_term.
Proof. intros m m' Hm p p' Hp n n' Hn. unfold hinge_term. by rewrite Hm, Hp, Hn. Qed.

Lemma foldl_xadd_proper a a' u v :
  a =x= a' -> Forall2 xeq u v -> foldl xadd a u =x= foldl xadd a' v.
Proof.
  intros Ha Huv. revert a a' Ha. induction Huv as [|x y u v Hxy _ IH]; intros a a' Ha; [done|].
  cbn. apply IH. by rewrite Ha, Hxy.
Qed.

Lemma foldl_xadd_fin a l :
  foldl xadd (Fin a) (map Fin l) =x= Fin (a + Spec.qsum l).
Proof.
  revert a. induction l as [|b l IH]; intros a; cbn [map foldl xadd].
  - unfold Spec.qsum. cbn [xeq foldr]. ring.
  - etrans; [apply IH|]. unfold Spec.qsum. cbn [xeq foldr]. ring.
Qed.

Lemma vsum_fin l : vsum (map Fin l) =x= Fin (Spec.qsum l).
Proof. unfold vsum. etrans; [apply foldl_xadd_fin|]. cbn [xeq]. ring. Qed.

Lemma xdiv_of_nat s (n : nat) :
  (0 < n)%nat -> (Fin s / of_nat n)%X = Fin (s / inject_Z (Z.of_nat n)).
Proof.
  intros Hn. unfold of_nat. cbn [xdiv].
  assert (0 < inject_Z (Z.of_nat n)) as Hpos.
  { change 0 with (inject_Z 0). rewrite <- Zlt_Qlt. lia. }
  apply Qgt_alt in Hpos. by rewrite Hpos.
Qed.

Lemma vmean_fin (v : vec) (l : list Q) :
  (0 < length l)%nat -> Forall2 xeq v (map Fin l) ->
  vmean v =x= Fin (Spec.qsum l / inject_Z (Z.of_nat (length l))).
Proof.
  intros Hl Hv. unfold vmean.
  assert (length v = length l) as ->.
  { apply Forall2_length in Hv. by rewrite length_map in Hv. }
  rewrite <- xdiv_of_nat by done.
  apply xdiv_proper; [|reflexivity].
  etrans; [|apply vsum_fin]. unfold vsum. by apply foldl_xadd_proper.
Qed.

Lemma map_seq_imap {A B} (F : nat -> option A -> B) (l : list A) :
  map (fun i => F i (l !! i)) (seq 0 (length l)) = imap (fun i a => F i (Some a)) l.
Proof.
  apply list_eq. intros i.
  rewrite list_lookup_fmap, list_lookup_imap.
  destruct (l !! i) as [a|] eqn:Hi.
  - rewrite lookup_seq_lt by (by eapply lookup_lt_Some). cbn. by rewrite Hi.
  - rewrite lookup_seq_ge by (by apply lookup_ge_None). done.
Qed.

Lemma zip_with_imap {A B C D} (g : B -> C -> D) (p : nat -> A -> B) (n : nat -> A -> C)
    (l : list A) :
  zip_with g (imap p l) (imap n l) = imap (fun i a => g (p i a) (n i a)) l.
Proof.
  revert p n. induction l as [|a l IH]; intros p n; [done|].
  cbn. f_equal. apply IH.
Qed.

Lemma hinge_terms_fin margin (ps ns : list Q) (negs : vec) :
  Forall2 xeq negs (map Fin ns) ->
  Forall2 xeq (zip_with (hinge_term (Fin margin)) (map Fin ps) negs)
              (map Fin (zip_with (Spec.hinge margin) ps ns)).
Proof.
  intros Hn. revert ps negs Hn.
  induction ns as [|n ns IH]; intros ps negs Hn.
  - apply Forall2_nil_inv_r in Hn as ->. destruct ps; cbn; constructor.
  - apply Forall2_cons_inv_r in Hn as (v & negs' & Hv & Hn & ->).
    destruct ps as [|p ps]; cbn; constructor.
    + rewrite Hv. apply hinge_term_fin.
    + by apply IH.
Qed.

Lemma imap_fmap_Fin {A} (f : nat -> A -> Q) (l : list A) :
  imap (fun i a => Fin (f i a)) l = map Fin (imap f l).
Proof.
  revert f. induction l as [|a l IH]; intros f; [done|].
  cbn. f_equal. apply IH.
Qed.

(** The specification's vectors, row by row. *)
Lemma spec_pos_imap (m : list (list Q)) :
  map (Spec.pos m) (seq 0 (length m)) = imap (fun i r => default 0 (r !! i)) m.
Proof.
  unfold Spec.pos, Spec.entry.
  etrans; [apply (map_seq_imap (fun i o => default 0 (o ≫= (.!! i))))|]. done.
Qed.

Lemma spec_neg_imap (m : list (list Q)) :
  map (Spec.neg m) (seq 0 (length m)) = imap (fun i r => Spec.qmax_list (delete i r)) m.
Proof.
  unfold Spec.neg.
  etrans; [apply (map_seq_imap (fun i o => Spec.qmax_list (delete i (default [] o))))|].
  done.
Qed.

Lemma spec_hinge_imap margin (m : list (list Q)) :
  map (fun i => Spec.hinge margin (Spec.pos m i) (Spec.neg m i)) (seq 0 (length m))
  = zip_with (Spec.hinge margin)
      (imap (fun i r => default 0 (r !! i)) m)
      (imap (fun i r => Spec.qmax_list (delete i r)) m).
Proof.
  rewrite <- spec_pos_imap, <- spec_neg_imap.
  generalize (seq 0 (length m)). intros l. induction l as [|i l IH]; [done|].
  cbn. by f_equal.
Qed.

End RankingFacts.

(** ** The distillation term and the combined loss *)

Section DistillFacts.
Context `{Elementary}.

(** What one batch step computes, read off [compose_loss]. *)
Lemma compose_loss_inv loss_fn alpha temperature teacher_scores student_scores l :
  compose_loss loss_fn alpha temperature teacher_scores student_scores = Ok l ->
  positive_scores l = diag student_scores
  /\ student_scores_masked l = fill_diagonal_ NInf student_scores
  /\ max_dim1 (fill_diagonal_ NInf student_scores) = Ok (negative_scores l)
  /\ loss_fn (positive_scores l) (negative_scores l) (ones_like (positive_scores l))
     = Ok (ranking_loss l)
  /\ teacher_log_probs l = log_softmax (div_scalar teacher_scores temperature)
  /\ student_log_probs l
     = log_softmax (div_scalar (fill_diagonal_ NInf student_scores) temperature)
  /\ distillation_loss l
     = KLDivLoss_batchmean (student_log_probs l) (teacher_log_probs l)
  /\ loss l = combined_loss alpha (ranking_loss l) (distillation_loss l).
Proof.
  unfold compose_loss. intros Hc.
  destruct (max_dim1 (fill_diagonal_ NInf student_scores)) as [negs|] eqn:Hn; [|done].
  cbn [rbind] in Hc.
  destruct (loss_fn _ _ _) as [rl|] eqn:Hr; [|done].
  cbn [rbind] in Hc. injection Hc as <-.
  repeat split; try reflexivity. exact Hr.
Qed.

Lemma vsum_cons_finite a v : is_finite (vsum (a :: v)) = true -> is_finite a = true.
Proof. intros Hf%vsum_finite. by apply Forall_cons in Hf as [? _]. Qed.

Lemma log_softmax_row_head x row :
  exists y ys, log_softmax_row (x :: row) = y :: ys
               /\ (is_finite y = true -> is_finite x = true).
Proof.
  cbn [log_softmax_row map]. eexists _, _. split; [reflexivity|].
  intros [[? _]%xsub_finite _]%xsub_finite. done.
Qed.

(** The masked diagonal entry of the first row makes the distillation
    term of the batch step non-finite, whatever the scores are. *)
Lemma distillation_not_finite temperature (a b : xreal) (r r' : vec) (S' T' : mat) :
  is_finite
    (KLDivLoss_batchmean
       (log_softmax (div_scalar (fill_diagonal_ NInf ((a :: r) :: S')) temperature))
       (log_softmax (div_scalar ((b :: r') :: T') temperature))) = false.
Proof.
  apply not_true_is_false. intros Hf.
  unfold KLDivLoss_batchmean in Hf. apply xdiv_finite in Hf.
  cbn [fill_diagonal_ imap div_scalar map log_softmax] in Hf.
  change (<[0%nat:=NInf]> (a :: r)) with (NInf :: r) in Hf. cbn [map] in Hf.
  destruct (log_softmax_row_head (NInf / temperature)%X
              (map (fun a => (a / temperature)%X) r)) as (y & ys & Hrow & Hy).
  destruct (log_softmax_row_head (b / temperature)%X
              (map (fun a => (a / temperature)%X) r')) as (t & ts & Hrow' & _).
  rewrite Hrow, Hrow' in Hf. cbn [zip_with concat app] in Hf.
  apply vsum_cons_finite in Hf. unfold kl_pointwise in Hf.
  apply xsub_finite in Hf as [_ Hf]. apply xmul_finite in Hf as [_ Hf].
  apply Hy, xdiv_finite in Hf. done.
Qed.

Lemma combined_loss_not_finite alpha rl dl :
  is_finite dl = false -> is_finite (combined_loss alpha rl dl) = false.
Proof.
  intros Hd. apply not_true_is_false. intros Hf. unfold combined_loss in Hf.
  apply xadd_finite in Hf as [_ Hf]. apply xmul_finite in Hf as [_ Hf]. congruence.
Qed.

(** Every batch step of [train] has a non-finite combined loss. *)
Lemma train_loss_not_finite loss_fn alpha temperature a b r r' S' T' l :
  compose_loss loss_fn alpha temperature ((b :: r') :: T') ((a :: r) :: S') = Ok l ->
  is_finite (distillation_loss l) = false /\ is_finite (loss l) = false.
Proof.
  intros (_ & _ & _ & _ & Ht & Hs & Hd & Hl)%compose_loss_inv.
  assert (is_finite (distillation_loss l) = false) as Hnf.
  { rewrite Hd, Hs, Ht. apply distillation_not_finite. }
  split; [done|]. rewrite Hl. by apply combined_loss_not_finite.
Qed.

End DistillFacts.

(** ** Running computations *)

Section MonadFacts.

Lemma bind_ok {A B} (c : M A) (k : A -> M B) w w1 a :
  c w = (w1, Ok a) -> (c ≫= k) w = k a w1.
Proof. intros Hc. unfold mbind, M_bind, m_bind. by rewrite Hc. Qed.

Lemma bind_ext {A B} (c c' : M A) (k k' : A -> M B) w :
  c w = c' w -> (forall a w, k a w = k' a w) -> (c ≫= k) w = (c' ≫= k') w.
Proof.
  intros Ec Ek. unfold mbind, M_bind, m_bind. rewrite Ec.
  destruct (c' w) as [w1 [a|e]]; [apply Ek|done].
Qed.

Lemma lift_bind {A B} (r : result A) (k : A -> M B) w :
  (lift r ≫= k) w = match r with Ok a => k a w | Raise e => (w, Raise e) end.
Proof. unfold mbind, M_bind, m_bind, lift. by destruct r. Qed.

Lemma foldM_cons_ok {A St} (body : St -> A -> M St) a l s w w1 s1 :
  body s a w = (w1, Ok s1) -> foldM body (a :: l) s w = foldM body l s1 w1.
Proof. intros Hb. cbn [foldM]. unfold m_bind. by rewrite Hb. Qed.

Lemma foldM_cons_raise {A St} (body : St -> A -> M St) a l s w w1 e :
  body s a w = (w1, Raise e) -> foldM body (a :: l) s w = (w1, Raise e).
Proof. intros Hb. cbn [foldM]. unfold m_bind. by rewrite Hb. Qed.

Lemma foldM_ext {A St} (body body' : St -> A -> M St) l s w :
  (forall s a w, body s a w = body' s a w) -> foldM body l s w = foldM body' l s w.
Proof.
  intros E. revert s w. induction l as [|a l IH]; intros s w; [done|].
  cbn [foldM]. unfold m_bind. rewrite E.
  destruct (body' s a w) as [w1 [s1|e]]; [apply IH|done].
Qed.

Lemma with_trace_nil w : with_trace (fun t => t ++ []) w = w.
Proof. destruct w. unfold with_trace. cbn. by rewrite app_nil_r. Qed.

End MonadFacts.

(** ** The optimizer step touches the parameter group only *)

Section OptimizerFacts.
Context `{Autograd}.

Lemma step_param_frame lr w p :
  param_group (optimizer (step_param lr w p)) = param_group (optimizer w)
  /\ group_lr (optimizer (step_param lr w p)) = group_lr (optimizer w)
  /\ scheduler (step_param lr w p) = scheduler w
  /\ trace (step_param lr w p) = trace w
  /\ stdout (step_param lr w p) = stdout w
  /\ forall p', p' <> p -> params (step_param lr w p) !! p' = params w !! p'.
Proof.
  unfold step_param. destruct (grads w !! p), (params w !! p); try done.
  destruct (adamw_update _ _ _ _) as [v' s']. cbn.
  repeat split. intros p' Hp. by rewrite lookup_insert_ne.
Qed.

Lemma foldl_step_param_frame lr ps w :
  param_group (optimizer (foldl (step_param lr) w ps)) = param_group (optimizer w)
  /\ group_lr (optimizer (foldl (step_param lr) w ps)) = group_lr (optimizer w)
  /\ scheduler (foldl (step_param lr) w ps) = scheduler w
  /\ trace (foldl (step_param lr) w ps) = trace w
  /\ stdout (foldl (step_param lr) w ps) = stdout w
  /\ forall p', p' ∉ ps -> params (foldl (step_param lr) w ps) !! p' = params w !! p'.
Proof.
  revert w. induction ps as [|p ps IH]; intros w; [done|].
  cbn [foldl]. destruct (IH (step_param lr w p)) as (Hg & Hl & Hs & Ht & Ho & Hp).
  destruct (step_param_frame lr w p) as (Hg' & Hl' & Hs' & Ht' & Ho' & Hp').
  repeat split; try congruence.
  intros p' Hin. apply not_elem_of_cons in Hin as [Hne Hin].
  rewrite Hp, Hp'; done.
Qed.

Lemma scheduler_foldl_step_param lr ps w :
  scheduler (foldl (step_param lr) w ps) = scheduler w.
Proof. apply foldl_step_param_frame. Qed.

Lemma trace_foldl_step_param lr ps w : trace (foldl (step_param lr) w ps) = trace w.
Proof. apply foldl_step_param_frame. Qed.

Lemma stdout_foldl_step_param lr ps w : stdout (foldl (step_param lr) w ps) = stdout w.
Proof. apply foldl_step_param_frame. Qed.

End OptimizerFacts.

(** ** One batch step of [train] *)

Section StepFacts.
Context `{Elementary} `{Autograd} `{RandomGen}.

(** A batch step whose forward passes and loss functions return runs
    to its end: there is no test on the loss. *)
Lemma train_batch_ok model teacher_model loss_fn alpha temperature total batch w
    teacher_scores q1 d1 student_scores q2 d2 l :
  forward_scores teacher_model (params w) (mode_of w teacher_model)
    (query_inputs batch) (doc_inputs batch) = Ok (teacher_scores, q1, d1) ->
  forward_scores model (params w) (mode_of w model) q1 d1 = Ok (student_scores, q2, d2) ->
  compose_loss loss_fn alpha temperature teacher_scores student_scores = Ok l ->
  grad_enabled w = true ->
  parameters model <> [] ->
  exists w',
    train_batch model teacher_model loss_fn alpha temperature total batch w
      = (w', Ok (total + loss l)%X)
    /\ trace w' = trace w ++
         [EvForward (model_id teacher_model) false (mode_of w teacher_model);
          EvForward (model_id model) true (mode_of w model);
          EvZeroGrad; EvBackward (loss l);
          EvOptimizerStep (group_lr (optimizer w));
          EvSchedulerStep (S (last_epoch (scheduler w)))]
    /\ stdout w' = stdout w.
Proof.
  intros Ht Hs Hc Hg Hp. unfold train_batch. unfold mode_of in *.
  destruct (parameters model) as [|p0 ps] eqn:E; [done|].
  erewrite bind_ok.
  2:{ unfold no_grad, forward, mode_of. cbn. rewrite Ht. reflexivity. }
  cbn beta iota.
  erewrite bind_ok.
  2:{ unfold forward, mode_of. cbn. rewrite Hs, Hg, E. reflexivity. }
  cbn beta iota.
  erewrite bind_ok; [|unfold lift; rewrite Hc; reflexivity].
  erewrite bind_ok; [|reflexivity].
  erewrite bind_ok; [|reflexivity].
  erewrite bind_ok; [|unfold backward; reflexivity].
  erewrite bind_ok; [|reflexivity].
  erewrite bind_ok; [|reflexivity].
  eexists. split; [reflexivity|].
  cbn. rewrite !trace_foldl_step_param, stdout_foldl_step_param,
    scheduler_foldl_step_param. cbn.
  rewrite <- !app_assoc. done.
Qed.

(** The loss of a 1 x 1 batch: the only entry of the row is masked. *)
Lemma compose_loss_one_by_one alpha temperature t s :
  exists l,
    compose_loss (MarginRankingLoss (Fin 1)) alpha temperature [[t]] [[Fin s]] = Ok l
    /\ positive_scores l = [Fin s] /\ negative_scores l = [NInf]
    /\ ranking_loss l = Fin 0.
Proof. eexists. split; [reflexivity|]. repeat split; vm_compute; reflexivity. Qed.

End StepFacts.

(** ** Degenerate batches and non-finite losses *)

Section BatchTheorems.
Context `{Elementary} `{Autograd} `{RandomGen}.



(** C1. On identical 2 x 2 teacher and student scores the distillation
    term of the batch step is computed from the student matrix whose
    diagonal has been overwritten with -inf: the student
    log-probabilities on the diagonal are not finite and neither is the
    distillation term. *)
Theorem distillation_reads_masked_student_scores :
  let scores := [[Fin 5; Fin 0]; [Fin 0; Fin 5]] in
  exists l,
    compose_loss (MarginRankingLoss (Fin 1)) (Fin (1 # 2)) (Fin 2) scores scores = Ok l
    /\ student_scores_masked l = [[NInf; Fin 0]; [Fin 0; NInf]]
    /\ teacher_log_probs l = log_softmax (div_scalar scores (Fin 2))
    /\ student_log_probs l
       = log_softmax (div_scalar [[NInf; Fin 0]; [Fin 0; NInf]] (Fin 2))
    /\ (exists y0 y1 z0 z1,
          student_log_probs l = [[y0; z0]; [z1; y1]]
          /\ is_finite y0 = false /\ is_finite y1 = false)
    /\ is_finite (distillation_loss l) = false.
Proof.
  intros scores. eexists. split; [reflexivity|].
  split; [reflexivity|]. split; [reflexivity|]. split; [reflexivity|]. split.
  - eexists _, _, _, _. split; [reflexivity|]. split.
    + apply not_true_is_false. intros [[Hf _]%xsub_finite _]%xsub_finite. done.
    + apply not_true_is_false. intros [[Hf _]%xsub_finite _]%xsub_finite. done.
  - apply (distillation_not_finite (Fin 2) (Fin 5) (Fin 5) [Fin 0] [Fin 0]
             [[Fin 0; Fin 5]] [[Fin 0; Fin 5]]).
Qed.


End BatchTheorems.

(** ** Relations preserved by the training loop *)

Section Steps.
Context (R : relation World) `{!PreOrder R}.

Lemma steps_ret {A} (a : A) : steps R (mret a).
Proof. intros w. cbn. reflexivity. Qed.

Lemma steps_lift {A} (r : result A) : steps R (lift r).
Proof. intros w. cbn. reflexivity. Qed.

Lemma steps_gets {A} (f : World -> A) : steps R (gets f).
Proof. intros w. cbn. reflexivity. Qed.

Lemma steps_modify (f : World -> World) : (forall w, R w (f w)) -> steps R (modify f).
Proof. intros Hf w. cbn. apply Hf. Qed.

Lemma steps_bind {A B} (c : M A) (k : A -> M B) :
  steps R c -> (forall a, steps R (k a)) -> steps R (c ≫= k).
Proof.
  intros Hc Hk w. unfold mbind, M_bind, m_bind.
  specialize (Hc w). destruct (c w) as [w1 [a|e]]; cbn in *; [|done].
  etrans; [exact Hc|]. apply Hk.
Qed.

Lemma steps_foldM {A St} (body : St -> A -> M St) (l : list A) (s : St) :
  (forall s a, steps R (body s a)) -> steps R (foldM body l s).
Proof.
  intros Hb. revert s. induction l as [|a l IH]; intros s.
  - intros w. cbn. reflexivity.
  - cbn [foldM]. apply (steps_bind (body s a) (foldM body l)); [apply Hb|apply IH].
Qed.

Lemma steps_no_grad {A} (body : M A) :
  (forall w b, R w (with_grad_enabled b w)) -> steps R body -> steps R (no_grad body).
Proof.
  intros Hg Hb w. unfold no_grad.
  specialize (Hb (with_grad_enabled false w)).
  destruct (body (with_grad_enabled false w)) as [w1 r]; cbn in *.
  etrans; [apply (Hg w false)|]. etrans; [exact Hb|]. apply Hg.
Qed.

Lemma steps_mkDataLoader ds bs sh : steps R (mkDataLoader ds bs sh).
Proof. destruct bs; [apply steps_lift|apply steps_ret]. Qed.

Lemma steps_iter_indices `{RandomGen} dl :
  (forall w f, R w (with_rng f w)) -> steps R (iter_indices dl).
Proof.
  intros Hr. unfold iter_indices. destruct (dl_shuffle dl); [|apply steps_ret].
  intros w. cbn. apply Hr.
Qed.

Lemma steps_for_batches `{RandomGen} {St} dl (body : St -> Batch -> M St) s0 :
  (forall w f, R w (with_rng f w)) ->
  (forall s b, steps R (body s b)) -> steps R (for_batches dl body s0).
Proof.
  intros Hr Hb. unfold for_batches.
  apply steps_bind; [by apply steps_iter_indices|]. intros idx.
  apply steps_foldM. intros s chunk. unfold with_batch.
  apply steps_bind; [apply steps_lift|]. intros b. apply Hb.
Qed.
End Steps.

(** Relations that every primitive of the training loop respects are
    respected by the loop. *)
Section Loop.
Context `{Elementary} `{Autograd} `{RandomGen}.
Context (R : relation World) `{!PreOrder R}.
Context (model teacher_model : DualEncoderModel).
Hypothesis R_grad : forall w b, R w (with_grad_enabled b w).
Hypothesis R_rng : forall w f, R w (with_rng f w).
Hypothesis R_training : forall w f, R w (with_training f w).
Hypothesis R_stdout : forall w f, R w (with_stdout f w).
Hypothesis R_student : forall q d, steps R (forward model q d).
Hypothesis R_teacher : forall q d, steps R (no_grad (forward teacher_model q d)).
Hypothesis R_zero_grad : steps R zero_grad.
Hypothesis R_backward : forall l leaves ctx, steps R (backward l leaves ctx).
Hypothesis R_update : forall a : xreal,
  steps R (optimizer_step ≫= fun _ => scheduler_step ≫= fun _ => mret a).

Lemma steps_train_batch loss_fn alpha temperature total batch :
  steps R (train_batch model teacher_model loss_fn alpha temperature total batch).
Proof.
  unfold train_batch.
  apply steps_bind; [done|apply R_teacher|]. intros [[[teacher_scores tl] q1] d1].
  apply steps_bind; [done|apply R_student|]. intros [[[student_scores leaves] q2] d2].
  apply steps_bind; [done|by apply steps_lift|]. intros lo.
  apply steps_bind; [done|apply R_zero_grad|]. intros _.
  apply steps_bind; [done|by apply steps_gets|]. intros theta.
  apply steps_bind; [done|apply R_backward|]. intros _.
  apply R_update.
Qed.

Lemma steps_evaluate_batch loss_fn total batch :
  steps R (evaluate_batch model loss_fn total batch).
Proof.
  unfold evaluate_batch.
  apply steps_bind; [done|apply R_student|]. intros [[[scores ?] ?] ?].
  apply steps_bind; [done|by apply steps_lift|]. intros negs.
  apply steps_bind; [done|by apply steps_lift|]. intros lo.
  by apply steps_ret.
Qed.

Lemma steps_set_mode m b : steps R (set_mode m b).
Proof. apply steps_modify. intros w. apply R_training. Qed.

Lemma steps_print l : steps R (print l).
Proof. apply steps_modify. intros w. apply R_stdout. Qed.

Lemma steps_evaluate val_loader loss_fn : steps R (evaluate model val_loader loss_fn).
Proof.
  unfold evaluate.
  apply steps_bind; [done|apply steps_set_mode|]. intros _.
  apply steps_bind; [done| |].
  { apply steps_no_grad; [done..|]. apply steps_for_batches; [done..|].
    intros s b. apply steps_evaluate_batch. }
  intros total.
  apply steps_bind; [done|by apply steps_lift|]. intros avg.
  apply steps_print.
Qed.

Lemma steps_train_epoch train_loader val_loader loss_fn epochs alpha temperature u epoch :
  steps R (train_epoch model teacher_model train_loader val_loader loss_fn
             epochs alpha temperature u epoch).
Proof.
  unfold train_epoch.
  apply steps_bind; [done|apply steps_set_mode|]. intros _.
  apply steps_bind; [done|apply steps_set_mode|]. intros _.
  apply steps_bind; [done| |].
  { apply steps_for_batches; [done..|]. intros s b. apply steps_train_batch. }
  intros total.
  apply steps_bind; [done|by apply steps_lift|]. intros avg.
  apply steps_bind; [done|apply steps_print|]. intros _.
  apply steps_evaluate.
Qed.

Lemma steps_epochs train_loader val_loader loss_fn epochs alpha temperature l :
  steps R (foldM (train_epoch model teacher_model train_loader val_loader loss_fn
                    epochs alpha temperature) l tt).
Proof. apply steps_foldM; [done|]. intros s a. apply steps_train_epoch. Qed.
End Loop.

(** ** The teacher is frozen *)

Section Frozen.
Context `{Elementary} `{Autograd} `{RandomGen}.
Context (tid : positive).

#[global] Instance frozen_preorder : PreOrder (frozen tid).
Proof.
  split.
  - intros w. split; [done|]. split; [done|]. exists []. by rewrite app_nil_r.
  - intros w1 w2 w3 (Hg1 & Hp1 & evs1 & Ht1 & Hf1) (Hg2 & Hp2 & evs2 & Ht2 & Hf2).
    split; [congruence|]. split.
    + intros p Hp. rewrite Hp2, Hp1; [done..|]. by rewrite Hg1.
    + exists (evs1 ++ evs2). rewrite Ht2, Ht1, app_assoc. split; [done|].
      by apply Forall_app.
Qed.

Lemma frozen_events w w' evs :
  param_group (optimizer w') = param_group (optimizer w) -> params w' = params w ->
  trace w' = trace w ++ evs -> Forall (teacher_nograd tid) evs ->
  frozen tid w w'.
Proof.
  intros Ho Hp Ht Hf. split; [done|]. split; [by rewrite Hp|]. by exists evs.
Qed.

Lemma frozen_silent w w' :
  param_group (optimizer w') = param_group (optimizer w) ->
  params w' = params w -> trace w' = trace w ->
  frozen tid w w'.
Proof.
  intros Ho Hp Ht. apply (frozen_events w w' []); [done..| |constructor].
  by rewrite app_nil_r.
Qed.

Lemma frozen_forward_student m q d :
  model_id m <> tid -> steps (frozen tid) (forward m q d).
Proof.
  intros Hm w. unfold forward.
  destruct (forward_scores _ _ _ _ _) as [[[? ?] ?]|]; cbn;
    (eapply frozen_events; [reflexivity..|]);
    (constructor; [|constructor]); intros ?; done.
Qed.

Lemma frozen_forward_teacher m q d :
  steps (frozen tid) (no_grad (forward m q d)).
Proof.
  intros w. unfold no_grad, forward. cbn.
  destruct (forward_scores _ _ _ _ _) as [[[? ?] ?]|]; cbn;
    (eapply frozen_events; [reflexivity..|]);
    (constructor; [|constructor]); intros ?; done.
Qed.

Lemma frozen_zero_grad : steps (frozen tid) zero_grad.
Proof.
  intros w. cbn. eapply frozen_events; [reflexivity..|]. by repeat constructor.
Qed.

Lemma frozen_backward l leaves ctx : steps (frozen tid) (backward l leaves ctx).
Proof.
  intros w. unfold backward. destruct leaves; cbn; [reflexivity|].
  eapply frozen_events; [reflexivity..|]. by repeat constructor.
Qed.

Lemma frozen_optimizer_step : steps (frozen tid) optimizer_step.
Proof.
  intros w. cbn.
  destruct (foldl_step_param_frame (group_lr (optimizer w))
              (param_group (optimizer w))
              (with_trace (fun t => t ++ [EvOptimizerStep (group_lr (optimizer w))]) w))
    as (Hg & _ & _ & Ht & _ & Hp).
  split; [exact Hg|]. split; [exact Hp|].
  eexists. split; [exact Ht|]. by repeat constructor.
Qed.

Lemma frozen_scheduler_step : steps (frozen tid) scheduler_step.
Proof.
  intros w. cbn. split; [done|]. split; [done|].
  eexists. split; [reflexivity|]. by repeat constructor.
Qed.

Lemma frozen_update (a : xreal) :
  steps (frozen tid) (optimizer_step ≫= fun _ => scheduler_step ≫= fun _ => mret a).
Proof.
  apply steps_bind; [apply _|apply frozen_optimizer_step|]. intros _.
  apply steps_bind; [apply _|apply frozen_scheduler_step|]. intros _.
  apply steps_ret, _.
Qed.

End Frozen.

Section TeacherFrozen.
Context `{Elementary} `{Autograd} `{RandomGen}.

(** C7. The teacher's parameters are the same after [train] as before,
    the optimizer is built over the student's parameters only, and every
    forward pass of the teacher runs with gradients disabled. *)
Theorem teacher_parameters_frozen (model teacher_model : DualEncoderModel)
    tokenizer train_dataset val_dataset epochs batch_size learning_rate max_length
    alpha temperature (w : World) :
  model_id model <> model_id teacher_model ->
  (forall p, p ∈ parameters teacher_model -> p ∉ parameters model) ->
  let w' := (train model teacher_model tokenizer train_dataset val_dataset epochs
               batch_size learning_rate max_length alpha temperature w).1 in
  (forall p, p ∈ parameters teacher_model -> params w' !! p = params w !! p)
  /\ (batch_size <> 0%nat -> param_group (optimizer w') = parameters model)
  /\ exists evs, trace w' = trace w ++ evs /\ Forall (teacher_nograd (model_id teacher_model)) evs.
Proof.
  intros Hmid Hdisj. set (tid := model_id teacher_model). unfold train.
  destruct batch_size as [|bs].
  { cbn. split; [done|]. split; [done|]. exists []. by rewrite app_nil_r. }
  cbn [mkDataLoader]. cbn zeta. 
  set (tl := {| dl_dataset := train_dataset; dl_batch_size := S bs; dl_shuffle := true |}).
  set (vl := {| dl_dataset := val_dataset; dl_batch_size := S bs; dl_shuffle := false |}).
  set (w1 := with_optimizer (fun _ => {| param_group := parameters model;
                                        group_lr := learning_rate; opt_state := ∅ |}) w).
  assert (frozen tid w1
            ((get_linear_schedule_with_warmup 0 (len tl * epochs) ≫= fun _ =>
              foldM (train_epoch model teacher_model tl vl (MarginRankingLoss (Fin 1))
                       epochs alpha temperature) (seq 0 epochs) tt) w1).1) as Hfr.
  { refine (steps_bind (frozen tid) _ _ _ _ w1).
    - apply steps_modify. intros w0. cbn. by apply frozen_silent.
    - intros _. eapply steps_epochs; try apply _.
      + intros; by apply frozen_silent.
      + intros; by apply frozen_silent.
      + intros; by apply frozen_silent.
      + intros; by apply frozen_silent.
      + intros. by apply frozen_forward_student.
      + intros. apply frozen_forward_teacher.
      + apply frozen_zero_grad.
      + apply frozen_backward.
      + apply frozen_update. }
  destruct Hfr as (Hg & Hp & Hev).
  split; [|split].
  - intros p Hin. apply Hp. cbn. by apply Hdisj.
  - intros _. exact Hg.
  - exact Hev.
Qed.
End TeacherFrozen.

(** ** The learning-rate schedule *)

Section Chunks.
Context {A : Type}.

Lemma length_chunks_fuel (bs fuel : nat) (l : list A) :
  (0 < bs)%nat -> (length l <= fuel)%nat ->
  length (chunks_fuel fuel bs l) = ((length l + bs - 1) `div` bs)%nat.
Proof.
  intros Hbs. revert l. induction fuel as [|fuel IH]; intros l Hl.
  - destruct l; [|cbn in Hl; lia]. cbn. symmetry. apply Nat.div_small. lia.
  - destruct l as [|a l].
    + cbn. symmetry. apply Nat.div_small. lia.
    + cbn [chunks_fuel length]. rewrite IH.
      2:{ rewrite length_drop. cbn in *. lia. }
      rewrite length_drop. cbn [length].
      destruct (decide (bs <= S (length l))%nat) as [Hle|Hgt].
      * replace (S (length l) + bs - 1)%nat with ((S (length l) - bs + bs - 1) + 1 * bs)%nat by lia.
        rewrite Nat.div_add by lia. lia.
      * replace (S (length l) - bs)%nat with 0%nat by lia.
        rewrite (Nat.div_small (0 + bs - 1)) by lia.
        apply (Nat.div_unique _ _ 1 (length l)); lia.
Qed.

Lemma length_chunks (bs : nat) (l : list A) :
  (0 < bs)%nat -> length (chunks bs l) = ((length l + bs - 1) `div` bs)%nat.
Proof. intros. by apply length_chunks_fuel. Qed.
End Chunks.

Section Ticks.
Context `{Elementary} `{Autograd} `{RandomGen}.

Lemma ticks_ret {A} (a : A) : ticks 0 (mret a).
Proof. intros w w' x [= <- _]. lia. Qed.

Lemma ticks_lift {A} (r : result A) : ticks 0 (lift r).
Proof. intros w w' x [= <- _]. lia. Qed.

Lemma ticks_gets {A} (f : World -> A) : ticks 0 (gets f).
Proof. intros w w' x [= <- _]. lia. Qed.

Lemma ticks_modify (f : World -> World) :
  (forall w, scheduler (f w) = scheduler w) -> ticks 0 (modify f).
Proof. intros Hf w w' x [= <- _]. rewrite Hf. lia. Qed.

Lemma ticks_bind {A B} n m (c : M A) (k : A -> M B) :
  ticks n c -> (forall a, ticks m (k a)) -> ticks (n + m) (c ≫= k).
Proof.
  intros Hc Hk w w' b. unfold mbind, M_bind, m_bind.
  destruct (c w) as [w1 [a|e]] eqn:E; [|done].
  intros Hrun. apply Hk in Hrun. apply Hc in E. lia.
Qed.

Lemma ticks_foldM {A St} n (body : St -> A -> M St) (l : list A) (s : St) :
  (forall s a, ticks n (body s a)) -> ticks (length l * n) (foldM body l s).
Proof.
  intros Hb. revert s. induction l as [|a l IH]; intros s.
  - intros w w' x [= <- _]. cbn. lia.
  - cbn [foldM length]. replace (S (length l) * n)%nat with (n + length l * n)%nat by lia.
    apply (ticks_bind n (length l * n) (body s a) (foldM body l)); [apply Hb|apply IH].
Qed.

Lemma ticks_no_grad {A} n (body : M A) : ticks n body -> ticks n (no_grad body).
Proof.
  intros Hb w w' a. unfold no_grad.
  destruct (body (with_grad_enabled false w)) as [w1 r] eqn:E.
  intros [= <- ->]. apply Hb in E. cbn in *. done.
Qed.

Lemma ticks_forward m q d : ticks 0 (forward m q d).
Proof.
  intros w w' a. unfold forward.
  destruct (forward_scores _ _ _ _ _) as [[[? ?] ?]|]; intros [= <- _]; cbn; lia.
Qed.

Lemma ticks_backward l leaves ctx : ticks 0 (backward l leaves ctx).
Proof.
  unfold backward. destruct leaves; [by intros w w' a|].
  by apply ticks_modify.
Qed.

Lemma ticks_optimizer_step : ticks 0 optimizer_step.
Proof. apply ticks_modify. intros w. by rewrite scheduler_foldl_step_param. Qed.

Lemma ticks_scheduler_step : ticks 1 scheduler_step.
Proof. intros w w' a [= <- _]. cbn. lia. Qed.

Lemma ticks_train_batch model teacher_model loss_fn alpha temperature total batch :
  ticks 1 (train_batch model teacher_model loss_fn alpha temperature total batch).
Proof.
  unfold train_batch.
  apply (ticks_bind 0 1); [apply ticks_no_grad, ticks_forward|].
  intros [[[teacher_scores tl] q1] d1].
  apply (ticks_bind 0 1); [apply ticks_forward|].
  intros [[[student_scores leaves] q2] d2].
  apply (ticks_bind 0 1); [apply ticks_lift|]. intros lo.
  apply (ticks_bind 0 1); [by apply ticks_modify|]. intros _.
  apply (ticks_bind 0 1); [apply ticks_gets|]. intros theta.
  apply (ticks_bind 0 1); [apply ticks_backward|]. intros _.
  apply (ticks_bind 0 1); [apply ticks_optimizer_step|]. intros _.
  apply (ticks_bind 1 0); [apply ticks_scheduler_step|]. intros _.
  apply ticks_ret.
Qed.

Lemma ticks_evaluate_batch model loss_fn total batch :
  ticks 0 (evaluate_batch model loss_fn total batch).
Proof.
  unfold evaluate_batch.
  apply (ticks_bind 0 0); [apply ticks_forward|]. intros [[[scores ?] ?] ?].
  apply (ticks_bind 0 0); [apply ticks_lift|]. intros negs.
  apply (ticks_bind 0 0); [apply ticks_lift|]. intros lo.
  apply ticks_ret.
Qed.

Lemma ticks_for_batches {St} n dl (body : St -> Batch -> M St) s0 :
  (0 < dl_batch_size dl)%nat ->
  (forall s b, ticks n (body s b)) ->
  ticks (len dl * n) (for_batches dl body s0).
Proof.
  intros Hbs Hb w w' a. unfold for_batches, iter_indices.
  unfold mbind at 1, M_bind at 1, m_bind at 1.
  set (loop := fun idx => foldM (with_batch dl body) idx s0).
  assert (forall idx, ticks (length idx * n) (loop idx)) as Hloop.
  { intros idx. apply ticks_foldM. intros s chunk. unfold with_batch.
    apply (ticks_bind 0 n); [apply ticks_lift|]. intros b. apply Hb. }
  destruct (dl_shuffle dl); cbn.
  - intros Hrun. apply Hloop in Hrun. cbn in Hrun.
    rewrite length_chunks, randperm_length in Hrun by done. exact Hrun.
  - intros Hrun. apply Hloop in Hrun.
    rewrite length_chunks, length_seq in Hrun by done. exact Hrun.
Qed.

Lemma ticks_evaluate model val_loader loss_fn :
  ticks 0 (evaluate model val_loader loss_fn).
Proof.
  unfold evaluate.
  apply (ticks_bind 0 0); [by apply ticks_modify|]. intros _.
  apply (ticks_bind 0 0).
  { apply ticks_no_grad. intros w w' a Hrun.
    unfold for_batches, iter_indices in Hrun.
    unfold mbind at 1, M_bind at 1, m_bind at 1 in Hrun.
    assert (forall idx s0, ticks (length idx * 0)
              (foldM (with_batch val_loader (evaluate_batch model loss_fn)) idx s0)) as Hloop.
    { intros idx s0. apply ticks_foldM. intros s chunk. unfold with_batch.
      apply (ticks_bind 0 0); [apply ticks_lift|]. intros b.
      apply ticks_evaluate_batch. }
    destruct (dl_shuffle val_loader); cbn in Hrun; apply Hloop in Hrun; cbn in Hrun; lia. }
  intros total.
  apply (ticks_bind 0 0); [apply ticks_lift|]. intros avg.
  by apply ticks_modify.
Qed.

Lemma ticks_train_epoch model teacher_model train_loader val_loader loss_fn
    epochs alpha temperature u epoch :
  (0 < dl_batch_size train_loader)%nat ->
  ticks (len train_loader)
    (train_epoch model teacher_model train_loader val_loader loss_fn
       epochs alpha temperature u epoch).
Proof.
  intros Hbs. unfold train_epoch.
  apply (ticks_bind 0 (len train_loader)); [by apply ticks_modify|]. intros _.
  apply (ticks_bind 0 (len train_loader)); [by apply ticks_modify|]. intros _.
  replace (len train_loader) with (len train_loader * 1 + 0)%nat at 1 by lia.
  apply ticks_bind.
  { apply ticks_for_batches; [done|]. intros s b. apply ticks_train_batch. }
  intros total.
  apply (ticks_bind 0 0); [apply ticks_lift|]. intros avg.
  apply (ticks_bind 0 0); [by apply ticks_modify|]. intros _.
  apply ticks_evaluate.
Qed.
End Ticks.

Section Scheduled.
Context `{Elementary} `{Autograd} `{RandomGen}.
Context (lr0 : xreal) (total : nat).

Lemma step_pairs_app k evs k' evs' k'' :
  step_pairs lr0 total k evs k' -> step_pairs lr0 total k' evs' k'' ->
  step_pairs lr0 total k (evs ++ evs') k''.
Proof.
  induction 1 as [k|k evs k' _ IH|k ev evs k' Hev _ IH]; intros Hs; cbn.
  - done.
  - apply sp_pair. by apply IH.
  - apply sp_other; [done|]. by apply IH.
Qed.

#[global] Instance scheduled_preorder : PreOrder (scheduled lr0 total).
Proof.
  split.
  - intros w Hi. split; [done|]. exists []. rewrite app_nil_r. split; [done|constructor].
  - intros w1 w2 w3 H12 H23 Hi.
    destruct (H12 Hi) as (Hi2 & evs1 & Ht1 & Hs1).
    destruct (H23 Hi2) as (Hi3 & evs2 & Ht2 & Hs2).
    split; [done|]. exists (evs1 ++ evs2).
    rewrite Ht2, Ht1, app_assoc. split; [done|]. by eapply step_pairs_app.
Qed.

Lemma scheduled_silent w w' :
  scheduler w' = scheduler w -> group_lr (optimizer w') = group_lr (optimizer w) ->
  trace w' = trace w -> scheduled lr0 total w w'.
Proof.
  intros Hs Hl Ht Hi. split.
  - unfold sched_inv in *. by rewrite Hs, Hl.
  - exists []. rewrite app_nil_r, Hs. split; [done|constructor].
Qed.

Lemma scheduled_event w w' ev :
  scheduler w' = scheduler w -> group_lr (optimizer w') = group_lr (optimizer w) ->
  trace w' = trace w ++ [ev] -> is_update ev = false -> scheduled lr0 total w w'.
Proof.
  intros Hs Hl Ht Hev Hi. split.
  - unfold sched_inv in *. by rewrite Hs, Hl.
  - exists [ev]. rewrite Hs. split; [done|]. apply sp_other; [done|constructor].
Qed.

Lemma scheduled_forward m q d : steps (scheduled lr0 total) (forward m q d).
Proof.
  intros w. unfold forward.
  destruct (forward_scores _ _ _ _ _) as [[[? ?] ?]|]; cbn;
    by eapply scheduled_event.
Qed.

Lemma scheduled_forward_no_grad m q d :
  steps (scheduled lr0 total) (no_grad (forward m q d)).
Proof.
  intros w. unfold no_grad, forward. cbn.
  destruct (forward_scores _ _ _ _ _) as [[[? ?] ?]|]; cbn;
    by eapply scheduled_event.
Qed.

Lemma scheduled_zero_grad : steps (scheduled lr0 total) zero_grad.
Proof. intros w. cbn. by eapply scheduled_event. Qed.

Lemma scheduled_backward l leaves ctx :
  steps (scheduled lr0 total) (backward l leaves ctx).
Proof.
  intros w. unfold backward. destruct leaves; cbn; [reflexivity|].
  by eapply scheduled_event.
Qed.

Lemma scheduled_update (a : xreal) :
  steps (scheduled lr0 total)
    (optimizer_step ≫= fun _ => scheduler_step ≫= fun _ => mret a).
Proof.
  intros w (Hb & Hw & Ht & Hl).
  unfold mbind, M_bind, m_bind, optimizer_step, scheduler_step, modify. cbn.
  rewrite !scheduler_foldl_step_param, trace_foldl_step_param. cbn.
  split.
  - unfold sched_inv. cbn. done.
  - eexists. split; [by rewrite <- app_assoc|].
    rewrite Hl. unfold scheduled_lr. rewrite Hb, Hw, Ht.
    apply sp_pair. constructor.
Qed.
End Scheduled.

Section Lambda.
#[local] Open Scope Q_scope.

(** With no warmup the multiplier decays linearly from 1 to 0. *)
Lemma lr_lambda_linear (total k : nat) :
  (0 < total)%nat -> (k <= total)%nat ->
  lr_lambda 0 total k
  == (inject_Z (Z.of_nat total) - inject_Z (Z.of_nat k)) / inject_Z (Z.of_nat total).
Proof.
  intros Ht Hk. unfold lr_lambda. cbn [Nat.ltb Nat.leb].
  rewrite Z.sub_0_r, Z.max_r by lia.
  assert (0 < inject_Z (Z.of_nat total)) as Hpos.
  { change 0 with (inject_Z 0). rewrite <- Zlt_Qlt. lia. }
  rewrite Q.max_r.
  - unfold Zminus. rewrite inject_Z_plus, inject_Z_opp. reflexivity.
  - apply Qle_shift_div_l; [done|]. ring_simplify.
    change 0 with (inject_Z 0). rewrite <- Zle_Qle. lia.
Qed.

Lemma lr_lambda_start (total : nat) : (0 < total)%nat -> lr_lambda 0 total 0 == 1.
Proof.
  intros Ht. rewrite lr_lambda_linear by lia.
  assert (0 < inject_Z (Z.of_nat total)) as Hpos.
  { change 0 with (inject_Z 0). rewrite <- Zlt_Qlt. lia. }
  change (inject_Z (Z.of_nat 0)) with 0. field. intros E. rewrite E in Hpos.
  by apply Qlt_irrefl in Hpos.
Qed.

Lemma lr_lambda_end (total : nat) : (0 < total)%nat -> lr_lambda 0 total total == 0.
Proof.
  intros Ht. rewrite lr_lambda_linear by lia.
  assert (0 < inject_Z (Z.of_nat total)) as Hpos.
  { change 0 with (inject_Z 0). rewrite <- Zlt_Qlt. lia. }
  field. intros E. rewrite E in Hpos. by apply Qlt_irrefl in Hpos.
Qed.
End Lambda.

Section Schedule.
Context `{Elementary} `{Autograd} `{RandomGen}.

(** C9. The schedule has no warmup and [epochs * len(train_loader)]
    steps, its multiplier decays linearly from 1 to 0, and in a run of
    [train] every optimizer step is immediately followed by the one
    scheduler step of its batch. *)
Theorem schedule_linear_one_step_per_batch (model teacher_model : DualEncoderModel)
    tokenizer train_dataset val_dataset epochs batch_size learning_rate max_length
    alpha temperature (w w' : World) :
  train model teacher_model tokenizer train_dataset val_dataset epochs batch_size
    learning_rate max_length alpha temperature w = (w', Ok tt) ->
  let total :=
    (len {| dl_dataset := train_dataset; dl_batch_size := batch_size;
            dl_shuffle := true |} * epochs)%nat in
  num_warmup_steps (scheduler w') = 0%nat
  /\ num_training_steps (scheduler w') = total
  /\ base_lr (scheduler w') = learning_rate
  /\ last_epoch (scheduler w') = total
  /\ (exists evs, trace w' = trace w ++ evs
                  /\ step_pairs learning_rate total 0 evs total)
  /\ ((0 < total)%nat ->
      (lr_lambda 0 total 0 == 1)%Q /\ (lr_lambda 0 total total == 0)%Q
      /\ forall k, (k <= total)%nat ->
           (lr_lambda 0 total k
            == (inject_Z (Z.of_nat total) - inject_Z (Z.of_nat k))
               / inject_Z (Z.of_nat total))%Q).
Proof.
  intros Hrun total. unfold train in Hrun.
  destruct batch_size as [|bs]; [done|].
  cbn [mkDataLoader] in Hrun.
  erewrite bind_ok in Hrun; [|reflexivity].
  erewrite bind_ok in Hrun; [|reflexivity].
  erewrite bind_ok in Hrun; [|reflexivity].
  erewrite bind_ok in Hrun; [|reflexivity].
  set (tl := {| dl_dataset := train_dataset; dl_batch_size := S bs; dl_shuffle := true |}) in *.
  set (vl := {| dl_dataset := val_dataset; dl_batch_size := S bs; dl_shuffle := false |}) in *.
  match type of Hrun with foldM _ _ _ ?w2 = _ => set (W2 := w2) in * end.
  assert (sched_inv learning_rate total W2) as Hinv by done.
  pose proof (steps_epochs (scheduled learning_rate total) model teacher_model
                (fun w b => scheduled_silent _ _ w _ eq_refl eq_refl eq_refl)
                (fun w f => scheduled_silent _ _ w _ eq_refl eq_refl eq_refl)
                (fun w f => scheduled_silent _ _ w _ eq_refl eq_refl eq_refl)
                (fun w f => scheduled_silent _ _ w _ eq_refl eq_refl eq_refl)
                (scheduled_forward _ _ model)
                (scheduled_forward_no_grad _ _ teacher_model)
                (scheduled_zero_grad _ _) (scheduled_backward _ _)
                (scheduled_update _ _)
                tl vl (MarginRankingLoss (Fin 1)) epochs alpha temperature
                (seq 0 epochs) W2) as Hs.
  rewrite Hrun in Hs. cbn [fst] in Hs.
  destruct (Hs Hinv) as ((Hb & Hw & Ht & _) & evs & Htr & Hp).
  assert (last_epoch (scheduler w') = total) as Hlast.
  { eapply (ticks_foldM (len tl)) in Hrun.
    2:{ intros s a. by apply ticks_train_epoch; cbn; lia. }
    rewrite Hrun, length_seq. cbn. unfold total. lia. }
  rewrite Hlast in Hp.
  split; [done|]. split; [done|]. split; [done|]. split; [done|]. split.
  - exists evs. split; [exact Htr|exact Hp].
  - intros Hpos. split; [by apply lr_lambda_start|].
    split; [by apply lr_lambda_end|]. intros k Hk. by apply lr_lambda_linear.
Qed.
End Schedule.

(** ** The evaluator *)

Section Evaluate.
Context `{Elementary} `{Autograd} `{RandomGen}.

Lemma evaluate_batch_run model loss_fn s b w :
  evaluate_batch model loss_fn s b w
  = (with_trace (fun t => t ++ [EvForward (model_id model) (grad_enabled w) (mode_of w model)]) w,
     rbind (eval_loss model (params w) (mode_of w model) loss_fn b)
           (fun v => Ok (s + v)%X)).
Proof.
  unfold evaluate_batch, eval_loss, forward, mbind, M_bind, m_bind, lift.
  destruct (forward_scores _ _ _ _ _) as [[[scores q] d]|]; [|done]. cbn.
  destruct (max_dim1 _); [|done]. cbn.
  by destruct (loss_fn _ _ _).
Qed.

(** The batch loop of [evaluate]: it only appends forward events, and
    when it returns, the result is the sum of the batch losses. *)
Lemma evaluate_loop model dl loss_fn idx s w :
  let ev := EvForward (model_id model) (grad_enabled w) (mode_of w model) in
  let body := with_batch dl (evaluate_batch model loss_fn) in
  exists n,
    (foldM body idx s w).1 = with_trace (fun t => t ++ replicate n ev) w
    /\ match (foldM body idx s w).2 with
       | Ok s' =>
           exists losses,
             rmapM (fun chunk => rbind (fetch dl chunk)
                                   (eval_loss model (params w) (mode_of w model) loss_fn))
                   idx = Ok losses
             /\ s' = foldl xadd s losses
       | Raise _ => True
       end.
Proof.
  intros ev body. revert s w ev. induction idx as [|chunk idx IH]; intros s w ev.
  - exists 0%nat. cbn. split; [by rewrite with_trace_nil|]. by exists [].
  - assert (body s chunk w
            = match fetch dl chunk with
              | Ok b => evaluate_batch model loss_fn s b w
              | Raise e => (w, Raise e)
              end) as Hbody by apply lift_bind.
    destruct (fetch dl chunk) as [b|e] eqn:Hf.
    2:{ exists 0%nat. rewrite (foldM_cons_raise _ _ _ _ _ _ _ Hbody). cbn.
        split; [by rewrite with_trace_nil|done]. }
    rewrite evaluate_batch_run in Hbody.
    destruct (eval_loss model (params w) (mode_of w model) loss_fn b) as [v|e] eqn:Hl.
    2:{ exists 1%nat. rewrite (foldM_cons_raise _ _ _ _ _ _ _ Hbody). cbn. done. }
    cbn [rbind] in Hbody. rewrite (foldM_cons_ok _ _ _ _ _ _ _ Hbody).
    set (w1 := with_trace _ w) in *.
    destruct (IH (s + v)%X w1) as (n & Hw & Hr).
    exists (S n). split.
    + rewrite Hw. unfold w1. cbn. unfold with_trace. cbn.
      by rewrite <- app_assoc.
    + destruct (foldM body idx (s + v)%X w1).2 as [s'|]; [|done].
      destruct Hr as (losses & Hm & ->).
      exists (v :: losses). cbn [rmapM]. rewrite Hf. cbn [rbind]. rewrite Hl. cbn [rbind].
      change (params w1) with (params w) in Hm.
      change (mode_of w1 model) with (mode_of w model) in Hm.
      rewrite Hm. done.
Qed.

Lemma evaluate_unfold model dl loss_fn w :
  let w0 := with_grad_enabled false (with_training (<[model_id model := false]>) w) in
  let wr := if dl_shuffle dl then with_rng S w0 else w0 in
  let run := foldM (with_batch dl (evaluate_batch model loss_fn))
               (batch_indices dl w) (Fin 0) wr in
  let wl := with_grad_enabled (grad_enabled w) run.1 in
  evaluate model dl loss_fn w
  = match run.2 with
    | Ok total =>
        match py_div total (len dl) with
        | Ok avg => (with_stdout (fun o => o ++ [ValidationLoss avg]) wl, Ok tt)
        | Raise e => (wl, Raise e)
        end
    | Raise e => (wl, Raise e)
    end.
Proof.
  intros w0 wr run wl. subst wl run wr w0.
  unfold evaluate, set_mode, no_grad, for_batches, iter_indices, print, modify.
  unfold mbind, M_bind, m_bind, lift. unfold batch_indices.
  destruct (dl_shuffle dl); cbn [fst snd].
  - change (rng (with_grad_enabled false (with_training <[model_id model:=false]> w)))
      with (rng w).
    destruct (foldM _ _ _ _) as [w1 [tot|e]]; cbn [fst snd]; [|done].
    by destruct (py_div tot (len dl)).
  - unfold mret, M_ret, m_ret.
    destruct (foldM _ _ _ _) as [w1 [tot|e]]; cbn [fst snd]; [|done].
    by destruct (py_div tot (len dl)).
Qed.

End Evaluate.

(** ** The labels are never read *)

Section Labels.
Context `{Elementary} `{Autograd} `{RandomGen}.

Lemma getitem_erase ds i :
  getitem (erase_labels ds) i = rbind (getitem ds i) (fun ex => Ok (erase_example ex)).
Proof.
  unfold getitem. cbn.
  destruct (ds_queries ds !! i); [|done]. cbn.
  destruct (ds_documents ds !! i); [|done]. cbn.
  rewrite list_lookup_fmap. by destruct (ds_labels ds !! i).
Qed.

Lemma rmapM_getitem_erase ds idx :
  rmapM (getitem (erase_labels ds)) idx
  = rbind (rmapM (getitem ds) idx) (fun exs => Ok (map erase_example exs)).
Proof.
  induction idx as [|i idx IH]; [done|].
  cbn [rmapM]. rewrite getitem_erase, IH.
  destruct (getitem ds i); [|done]. cbn.
  by destruct (rmapM (getitem ds) idx).
Qed.

Lemma collate_erase exs :
  collate (map erase_example exs) = rbind (collate exs) (fun b => Ok (erase_batch b)).
Proof.
  unfold collate.
  assert (map ex_query_inputs (map erase_example exs) = map ex_query_inputs exs) as ->.
  { rewrite map_map. done. }
  assert (map ex_doc_inputs (map erase_example exs) = map ex_doc_inputs exs) as ->.
  { rewrite map_map. done. }
  destruct (collate_dicts (map ex_query_inputs exs)); [|done]. cbn.
  destruct (collate_dicts (map ex_doc_inputs exs)); [|done]. cbn.
  unfold erase_batch. cbn. by rewrite !map_map.
Qed.

Lemma fetch_erase dl idx :
  fetch (erase_loader dl) idx = rbind (fetch dl idx) (fun b => Ok (erase_batch b)).
Proof.
  unfold fetch. cbn. rewrite rmapM_getitem_erase.
  destruct (rmapM (getitem (dl_dataset dl)) idx); [|done]. cbn.
  apply collate_erase.
Qed.

(** A loop whose body does not read the labels runs the same on the
    loader with the labels erased. *)
Lemma for_batches_erase {St} dl (body : St -> Batch -> M St) s0 w :
  (forall s b w, body s (erase_batch b) w = body s b w) ->
  for_batches (erase_loader dl) body s0 w = for_batches dl body s0 w.
Proof.
  intros Hb. unfold for_batches. apply bind_ext; [done|].
  intros idx w1. apply foldM_ext. intros s chunk w2.
  unfold with_batch, mbind, M_bind, m_bind, lift. rewrite fetch_erase.
  destruct (fetch dl chunk); cbn; [apply Hb|done].
Qed.

Lemma evaluate_erase model dl loss_fn w :
  evaluate model (erase_loader dl) loss_fn w = evaluate model dl loss_fn w.
Proof.
  unfold evaluate. apply bind_ext; [done|]. intros _ w1.
  apply bind_ext; [|done]. unfold no_grad.
  by rewrite for_batches_erase.
Qed.

Lemma train_epoch_erase model teacher_model tl vl loss_fn epochs alpha temperature u e w :
  train_epoch model teacher_model (erase_loader tl) (erase_loader vl) loss_fn
    epochs alpha temperature u e w
  = train_epoch model teacher_model tl vl loss_fn epochs alpha temperature u e w.
Proof.
  unfold train_epoch. apply bind_ext; [done|]. intros _ w1.
  apply bind_ext; [done|]. intros _ w2.
  apply bind_ext; [by apply for_batches_erase|]. intros total w3.
  apply bind_ext; [done|]. intros avg w4.
  apply bind_ext; [done|]. intros _ w5.
  apply evaluate_erase.
Qed.

Lemma train_erase model teacher_model tokenizer train_dataset val_dataset epochs
    batch_size learning_rate max_length alpha temperature w :
  train model teacher_model tokenizer (erase_labels train_dataset)
    (erase_labels val_dataset) epochs batch_size learning_rate max_length
    alpha temperature w
  = train model teacher_model tokenizer train_dataset val_dataset epochs batch_size
      learning_rate max_length alpha temperature w.
Proof.
  unfold train. destruct batch_size as [|bs]; [done|].
  cbn [mkDataLoader]. unfold mbind, M_bind, m_bind, mret, M_ret, m_ret. cbn.
  apply foldM_ext. intros u e w1.
  apply (train_epoch_erase model teacher_model
           {| dl_dataset := train_dataset; dl_batch_size := S bs; dl_shuffle := true |}
           {| dl_dataset := val_dataset; dl_batch_size := S bs; dl_shuffle := false |}).
Qed.

Lemma erase_labels_same ds ds' :
  same_except_labels ds ds' -> erase_labels ds = erase_labels ds'.
Proof.
  intros (Ht & Hq & Hd & Hm & Hl). unfold erase_labels.
  rewrite Ht, Hq, Hd, Hm. f_equal.
  revert Hl. generalize (ds_labels ds) (ds_labels ds').
  induction l as [|a l IH]; intros [|b l'] Hl; simplify_eq/=; [done|].
  f_equal. by apply IH.
Qed.

(** C10. Two runs of [train] on datasets that differ only in their
    labels end in the same world with the same outcome: the same
    losses, the same parameter updates, the same reports. *)
Theorem labels_never_influence_training (model teacher_model : DualEncoderModel)
    tokenizer train_dataset train_dataset' val_dataset val_dataset' epochs
    batch_size learning_rate max_length alpha temperature (w : World) :
  same_except_labels train_dataset train_dataset' ->
  same_except_labels val_dataset val_dataset' ->
  train model teacher_model tokenizer train_dataset val_dataset epochs batch_size
    learning_rate max_length alpha temperature w
  = train model teacher_model tokenizer train_dataset' val_dataset' epochs batch_size
      learning_rate max_length alpha temperature w.
Proof.
  intros Ht Hv.
  rewrite <- (train_erase _ _ _ train_dataset val_dataset).
  rewrite <- (train_erase _ _ _ train_dataset' val_dataset').
  by rewrite (erase_labels_same _ _ Ht), (erase_labels_same _ _ Hv).
Qed.
End Labels.

(** ** The scorer accepts any two batch sizes *)

Section Forward.
Lemma forward_scores_run m theta training q d qo qe do de :
  enc_call (query_encoder m) theta training (popped m q) = Ok qo ->
  representation m qo = Ok qe ->
  enc_call (doc_encoder m) theta training (popped m d) = Ok do ->
  representation m do = Ok de ->
  forward_scores m theta training q d
  = rbind (matmul_t qe de) (fun scores => Ok (scores, popped m q, popped m d)).
Proof.
  unfold forward_scores, representation, popped.
  destruct (any_DistilBert m); intros -> Hq -> Hd; cbn; rewrite Hq; cbn; by rewrite Hd.
Qed.

Lemma matmul_t_shape q d scores :
  matmul_t q d = Ok scores -> is_matrix (length q) (length d) scores.
Proof.
  unfold matmul_t. case_decide; [|done]. intros [= <-]. split.
  - by rewrite length_map.
  - apply Forall_forall. intros row [qi [-> _]]%list_elem_of_fmap.
    by rewrite length_map.
Qed.
End Forward.

Section ForwardTheorem.

(** C5 (as amended). [forward] has no check on the two batch sizes:
    whenever the encoders return [Bq] and [Bd] representation vectors
    of one width, it returns the [Bq] x [Bd] matrix of their dot
    products, square or not. *)
Theorem forward_returns_scores_for_any_batch_sizes (m : DualEncoderModel)
    theta training q d qo qe do de :
  enc_call (query_encoder m) theta training (popped m q) = Ok qo ->
  representation m qo = Ok qe ->
  enc_call (doc_encoder m) theta training (popped m d) = Ok do ->
  representation m do = Ok de ->
  width qe = width de ->
  exists scores,
    forward_scores m theta training q d = Ok (scores, popped m q, popped m d)
    /\ is_matrix (length qe) (length de) scores
    /\ forall i j qi dj, qe !! i = Some qi -> de !! j = Some dj ->
         scores !! i ≫= (.!! j) = Some (dot qi dj).
Proof.
  intros Hq Hqe Hd Hde Hw.
  rewrite (forward_scores_run _ _ _ _ _ _ _ _ _ Hq Hqe Hd Hde).
  destruct (matmul_t qe de) as [scores|] eqn:Hm.
  2:{ unfold matmul_t in Hm. by rewrite decide_True in Hm. }
  exists scores. split; [done|]. split; [by apply matmul_t_shape|].
  intros i j qi dj Hi Hj. unfold matmul_t in Hm. rewrite decide_True in Hm by done.
  injection Hm as <-.
  change (map (fun qi => map (fun dj => dot qi dj) de) qe)
    with ((fun qi => (fun dj => dot qi dj) <$> de) <$> qe).
  unfold mat, vec in *.
  rewrite list_lookup_fmap, Hi. cbn. by rewrite list_lookup_fmap, Hj.
Qed.

End ForwardTheorem.

(** ** The theorems on the small instance *)

Section Instances.
Import Demo DemoData.





Lemma teacher_parameters_frozen_witness :
  model_id student <> model_id teacher
  /\ (forall p, p ∈ parameters teacher -> p ∉ parameters student)
  /\ params (train student teacher tok train_set val_set 2 2 (Fin (1 # 10)) 2
               (Fin (1 # 2)) (Fin 2) world0).1 !! 3%positive
     = params world0 !! 3%positive
  /\ param_group (optimizer (train student teacher tok train_set val_set 2 2
                               (Fin (1 # 10)) 2 (Fin (1 # 2)) (Fin 2) world0).1)
     = parameters student.
Proof.
  assert (model_id student <> model_id teacher) as H1 by discriminate.
  assert (forall p, p ∈ parameters teacher -> p ∉ parameters student) as H2.
  { intros p Hp%list_elem_of_In Hq%list_elem_of_In. cbn in Hp, Hq.
    intuition congruence. }
  assert (3%positive ∈ parameters teacher) as H3.
  { apply list_elem_of_In. cbn. tauto. }
  split; [exact H1|]. split; [exact H2|].
  pose proof (teacher_parameters_frozen student teacher tok train_set val_set 2 2
                (Fin (1 # 10)) 2 (Fin (1 # 2)) (Fin 2) world0 H1 H2) as Hthm.
  cbv zeta in Hthm. destruct Hthm as (Hp & Hg & _).
  split; [exact (Hp 3%positive H3)|]. apply Hg. discriminate.
Defined.

Lemma schedule_linear_one_step_per_batch_witness :
  let run := train student teacher tok train_set val_set 2 2 (Fin (1 # 10)) 2
               (Fin (1 # 2)) (Fin 2) world0 in
  run = (run.1, Ok tt)
  /\ num_warmup_steps (scheduler run.1) = 0%nat
  /\ num_training_steps (scheduler run.1) = 4%nat
  /\ last_epoch (scheduler run.1) = 4%nat.
Proof.
  intros run.
  assert (run = (run.1, Ok tt)) as Hrun by (vm_compute; reflexivity).
  split; [exact Hrun|].
  destruct (schedule_linear_one_step_per_batch student teacher tok train_set val_set
              2 2 (Fin (1 # 10)) 2 (Fin (1 # 2)) (Fin 2) world0 run.1 Hrun)
    as (Hw & Ht & _ & Hl & _).
  split; [exact Hw|]. split; [exact Ht|exact Hl].
Defined.

Lemma labels_never_influence_training_witness :
  same_except_labels train_set train_set'
  /\ same_except_labels val_set val_set
  /\ train student teacher tok train_set val_set 2 2 (Fin (1 # 10)) 2
       (Fin (1 # 2)) (Fin 2) world0
     = train student teacher tok train_set' val_set 2 2 (Fin (1 # 10)) 2
         (Fin (1 # 2)) (Fin 2) world0.
Proof.
  assert (same_except_labels train_set train_set') as H1 by (repeat split).
  assert (same_except_labels val_set val_set) as H2 by (repeat split).
  split; [exact H1|]. split; [exact H2|].
  exact (labels_never_influence_training student teacher tok train_set train_set'
           val_set val_set 2 2 (Fin (1 # 10)) 2 (Fin (1 # 2)) (Fin 2) world0 H1 H2).
Defined.

Lemma forward_returns_scores_for_any_batch_sizes_witness :
  exists scores,
    forward_scores student (params world0) true
      (ids [[3; 1]]%Z) (ids [[2; 5]; [4; 1]]%Z)
    = Ok (scores, popped student (ids [[3; 1]]%Z), popped student (ids [[2; 5]; [4; 1]]%Z))
    /\ is_matrix 1 2 scores.
Proof.
  edestruct (forward_returns_scores_for_any_batch_sizes student (params world0) true
               (ids [[3; 1]]%Z) (ids [[2; 5]; [4; 1]]%Z))
    as (scores & Hf & Hm & _);
    [reflexivity|reflexivity|reflexivity|reflexivity|reflexivity|].
  exists scores. split; [exact Hf|exact Hm].
Defined.




(** C5, as the specification states it, fails: for one query and two
    documents [forward] returns a 1 x 2 matrix, not an error. *)
Lemma forward_on_unequal_batch_sizes :
  rbind (forward_scores student (params world0) true
           (ids [[3; 1]]%Z) (ids [[2; 5]; [4; 1]]%Z))
        (fun '(scores, _, _) => Ok (length scores, map length scores))
  = Ok (1%nat, [2%nat]).
Proof. vm_compute. reflexivity. Qed.


End Instances.

(** * Further properties of the code *)

(** ** The MS MARCO loader *)

Section CorpusFacts.

(** A dict built by successive item assignments holds, for every key,
    the value of the last record with that key. *)
Lemma foldl_insert_lookup {A} (key val : A -> string) (l : list A)
    (d0 : gmap string string) (k : string) :
  foldl (fun d x => <[key x := val x]> d) d0 l !! k
  = match last (filter (fun x => key x = k) l) with
    | Some x => Some (val x)
    | None => d0 !! k
    end.
Proof.
  revert d0. induction l as [|x l IH]; intros d0; [done|].
  cbn [foldl]. rewrite IH. rewrite filter_cons.
  destruct (decide (key x = k)) as [E|E].
  - rewrite last_cons. destruct (last (filter _ l)); [done|].
    by rewrite E, lookup_insert_eq.
  - destruct (last (filter _ l)); [done|]. by rewrite lookup_insert_ne.
Qed.

Lemma last_filter_is_Some {A} (P : A -> Prop) `{!forall x, Decision (P x)} (l : list A) :
  is_Some (last (filter P l)) <-> Exists P l.
Proof.
  rewrite Exists_exists. split.
  - intros [x Hx]. apply last_Some_elem_of in Hx.
    apply list_elem_of_filter in Hx as [? ?]. eauto.
  - intros (x & Hin & HP).
    assert (x ∈ filter P l) as Hf by (by apply list_elem_of_filter).
    destruct (filter P l) as [|y f] eqn:E using rev_ind; [by apply elem_of_nil in Hf|].
    rewrite last_snoc. eauto.
Qed.

Lemma query_dict_lookup queries k :
  query_dict queries !! k
  = query_text <$> last (filter (fun x => query_id x = k) queries).
Proof.
  unfold query_dict. rewrite foldl_insert_lookup.
  by destruct (last _).
Qed.

Lemma doc_dict_lookup docs k :
  doc_dict docs !! k = doc_text <$> last (filter (fun x => doc_id x = k) docs).
Proof.
  unfold doc_dict. rewrite foldl_insert_lookup.
  by destruct (last _).
Qed.

Lemma query_dict_is_Some queries k :
  is_Some (query_dict queries !! k) <-> k ∈ map query_id queries.
Proof.
  rewrite query_dict_lookup, fmap_is_Some, last_filter_is_Some, Exists_exists.
  change (map query_id queries) with (query_id <$> queries).
  rewrite list_elem_of_fmap.
  split; [intros (x & Hin & <-)|intros (x & -> & Hin)]; by exists x.
Qed.

Lemma doc_dict_is_Some docs k :
  is_Some (doc_dict docs !! k) <-> k ∈ map doc_id docs.
Proof.
  rewrite doc_dict_lookup, fmap_is_Some, last_filter_is_Some, Exists_exists.
  change (map doc_id docs) with (doc_id <$> docs).
  rewrite list_elem_of_fmap.
  split; [intros (x & Hin & <-)|intros (x & -> & Hin)]; by exists x.
Qed.

Lemma rfoldl_append_qrel qd dd qrels qs ds ls :
  rfoldl (append_qrel qd dd) qrels (qs, ds, ls)
  = rbind (rmapM (qrel_row qd dd) qrels) (fun rows =>
      Ok (qs ++ map (fun r => r.1.1) rows, ds ++ map (fun r => r.1.2) rows,
          ls ++ map snd rows)).
Proof.
  revert qs ds ls. induction qrels as [|qrel qrels IH]; intros qs ds ls.
  - cbn. by rewrite !app_nil_r.
  - cbn [rfoldl rmapM]. unfold append_qrel at 1, qrel_row at 1.
    destruct (qd !! qrel_query_id qrel) as [q|]; [|done]. cbn [of_option rbind].
    destruct (dd !! qrel_doc_id qrel) as [d|]; [|done]. cbn [of_option rbind].
    rewrite IH. destruct (rmapM (qrel_row qd dd) qrels) as [rows|]; [|done].
    cbn. by rewrite <- !app_assoc.
Qed.

Lemma load_msmarco_data_rows corpus :
  load_msmarco_data corpus
  = rbind (rmapM (qrel_row (query_dict (queries_iter corpus)) (doc_dict (docs_iter corpus)))
             (qrels_iter corpus))
      (fun rows => Ok (map (fun r => r.1.1) rows, map (fun r => r.1.2) rows, map snd rows)).
Proof. unfold load_msmarco_data. by rewrite rfoldl_append_qrel. Qed.

Lemma rmapM_Ok_Forall2 {A B} (f : A -> result B) (l : list A) (bs : list B) :
  rmapM f l = Ok bs <-> Forall2 (fun a b => f a = Ok b) l bs.
Proof.
  revert bs. induction l as [|a l IH]; intros bs.
  - cbn. split.
    + intros [= <-]. constructor.
    + intros ->%Forall2_nil_inv_l. done.
  - cbn [rmapM]. split.
    + destruct (f a) as [b|] eqn:E; [|done]. cbn [rbind].
      destruct (rmapM f l) as [bs'|] eqn:E'; [|done]. cbn [rbind].
      intros [= <-]. constructor; [done|]. by apply IH.
    + intros (b & bs' & Hb & Hl & ->)%Forall2_cons_inv_l.
      rewrite Hb. cbn [rbind]. apply IH in Hl. by rewrite Hl.
Qed.

Lemma rmapM_Raise {A B} (f : A -> result B) (l : list A) e :
  rmapM f l = Raise e -> Exists (fun a => f a = Raise e) l.
Proof.
  induction l as [|a l IH]; [done|]. cbn [rmapM].
  destruct (f a) as [b|e'] eqn:E; cbn [rbind].
  - destruct (rmapM f l) as [bs|e'] eqn:E'; [done|]. cbn [rbind].
    intros [= ->]. apply Exists_cons_tl. by apply IH.
  - intros [= ->]. by apply Exists_cons_hd.
Qed.

Lemma rmapM_raises {A B} (f : A -> result B) (l : list A) :
  Exists (fun a => exists e, f a = Raise e) l -> exists e, rmapM f l = Raise e.
Proof.
  induction 1 as [a l [e He]|a l _ [e IH]]; cbn [rmapM].
  - exists e. by rewrite He.
  - destruct (f a) as [b|e']; [|by exists e']. cbn [rbind]. rewrite IH. by exists e.
Qed.

Lemma rmapM_length {A B} (f : A -> result B) (l : list A) (bs : list B) :
  rmapM f l = Ok bs -> length bs = length l.
Proof. intros Hm%rmapM_Ok_Forall2. symmetry. by eapply Forall2_length. Qed.

Lemma qrel_row_Ok qd dd qrel q d r :
  qrel_row qd dd qrel = Ok (q, d, r)
  <-> qd !! qrel_query_id qrel = Some q /\ dd !! qrel_doc_id qrel = Some d
      /\ r = relevance qrel.
Proof.
  unfold qrel_row.
  destruct (qd !! qrel_query_id qrel) as [q'|]; cbn; [|split; [done|by intros [? _]]].
  destruct (dd !! qrel_doc_id qrel) as [d'|]; cbn; [|split; [done|by intros (_ & ? & _)]].
  split; [by intros [= <- <- <-]|by intros ([= <-] & [= <-] & ->)].
Qed.

Lemma qrel_row_Raise qd dd qrel e :
  qrel_row qd dd qrel = Raise e ->
  e = KeyError /\ (qd !! qrel_query_id qrel = None \/ dd !! qrel_doc_id qrel = None).
Proof.
  unfold qrel_row.
  destruct (qd !! qrel_query_id qrel) as [q'|]; cbn; [|intros [= <-]; by split; [|left]].
  destruct (dd !! qrel_doc_id qrel) as [d'|]; cbn; [done|].
  intros [= <-]. by split; [|right].
Qed.

Lemma load_msmarco_data_lengths corpus queries documents labels :
  load_msmarco_data corpus = Ok (queries, documents, labels) ->
  length queries = length (qrels_iter corpus)
  /\ length documents = length (qrels_iter corpus)
  /\ length labels = length (qrels_iter corpus).
Proof.
  rewrite load_msmarco_data_rows.
  destruct (rmapM _ (qrels_iter corpus)) as [rows|e] eqn:E; [|done]. cbn [rbind].
  intros [= <- <- <-]. apply rmapM_Ok_Forall2, Forall2_length in E.
  by rewrite !length_map.
Qed.

Lemma load_msmarco_data_dangling corpus :
  Exists (fun qrel =>
            qrel_query_id qrel ∉ map query_id (queries_iter corpus)
            \/ qrel_doc_id qrel ∉ map doc_id (docs_iter corpus))
         (qrels_iter corpus) ->
  load_msmarco_data corpus = Raise KeyError.
Proof.
  intros Hex. rewrite load_msmarco_data_rows.
  destruct (rmapM _ (qrels_iter corpus)) as [rows|e] eqn:E; cbn [rbind].
  - exfalso. apply rmapM_Ok_Forall2 in E.
    apply Exists_exists in Hex as (qrel & Hin & Hbad).
    apply list_elem_of_lookup in Hin as [i Hi].
    destruct (Forall2_lookup_l _ _ _ _ _ E Hi) as ([[q d] r] & _ & Hok).
    apply qrel_row_Ok in Hok as (Hq & Hd & _).
    destruct Hbad as [Hbad|Hbad]; apply Hbad.
    + apply query_dict_is_Some. eauto.
    + apply doc_dict_is_Some. eauto.
  - apply rmapM_Raise, Exists_exists in E as (qrel & _ & Hr).
    by apply qrel_row_Raise in Hr as [-> _].
Qed.

(** X1. [load_msmarco_data] returns only if every qrel refers to a
    query id and a document id of the corpus; the only exception it
    raises is KeyError, and it raises it only if some qrel refers to
    an id that the corpus does not have. *)
Theorem load_msmarco_data_needs_known_ids (corpus : Dataset) :
  match load_msmarco_data corpus with
  | Ok _ =>
      Forall (fun qrel =>
                qrel_query_id qrel ∈ map query_id (queries_iter corpus)
                /\ qrel_doc_id qrel ∈ map doc_id (docs_iter corpus))
             (qrels_iter corpus)
  | Raise e =>
      e = KeyError
      /\ Exists (fun qrel =>
                   qrel_query_id qrel ∉ map query_id (queries_iter corpus)
                   \/ qrel_doc_id qrel ∉ map doc_id (docs_iter corpus))
                (qrels_iter corpus)
  end.
Proof.
  rewrite load_msmarco_data_rows.
  destruct (rmapM _ (qrels_iter corpus)) as [rows|e] eqn:E; cbn [rbind].
  - apply rmapM_Ok_Forall2 in E.
    induction E as [|qrel [[q d] r] qrels rows Hrow _ IH]; constructor; [|done].
    apply qrel_row_Ok in Hrow as (Hq & Hd & _).
    split; [apply query_dict_is_Some|apply doc_dict_is_Some]; eauto.
  - apply rmapM_Raise in E. split.
    + apply Exists_exists in E as (qrel & _ & Hr). by apply qrel_row_Raise in Hr as [-> _].
    + eapply Exists_impl; [exact E|]. intros qrel (_ & Hn)%qrel_row_Raise.
      destruct Hn as [Hn|Hn]; [left|right]; intros Hin.
      * apply query_dict_is_Some in Hin as [? ?]. congruence.
      * apply doc_dict_is_Some in Hin as [? ?]. congruence.
Qed.

(** X2. When [load_msmarco_data] returns, the three lists have one
    entry per qrel, in the order of the qrels: the text of the last
    query record and of the last document record with the qrel's ids,
    and the qrel's relevance. *)
Theorem load_msmarco_data_rows_follow_qrels (corpus : Dataset)
    (queries documents : list string) (labels : list Z) :
  load_msmarco_data corpus = Ok (queries, documents, labels) ->
  length queries = length (qrels_iter corpus)
  /\ length documents = length (qrels_iter corpus)
  /\ labels = map relevance (qrels_iter corpus)
  /\ forall i qrel, qrels_iter corpus !! i = Some qrel ->
       queries !! i
       = query_text <$> last (filter (fun x => query_id x = qrel_query_id qrel)
                                     (queries_iter corpus))
       /\ is_Some (queries !! i)
       /\ documents !! i
          = doc_text <$> last (filter (fun x => doc_id x = qrel_doc_id qrel)
                                      (docs_iter corpus))
       /\ is_Some (documents !! i).
Proof.
  rewrite load_msmarco_data_rows.
  destruct (rmapM _ (qrels_iter corpus)) as [rows|e] eqn:E; [|done]. cbn [rbind].
  intros [= <- <- <-]. apply rmapM_Ok_Forall2 in E.
  rewrite !length_map. rewrite <- (Forall2_length _ _ _ E).
  split; [done|]. split; [done|]. split.
  - induction E as [|qrel [[q d] r] qrels rows Hrow _ IH]; [done|].
    apply qrel_row_Ok in Hrow as (_ & _ & ->). cbn. by f_equal.
  - intros i qrel Hi.
    destruct (Forall2_lookup_l _ _ _ _ _ E Hi) as ([[q d] r] & Hrow & Hok).
    apply qrel_row_Ok in Hok as (Hq & Hd & _).
    change (map ?f rows) with (f <$> rows).
    rewrite !list_lookup_fmap, Hrow. cbn.
    rewrite <- query_dict_lookup, <- doc_dict_lookup, Hq, Hd. eauto.
Qed.

End CorpusFacts.

(** ** The dataset *)

Section DatasetFacts.

Lemma getitem_Ok ds index ex :
  getitem ds index = Ok ex
  <-> exists query document label,
        ds_queries ds !! index = Some query
        /\ ds_documents ds !! index = Some document
        /\ ds_labels ds !! index = Some label
        /\ ex = {| ex_query_inputs := tokenizer ds query (max_length ds);
                   ex_doc_inputs := tokenizer ds document (max_length ds);
                   ex_labels := label |}.
Proof.
  unfold getitem.
  destruct (ds_queries ds !! index) as [q|]; cbn.
  2:{ split; [done|]. by intros (? & ? & ? & ? & _). }
  destruct (ds_documents ds !! index) as [d|]; cbn.
  2:{ split; [done|]. by intros (? & ? & ? & ? & ? & _). }
  destruct (ds_labels ds !! index) as [l|]; cbn.
  2:{ split; [done|]. by intros (? & ? & ? & ? & ? & ? & _). }
  split.
  - intros [= <-]. by exists q, d, l.
  - intros (? & ? & ? & [= <-] & [= <-] & [= <-] & ->). done.
Qed.

Lemma getitem_Raise ds index e :
  getitem ds index = Raise e
  <-> e = IndexError
      /\ (length (ds_queries ds) <= index \/ length (ds_documents ds) <= index
          \/ length (ds_labels ds) <= index)%nat.
Proof.
  unfold getitem. rewrite <- !lookup_ge_None.
  destruct (ds_queries ds !! index) as [q|]; cbn;
    [|split; [intros [= <-]; tauto|by intros [-> _]]].
  destruct (ds_documents ds !! index) as [d|]; cbn;
    [|split; [intros [= <-]; tauto|by intros [-> _]]].
  destruct (ds_labels ds !! index) as [l|]; cbn;
    [|split; [intros [= <-]; tauto|by intros [-> _]]].
  split; [done|]. intros [_ [?|[?|?]]]; done.
Qed.

Lemma getitem_in_range ds index :
  (index < length (ds_queries ds))%nat -> (index < length (ds_documents ds))%nat ->
  (index < length (ds_labels ds))%nat ->
  exists ex, getitem ds index = Ok ex.
Proof.
  intros [q Hq]%lookup_lt_is_Some_2 [d Hd]%lookup_lt_is_Some_2 [l Hl]%lookup_lt_is_Some_2.
  eexists. apply getitem_Ok. by exists q, d, l.
Qed.

(** X3. [__getitem__] returns the tokenized pair and the label exactly
    for an index below the length of each of the three lists, and
    raises IndexError otherwise; [__len__] only counts the queries, so
    it accepts an index on which [__getitem__] raises as soon as the
    documents or the labels are fewer. *)
Theorem getitem_needs_all_three_lists (ds : DualEncoderDataset) (index : nat) :
  match getitem ds index with
  | Ok ex =>
      (index < ds_len ds)%nat
      /\ exists query document label,
           ds_queries ds !! index = Some query
           /\ ds_documents ds !! index = Some document
           /\ ds_labels ds !! index = Some label
           /\ ex = {| ex_query_inputs := tokenizer ds query (max_length ds);
                      ex_doc_inputs := tokenizer ds document (max_length ds);
                      ex_labels := label |}
  | Raise e =>
      e = IndexError
      /\ (ds_len ds <= index \/ length (ds_documents ds) <= index
          \/ length (ds_labels ds) <= index)%nat
  end
  /\ ((length (ds_documents ds) < ds_len ds \/ length (ds_labels ds) < ds_len ds)%nat ->
      getitem ds (ds_len ds - 1) = Raise IndexError).
Proof.
  split.
  - destruct (getitem ds index) as [ex|e] eqn:E.
    + apply getitem_Ok in E as (q & d & l & Hq & Hd & Hl & ->).
      split; [by eapply lookup_lt_Some|]. by exists q, d, l.
    + by apply getitem_Raise in E.
  - intros Hshort. apply getitem_Raise. split; [done|]. unfold ds_len in *. lia.
Qed.

End DatasetFacts.

(** ** The data loader *)

Section ChunkFacts.
Context {A : Type}.

Lemma concat_chunks_fuel (bs fuel : nat) (l : list A) :
  (0 < bs)%nat -> (length l <= fuel)%nat -> concat (chunks_fuel fuel bs l) = l.
Proof.
  intros Hbs. revert l. induction fuel as [|fuel IH]; intros l Hl.
  - destruct l; [done|cbn in Hl; lia].
  - destruct l as [|a l]; [done|].
    cbn [chunks_fuel concat]. rewrite IH.
    + apply take_drop.
    + rewrite length_drop. cbn [length] in *. lia.
Qed.

Lemma concat_chunks (bs : nat) (l : list A) :
  (0 < bs)%nat -> concat (chunks bs l) = l.
Proof. intros. by apply concat_chunks_fuel. Qed.

Lemma chunks_fuel_lookup (bs fuel : nat) (l : list A) (i : nat) (c : list A) :
  (0 < bs)%nat -> (length l <= fuel)%nat ->
  chunks_fuel fuel bs l !! i = Some c ->
  c = take bs (drop (i * bs) l) /\ (i * bs < length l)%nat.
Proof.
  intros Hbs. revert l i. induction fuel as [|fuel IH]; intros l i Hl Hi; [done|].
  destruct l as [|a l]; [done|].
  cbn [chunks_fuel] in Hi. destruct i as [|i].
  - injection Hi as <-. cbn. split; [done|lia].
  - cbn [lookup list_lookup] in Hi. apply IH in Hi as [-> Hlt].
    2:{ rewrite length_drop. cbn [length] in *. lia. }
    rewrite length_drop in Hlt. rewrite drop_drop.
    replace (bs + i * bs)%nat with (S i * bs)%nat by lia.
    split; [done|lia].
Qed.

Lemma chunks_lookup (bs : nat) (l : list A) (i : nat) (c : list A) :
  (0 < bs)%nat -> chunks bs l !! i = Some c ->
  c = take bs (drop (i * bs) l) /\ (i * bs < length l)%nat.
Proof. intros Hbs. by apply chunks_fuel_lookup. Qed.

End ChunkFacts.

Section LoaderFacts.
Context `{RandomGen}.

(** X4. One pass over a loader with a positive batch size yields
    [len(loader)] batches that cut the order of the sampler into
    consecutive pieces: batch [i] holds the indices at the positions
    from [i * batch_size] on, it is never empty, and only the last
    batch can be smaller than [batch_size]. *)
Theorem loader_pass_cuts_the_sampler_order (dl : DataLoader) (w : World) :
  (0 < dl_batch_size dl)%nat ->
  let n := ds_len (dl_dataset dl) in
  let bs := dl_batch_size dl in
  let order := if dl_shuffle dl then randperm (rng w) n else seq 0 n in
  exists idx,
    (iter_indices dl w).2 = Ok idx
    /\ length idx = len dl
    /\ concat idx = order
    /\ forall i c, idx !! i = Some c ->
         c = take bs (drop (i * bs) order)
         /\ length c = (bs `min` (n - i * bs))%nat
         /\ (0 < length c)%nat.
Proof.
  intros Hbs n bs order. exists (chunks bs order).
  assert (length order = n) as Hlen.
  { unfold order. destruct (dl_shuffle dl); [apply randperm_length|apply length_seq]. }
  split; [|split; [|split]].
  - unfold iter_indices, order. by destruct (dl_shuffle dl).
  - rewrite length_chunks, Hlen by done. done.
  - by apply concat_chunks.
  - intros i c Hi. apply chunks_lookup in Hi as [-> Hlt]; [|done].
    split; [done|]. rewrite length_take, length_drop, Hlen in *.
    split; [done|]. fold bs in Hbs. lia.
Qed.

Lemma stack_field_shape ds k k' rows :
  stack_field ds k = Ok (k', rows) ->
  length rows = length ds /\ exists L, Forall (fun r => length r = L) rows.
Proof.
  unfold stack_field.
  destruct (rmapM _ ds) as [rows0|] eqn:E; [|done]. cbn [rbind].
  apply rmapM_length in E.
  destruct rows0 as [|r rows1] eqn:Er.
  - intros [= <- <-]. split; [done|]. by exists 0%nat.
  - destruct (forallb _ _) eqn:Hall; [|done]. intros [= <- <-]. split; [done|].
    exists (length r). apply Forall_forall. intros r' Hin.
    rewrite forallb_forall in Hall. apply list_elem_of_In, Hall in Hin.
    by apply Nat.eqb_eq in Hin.
Qed.

Lemma collate_dicts_shape ds fields k rows :
  collate_dicts ds = Ok fields -> fields !! k = Some rows ->
  length rows = length ds /\ exists L, Forall (fun r => length r = L) rows.
Proof.
  unfold collate_dicts. destruct ds as [|d0 ds']; [by intros [= <-]|].
  destruct (rmapM _ _) as [fs|] eqn:E; [|done]. cbn [rbind]. intros [= <-] Hk.
  apply elem_of_list_to_map_2 in Hk.
  apply rmapM_Ok_Forall2 in E.
  apply list_elem_of_lookup in Hk as [i Hi].
  destruct (Forall2_lookup_r _ _ _ _ _ E Hi) as (k0 & _ & Hs).
  by apply stack_field_shape in Hs.
Qed.

(** X5. Every tensor of a fetched batch has the batch size as its
    first dimension: the labels have one entry per index, and every
    field of the query inputs and of the document inputs has one row
    per index, all rows of one length. *)
Theorem fetched_batch_has_one_row_per_index (dl : DataLoader) (indices : list nat)
    (b : Batch) :
  fetch dl indices = Ok b ->
  length (labels b) = length indices
  /\ forall k rows,
       query_inputs b !! k = Some rows \/ doc_inputs b !! k = Some rows ->
       length rows = length indices
       /\ exists L, Forall (fun r => length r = L) rows.
Proof.
  unfold fetch. destruct (rmapM _ indices) as [exs|] eqn:E; [|done]. cbn [rbind].
  apply rmapM_length in E. unfold collate.
  destruct (collate_dicts (map ex_query_inputs exs)) as [q|] eqn:Eq; [|done]. cbn [rbind].
  destruct (collate_dicts (map ex_doc_inputs exs)) as [d|] eqn:Ed; [|done]. cbn [rbind].
  intros [= <-]. cbn. split; [by rewrite length_map|].
  intros k rows [Hk|Hk].
  - destruct (collate_dicts_shape _ _ _ _ Eq Hk) as [Hl HL].
    by rewrite Hl, length_map.
  - destruct (collate_dicts_shape _ _ _ _ Ed Hk) as [Hl HL].
    by rewrite Hl, length_map.
Qed.

Lemma foldM_fetch_raises {St} dl (body : St -> Batch -> M St) idx s w :
  Exists (fun chunk => exists e, fetch dl chunk = Raise e) idx ->
  exists e, (foldM (with_batch dl body) idx s w).2 = Raise e.
Proof.
  intros Hex. revert s w. induction Hex as [chunk idx [e He]|chunk idx _ IH]; intros s w.
  - exists e. cbn [foldM]. unfold m_bind, with_batch. by rewrite lift_bind, He.
  - cbn [foldM]. unfold m_bind.
    destruct (with_batch dl body s chunk w) as [w1 [s1|e]]; [apply IH|by exists e].
Qed.

End LoaderFacts.

(** ** Rules for specifications *)

Section TripleRules.

Lemma triple_ret {A} (P : World -> Prop) (a : A) Q E :
  (forall w, P w -> Q a w) -> triple P (mret a) Q E.
Proof. intros HQ w HP. cbn. by apply HQ. Qed.

Lemma triple_lift {A} (P : World -> Prop) (r : result A) Q E :
  (forall w, P w -> match r with Ok a => Q a w | Raise e => E e w end) ->
  triple P (lift r) Q E.
Proof. intros HQ w HP. specialize (HQ w HP). unfold lift. by destruct r. Qed.

Lemma triple_modify (P : World -> Prop) (f : World -> World) Q E :
  (forall w, P w -> Q tt (f w)) -> triple P (modify f) Q E.
Proof. intros HQ w HP. cbn. by apply HQ. Qed.

Lemma triple_gets {A} (P : World -> Prop) (f : World -> A) Q E :
  (forall w, P w -> Q (f w) w) -> triple P (gets f) Q E.
Proof. intros HQ w HP. cbn. by apply HQ. Qed.

Lemma triple_bind {A B} (P : World -> Prop) (c : M A) (k : A -> M B) Q1 Q E :
  triple P c Q1 E -> (forall a, triple (Q1 a) (k a) Q E) -> triple P (c ≫= k) Q E.
Proof.
  intros Hc Hk w HP. unfold mbind, M_bind, m_bind.
  specialize (Hc w HP). destruct (c w) as [w1 [a|e]]; [|done].
  by apply Hk.
Qed.

Lemma triple_conseq {A} (P P' : World -> Prop) (c : M A) (Q Q' : A -> World -> Prop)
    (E E' : exn -> World -> Prop) :
  triple P' c Q' E' ->
  (forall w, P w -> P' w) -> (forall a w, Q' a w -> Q a w) ->
  (forall e w, E' e w -> E e w) ->
  triple P c Q E.
Proof.
  intros Hc HP HQ HE w Hw. specialize (Hc w (HP w Hw)).
  destruct (c w) as [w1 [a|e]]; auto.
Qed.

(** The loop rule: [I l s] holds when [l] is still to be processed and
    the loop variable is [s]. *)
Lemma triple_foldM {A St} (I : list A -> St -> World -> Prop) (body : St -> A -> M St)
    (l : list A) (s : St) E :
  (forall a l' s, triple (I (a :: l') s) (body s a) (I l') E) ->
  triple (I l s) (foldM body l s) (I []) E.
Proof.
  intros Hb. revert s. induction l as [|a l IH]; intros s.
  - intros w HI. done.
  - cbn [foldM]. apply (triple_bind _ (body s a) (foldM body l) (I l)); [apply Hb|].
    intros s'. apply IH.
Qed.

(** [no_grad]: the body runs with gradients disabled, and the mode it
    was entered with is back afterwards. *)
Lemma triple_no_grad {A} (P : World -> Prop) (body : M A) Q E :
  (forall g, triple (fun w => grad_enabled w = false /\ P (with_grad_enabled g w)) body
               (fun a w => Q a (with_grad_enabled g w))
               (fun e w => E e (with_grad_enabled g w))) ->
  triple P (no_grad body) Q E.
Proof.
  intros Hb w HP. unfold no_grad.
  specialize (Hb (grad_enabled w) (with_grad_enabled false w)).
  destruct (body (with_grad_enabled false w)) as [w1 r].
  apply Hb. split; [done|]. by destruct w.
Qed.

Lemma triple_for_batches `{RandomGen} {St} (P : World -> Prop)
    (I : list (list nat) -> St -> World -> Prop)
    (dl : DataLoader) (body : St -> Batch -> M St) (s0 : St) E :
  (forall w, P w ->
     I (batch_indices dl w) s0 (if dl_shuffle dl then with_rng S w else w)) ->
  (forall chunk l' s b, fetch dl chunk = Ok b ->
     triple (I (chunk :: l') s) (body s b) (I l') E) ->
  (forall chunk l' s e w, fetch dl chunk = Raise e -> I (chunk :: l') s w -> E e w) ->
  triple P (for_batches dl body s0) (I []) E.
Proof.
  intros Hinit Hbody Hfetch w HP. unfold for_batches, iter_indices.
  unfold mbind at 1, M_bind at 1, m_bind at 1.
  specialize (Hinit w HP). unfold batch_indices in Hinit.
  assert (forall idx w1, I idx s0 w1 ->
            match foldM (with_batch dl body) idx s0 w1 with
            | (w', Ok a) => I [] a w'
            | (w', Raise e) => E e w'
            end) as Hloop.
  { intros idx w1. apply (triple_foldM I). intros chunk l' s.
    unfold with_batch. intros w2 HI. rewrite lift_bind.
    destruct (fetch dl chunk) as [b|e] eqn:Hf.
    - by apply (Hbody chunk l' s b Hf).
    - by eapply Hfetch. }
  destruct (dl_shuffle dl); cbn; by apply Hloop.
Qed.

End TripleRules.

(** ** What the steps of a batch leave unchanged *)

Section Frames.
Context `{Elementary} `{Autograd} `{RandomGen}.

#[global] Instance calm_preorder : PreOrder calm.
Proof.
  split.
  - intros w. repeat split. exists []. by rewrite app_nil_r.
  - intros w1 w2 w3 (Hg1 & Ht1 & Ho1 & evs1 & He1 & Hf1) (Hg2 & Ht2 & Ho2 & evs2 & He2 & Hf2).
    repeat split; try congruence.
    exists (evs1 ++ evs2). rewrite He2, He1, app_assoc. split; [done|].
    by apply Forall_app.
Qed.

#[global] Instance quiet_preorder : PreOrder quiet.
Proof.
  split.
  - intros w. by repeat split.
  - intros w1 w2 w3 (Hg1 & Ht1 & Ho1) (Hg2 & Ht2 & Ho2). repeat split; congruence.
Qed.

Lemma calm_quiet w w' : calm w w' -> quiet w w'.
Proof. intros (? & ? & ? & _). by repeat split. Qed.

Lemma steps_calm_quiet {A} (c : M A) : steps calm c -> steps quiet c.
Proof. intros Hc w. apply calm_quiet, Hc. Qed.

Lemma step_param_modes lr w p :
  grad_enabled (step_param lr w p) = grad_enabled w
  /\ training (step_param lr w p) = training w
  /\ grads (step_param lr w p) = grads w
  /\ rng (step_param lr w p) = rng w.
Proof.
  unfold step_param. destruct (grads w !! p), (params w !! p); try done.
  by destruct (adamw_update _ _ _ _) as [v' s'].
Qed.

Lemma foldl_step_param_modes lr ps w :
  grad_enabled (foldl (step_param lr) w ps) = grad_enabled w
  /\ training (foldl (step_param lr) w ps) = training w
  /\ grads (foldl (step_param lr) w ps) = grads w
  /\ rng (foldl (step_param lr) w ps) = rng w.
Proof.
  revert w. induction ps as [|p ps IH]; intros w; [done|].
  cbn [foldl]. destruct (IH (step_param lr w p)) as (Hg & Ht & Hgr & Hr).
  destruct (step_param_modes lr w p) as (Hg' & Ht' & Hgr' & Hr').
  repeat split; congruence.
Qed.

Lemma calm_zero_grad : steps calm zero_grad.
Proof.
  intros w. cbn. repeat split. eexists. split; [reflexivity|]. by repeat constructor.
Qed.

Lemma calm_backward l leaves ctx : steps calm (backward l leaves ctx).
Proof.
  intros w. unfold backward. destruct leaves; cbn; [reflexivity|].
  repeat split. eexists. split; [reflexivity|]. by repeat constructor.
Qed.

Lemma calm_optimizer_step : steps calm optimizer_step.
Proof.
  intros w. cbn.
  set (w1 := with_trace _ w).
  destruct (foldl_step_param_modes (group_lr (optimizer w)) (param_group (optimizer w)) w1)
    as (Hg & Ht & _ & _).
  split; [by rewrite Hg|]. split; [by rewrite Ht|].
  split; [by rewrite stdout_foldl_step_param|].
  rewrite trace_foldl_step_param. eexists. split; [reflexivity|]. by repeat constructor.
Qed.

Lemma calm_scheduler_step : steps calm scheduler_step.
Proof.
  intros w. cbn. repeat split. eexists. split; [reflexivity|]. by repeat constructor.
Qed.

Lemma calm_update (a : xreal) :
  steps calm (optimizer_step ≫= fun _ => scheduler_step ≫= fun _ => mret a).
Proof.
  apply steps_bind; [apply _|apply calm_optimizer_step|]. intros _.
  apply steps_bind; [apply _|apply calm_scheduler_step|]. intros _.
  apply steps_ret, _.
Qed.

(** What a forward pass does to the world. *)
Lemma forward_world m q d w :
  (forward m q d w).1
  = with_trace (fun t => t ++ [EvForward (model_id m) (grad_enabled w) (mode_of w m)]) w.
Proof. unfold forward. by destruct (forward_scores _ _ _ _ _) as [[[? ?] ?]|]. Qed.

Lemma no_grad_forward_world m q d w :
  (no_grad (forward m q d) w).1
  = with_trace (fun t => t ++ [EvForward (model_id m) false (mode_of w m)]) w.
Proof.
  unfold no_grad.
  pose proof (forward_world m q d (with_grad_enabled false w)) as Hf.
  destruct (forward m q d (with_grad_enabled false w)) as [w1 r]. cbn in *.
  subst w1. by destruct w.
Qed.

Lemma quiet_forward m q d : steps quiet (forward m q d).
Proof. intros w. rewrite forward_world. by repeat split. Qed.

Lemma quiet_forward_no_grad m q d : steps quiet (no_grad (forward m q d)).
Proof. intros w. rewrite no_grad_forward_world. by repeat split. Qed.

Lemma quiet_train_batch model teacher_model loss_fn alpha temperature total batch :
  steps quiet (train_batch model teacher_model loss_fn alpha temperature total batch).
Proof.
  apply steps_train_batch; try apply _.
  - apply quiet_forward.
  - apply quiet_forward_no_grad.
  - apply steps_calm_quiet, calm_zero_grad.
  - intros. apply steps_calm_quiet, calm_backward.
  - intros. apply steps_calm_quiet, calm_update.
Qed.

Lemma quiet_train_loop model teacher_model loss_fn alpha temperature dl s0 :
  steps quiet (for_batches dl (train_batch model teacher_model loss_fn alpha temperature) s0).
Proof.
  apply steps_for_batches; try apply _.
  - intros w f. by repeat split.
  - intros s b. apply quiet_train_batch.
Qed.

Lemma quiet_eval_loop model loss_fn dl s0 :
  steps quiet (for_batches dl (evaluate_batch model loss_fn) s0).
Proof.
  apply steps_for_batches; try apply _.
  - intros w f. by repeat split.
  - intros s b. apply steps_evaluate_batch; try apply _. apply quiet_forward.
Qed.

Lemma triple_of_steps {A} (R : relation World) (c : M A) (P : World -> Prop)
    (Q : A -> World -> Prop) (E : exn -> World -> Prop) :
  steps R c ->
  (forall w w', P w -> R w w' -> (forall a, Q a w') /\ (forall e, E e w')) ->
  triple P c Q E.
Proof.
  intros Hc HR w HP. specialize (Hc w). specialize (HR w (c w).1 HP Hc).
  destruct (c w) as [w' [a|e]]; cbn in *; apply HR.
Qed.

Lemma triple_conj {A} (c : M A) (P P' : World -> Prop) (Q Q' : A -> World -> Prop)
    (E E' : exn -> World -> Prop) :
  triple P c Q E -> triple P' c Q' E' ->
  triple (fun w => P w /\ P' w) c (fun a w => Q a w /\ Q' a w) (fun e w => E e w /\ E' e w).
Proof.
  intros H1' H2' w [HP HP']. specialize (H1' w HP). specialize (H2' w HP').
  by destruct (c w) as [w' [a|e]].
Qed.

Lemma triple_exists {A X} (c : M A) (P : X -> World -> Prop) Q E :
  (forall x, triple (P x) c Q E) -> triple (fun w => exists x, P x w) c Q E.
Proof. intros Hx w [x HP]. by apply (Hx x). Qed.

End Frames.

(** ** [evaluate] at the edges *)

Section EvaluateFacts.
Context `{RandomGen}.

Lemma chunks_nil {A} bs : chunks bs (@nil A) = [].
Proof. done. Qed.

Lemma len_empty dl : ds_len (dl_dataset dl) = 0%nat -> len dl = 0%nat.
Proof.
  intros Hn. unfold len. rewrite Hn. destruct (dl_batch_size dl) as [|bs]; [done|].
  apply Nat.div_small. lia.
Qed.

(** [evaluate] over a loader without examples. *)
Lemma evaluate_empty model dl loss_fn w :
  ds_len (dl_dataset dl) = 0%nat -> dl_shuffle dl = false ->
  evaluate model dl loss_fn w
  = (with_training (<[model_id model := false]>) w, Raise ZeroDivisionError).
Proof.
  intros Hn Hs. rewrite evaluate_unfold. cbn zeta.
  unfold batch_indices. rewrite Hs, Hn. cbn [seq]. rewrite chunks_nil. cbn [foldM m_ret fst snd].
  rewrite (len_empty dl Hn). cbn. by destruct w.
Qed.

(** What [evaluate] does to the world. *)
Lemma evaluate_effects model dl loss_fn w :
  let r := evaluate model dl loss_fn w in
  grad_enabled r.1 = grad_enabled w
  /\ training r.1 = <[model_id model := false]> (training w)
  /\ (exists n, trace r.1 = trace w ++ replicate n (EvForward (model_id model) false false))
  /\ match r.2 with
     | Ok _ => len dl <> 0%nat /\ exists v, stdout r.1 = stdout w ++ [ValidationLoss v]
     | Raise _ => stdout r.1 = stdout w
     end.
Proof.
  cbn zeta. rewrite evaluate_unfold. cbn zeta.
  set (w0 := with_grad_enabled false (with_training (<[model_id model := false]>) w)).
  set (wr := if dl_shuffle dl then with_rng S w0 else w0).
  destruct (evaluate_loop model dl loss_fn (batch_indices dl w) (Fin 0) wr) as (n & Hw & _).
  cbn zeta in Hw.
  assert (grad_enabled wr = false) as Hg by (unfold wr; by destruct (dl_shuffle dl)).
  assert (mode_of wr model = false) as Hm.
  { unfold wr, mode_of. destruct (dl_shuffle dl); cbn; by rewrite lookup_insert_eq. }
  assert (training wr = <[model_id model := false]> (training w) /\ trace wr = trace w
          /\ stdout wr = stdout w) as (Ht & Htr & Hso).
  { unfold wr. by destruct (dl_shuffle dl). }
  rewrite Hg, Hm in Hw.
  set (run := foldM _ (batch_indices dl w) (Fin 0) wr) in *.
  destruct run as [wl [total|e]]; cbn [fst snd] in *; subst wl.
  - destruct (py_div total (len dl)) as [avg|e] eqn:Hd; cbn.
    + rewrite Ht, Htr, Hso. repeat split; try done.
      * by exists n.
      * intros Hz. rewrite Hz in Hd. done.
      * by exists avg.
    + rewrite Ht, Htr, Hso. repeat split; try done. by exists n.
  - cbn. rewrite Ht, Htr, Hso. repeat split; try done. by exists n.
Qed.

End EvaluateFacts.


Section EvaluateEdges.
Context `{RandomGen}.

(** X6. [evaluate] over a loader without examples (one that does not
    shuffle, as the validation loader) runs no batch and then divides
    by [len(val_loader) = 0]: it raises ZeroDivisionError, has put the
    model in evaluation mode and has printed nothing. *)
Theorem evaluate_without_examples_divides_by_zero (model : DualEncoderModel)
    (val_loader : DataLoader) loss_fn (w : World) :
  ds_len (dl_dataset val_loader) = 0%nat -> dl_shuffle val_loader = false ->
  let r := evaluate model val_loader loss_fn w in
  r.2 = Raise ZeroDivisionError
  /\ mode_of r.1 model = false
  /\ stdout r.1 = stdout w /\ trace r.1 = trace w
  /\ params r.1 = params w /\ grad_enabled r.1 = grad_enabled w.
Proof.
  intros Hn Hs. cbn zeta. rewrite (evaluate_empty _ _ _ _ Hn Hs). cbn.
  repeat split. unfold mode_of. cbn. by rewrite lookup_insert_eq.
Qed.

(** X7. When the documents or the labels of the validation set are
    fewer than its queries, [evaluate] never returns: the loader (in
    dataset order, with a positive batch size) asks for every index
    below the number of queries, and the batch that holds the last one
    cannot be fetched.  Nothing is printed. *)
Theorem evaluate_raises_on_short_lists (model : DualEncoderModel) (val_loader : DataLoader)
    loss_fn (w : World) :
  dl_shuffle val_loader = false -> (0 < dl_batch_size val_loader)%nat ->
  (length (ds_documents (dl_dataset val_loader)) < ds_len (dl_dataset val_loader)
   \/ length (ds_labels (dl_dataset val_loader)) < ds_len (dl_dataset val_loader))%nat ->
  let r := evaluate model val_loader loss_fn w in
  exists e, r.2 = Raise e /\ stdout r.1 = stdout w.
Proof.
  intros Hsh Hbs Hshort. cbn zeta.
  pose proof (evaluate_effects model val_loader loss_fn w) as (_ & _ & _ & Hout).
  cbn zeta in Hout.
  assert (exists e, (evaluate model val_loader loss_fn w).2 = Raise e) as [e He].
  { rewrite evaluate_unfold. cbn zeta.
    set (wr := if dl_shuffle val_loader then _ else _).
    destruct (foldM_fetch_raises val_loader (evaluate_batch model loss_fn)
                (batch_indices val_loader w) (Fin 0) wr) as [e He].
    2:{ rewrite He. by exists e. }
    set (ds := dl_dataset val_loader) in *. set (j := (ds_len ds - 1)%nat).
    assert (j ∈ concat (batch_indices val_loader w)) as Hj.
    { unfold batch_indices. rewrite Hsh, concat_chunks by done.
      apply list_elem_of_In, in_seq. unfold j. fold ds. lia. }
    apply list_elem_of_In, in_concat in Hj as (chunk & Hc & Hjc).
    apply Exists_exists. exists chunk. split; [by apply list_elem_of_In|].
    unfold fetch. fold ds.
    destruct (rmapM_raises (getitem ds) chunk) as [e He].
    { apply Exists_exists. exists j. split; [by apply list_elem_of_In|].
      exists IndexError. apply getitem_Raise. split; [done|]. unfold j, ds_len in *. lia. }
    exists e. by rewrite He. }
  exists e. split; [done|]. by rewrite He in Hout.
Qed.

End EvaluateEdges.

Section EvaluateSingles.
Context `{RandomGen}.

Lemma eval_loss_one_by_one model theta training b s q d :
  forward_scores model theta training (query_inputs b) (doc_inputs b) = Ok ([[Fin s]], q, d) ->
  eval_loss model theta training (MarginRankingLoss (Fin 1)) b = Ok (Fin 0).
Proof. intros Hf. unfold eval_loss. rewrite Hf. vm_compute. reflexivity. Qed.

Lemma foldl_xadd_zeros a (l : list xreal) :
  a =x= Fin 0 -> Forall (fun x => x = Fin 0) l -> foldl xadd a l =x= Fin 0.
Proof.
  intros Ha Hl. revert a Ha. induction Hl as [|x l -> _ IH]; intros a Ha; [done|].
  cbn [foldl]. apply IH. rewrite Ha. cbn. reflexivity.
Qed.

(** X21. With one example per batch the masked row maximum of every
    validation batch is -inf and its ranking loss is 0: when the
    scores are finite numbers, a run of [evaluate] that returns
    reports the validation loss 0, whatever the model. *)
Theorem evaluate_with_single_example_batches_reports_zero (model : DualEncoderModel)
    (val_loader : DataLoader) (w w' : World) :
  dl_shuffle val_loader = false -> dl_batch_size val_loader = 1%nat ->
  single_scores model val_loader (params w) ->
  evaluate model val_loader (MarginRankingLoss (Fin 1)) w = (w', Ok tt) ->
  exists v, stdout w' = stdout w ++ [ValidationLoss v] /\ v =x= Fin 0.
Proof.
  intros Hsh Hbs Hone Hrun. rewrite evaluate_unfold in Hrun. cbn zeta in Hrun.
  rewrite Hsh in Hrun.
  set (wr := with_grad_enabled false (with_training (<[model_id model := false]>) w)) in *.
  destruct (evaluate_loop model val_loader (MarginRankingLoss (Fin 1))
              (batch_indices val_loader w) (Fin 0) wr) as (n & Hw & Hr).
  cbn zeta in Hw, Hr.
  destruct (foldM _ (batch_indices val_loader w) (Fin 0) wr) as [wl [total|e]];
    cbn [fst snd] in *; [|done].
  destruct Hr as (losses & Hl & ->).
  destruct (py_div _ (len val_loader)) as [avg|e] eqn:Hd; [|done].
  injection Hrun as <-. exists avg. split; [by rewrite Hw|].
  assert (Forall (fun x => x = Fin 0) losses) as Hz.
  { apply rmapM_Ok_Forall2 in Hl. apply Forall_forall. intros x Hx.
    apply list_elem_of_lookup in Hx as [i Hi].
    destruct (Forall2_lookup_r _ _ _ _ _ Hl Hi) as (chunk & Hc & Hloss).
    destruct (fetch val_loader chunk) as [b|] eqn:Hf; [|done]. cbn [rbind] in Hloss.
    assert (chunk ∈ batch_indices val_loader w) as Hin by (by eapply list_elem_of_lookup_2).
    unfold batch_indices in Hin. rewrite Hsh in Hin.
    destruct (forward_scores model (params wr) (mode_of wr model)
                (query_inputs b) (doc_inputs b)) as [[[scores q] d]|] eqn:Hs.
    2:{ unfold eval_loss in Hloss. by rewrite Hs in Hloss. }
    destruct (Hone chunk b _ scores q d Hin Hf Hs) as [s ->].
    rewrite (eval_loss_one_by_one _ _ _ _ _ _ _ Hs) in Hloss. by injection Hloss as <-. }
  unfold py_div in Hd. destruct (len val_loader) as [|k]; [done|]. injection Hd as <-.
  pose proof (foldl_xadd_zeros (Fin 0) losses (reflexivity _) Hz) as Ht.
  rewrite Ht. rewrite xdiv_of_nat by lia. cbn. unfold Qdiv. ring.
Qed.

End EvaluateSingles.

(** ** The epoch loop of [train] *)

Section EpochFacts.
Context `{Elementary} `{Autograd} `{RandomGen}.
Context (model teacher_model : DualEncoderModel) (train_loader val_loader : DataLoader).
Context (loss_fn : vec -> vec -> vec -> result xreal) (epochs : nat).
Context (alpha temperature : xreal).
Context (Pa : xreal -> Prop).
Hypothesis Pa_loop : forall w total w' avg,
  for_batches train_loader (train_batch model teacher_model loss_fn alpha temperature)
    (Fin 0) w = (w', Ok total) ->
  py_div total (len train_loader) = Ok avg -> Pa avg.

(** One epoch: the modes it leaves, and what it prints. *)
Lemma train_epoch_spec out g0 u e :
  triple (fun w => stdout w = out /\ grad_enabled w = g0)
    (train_epoch model teacher_model train_loader val_loader loss_fn epochs
       alpha temperature u e)
    (fun _ w' =>
       grad_enabled w' = g0
       /\ training w' !! model_id model = Some false
       /\ (model_id model <> model_id teacher_model ->
           training w' !! model_id teacher_model = Some false)
       /\ len train_loader <> 0%nat /\ len val_loader <> 0%nat
       /\ exists a v,
            stdout w' = out ++ [AverageLoss (e + 1) epochs a; ValidationLoss v] /\ Pa a)
    (fun ex w' =>
       stdout w' = out
       \/ exists a, stdout w' = out ++ [AverageLoss (e + 1) epochs a]
                    /\ (ds_len (dl_dataset val_loader) = 0%nat ->
                        dl_shuffle val_loader = false -> ex = ZeroDivisionError)).
Proof.
  intros w [Ho Hg]. unfold train_epoch.
  erewrite bind_ok; [|reflexivity].
  erewrite bind_ok; [|reflexivity].
  set (w2 := with_training _ (with_training _ w)).
  pose proof (quiet_train_loop model teacher_model loss_fn alpha temperature
                train_loader (Fin 0) w2) as (Hg3 & Ht3 & Ho3).
  pose proof (Pa_loop w2) as HPa.
  unfold mbind at 1, M_bind at 1, m_bind at 1.
  destruct (for_batches train_loader _ (Fin 0) w2) as [w3 [total|ex]]; cbn [fst] in *.
  2:{ left. by rewrite Ho3. }
  rewrite lift_bind.
  destruct (py_div total (len train_loader)) as [avg|ex] eqn:Hd.
  2:{ left. by rewrite Ho3. }
  specialize (HPa total w3 avg eq_refl Hd).
  erewrite bind_ok; [|reflexivity].
  set (w4 := with_stdout _ w3).
  pose proof (evaluate_effects model val_loader loss_fn w4) as (Hg5 & Ht5 & _ & Hr5).
  cbn zeta in *.
  destruct (decide (ds_len (dl_dataset val_loader) = 0%nat /\ dl_shuffle val_loader = false))
    as [[Hn Hs]|Hne].
  { rewrite (evaluate_empty _ _ _ _ Hn Hs). right. exists avg. cbn. rewrite Ho3. cbn.
    by rewrite Ho. }
  destruct (evaluate model val_loader loss_fn w4) as [w5 [[]|ex]]; cbn [fst snd] in *.
  - destruct Hr5 as (Hlen & v & Hv).
    split; [rewrite Hg5; cbn; rewrite Hg3; exact Hg|].
    split; [by rewrite Ht5, lookup_insert_eq|].
    split; [|split; [|split; [exact Hlen|]]].
    + intros Hne'. rewrite Ht5, lookup_insert_ne by done. cbn.
      rewrite Ht3. unfold w2. cbn. by rewrite lookup_insert_eq.
    + intros Hz. by rewrite Hz in Hd.
    + exists avg, v. split; [|done]. rewrite Hv. cbn. rewrite Ho3. cbn.
      by rewrite Ho, <- app_assoc.
  - right. exists avg. rewrite Hr5. cbn. rewrite Ho3. cbn. rewrite Ho.
    split; [done|]. tauto.
Qed.

(** The epochs [k], ..., [k + n - 1]. *)
Lemma epochs_spec out g0 k n :
  triple (fun w => stdout w = out /\ grad_enabled w = g0)
    (foldM (train_epoch model teacher_model train_loader val_loader loss_fn epochs
              alpha temperature) (seq k n) tt)
    (fun _ w' =>
       grad_enabled w' = g0
       /\ ((0 < n)%nat ->
           training w' !! model_id model = Some false
           /\ (model_id model <> model_id teacher_model ->
               training w' !! model_id teacher_model = Some false)
           /\ len train_loader <> 0%nat /\ len val_loader <> 0%nat)
       /\ exists reps,
            length reps = n /\ stdout w' = out ++ report_lines epochs k reps
            /\ Forall (fun r => Pa r.1) reps)
    (fun _ _ => True).
Proof.
  revert out k. induction n as [|n IH]; intros out k.
  - intros w [Ho Hg]. cbn. split; [done|]. split; [lia|].
    exists []. cbn. by rewrite app_nil_r.
  - cbn [seq foldM]. intros w HP.
    pose proof (train_epoch_spec out g0 tt k w HP) as He.
    unfold m_bind.
    destruct (train_epoch _ _ _ _ _ _ _ _ tt k w) as [w1 [[]|ex]]; [|done].
    destruct He as (Hg & Hs & Ht & Hl & Hv & a & v & Ho & HPa).
    specialize (IH _ (S k) w1 (conj Ho Hg)).
    destruct n as [|n'].
    + cbn [seq foldM m_ret]. split; [done|]. split; [done|].
      exists [(a, v)]. cbn [length report_lines]. split; [done|].
      split; [done|]. by repeat constructor.
    + destruct (foldM _ (seq (S k) (S n')) tt w1) as [w2 [[]|ex]]; [|done].
      destruct IH as (Hg2 & Hm2 & reps & Hlen & Ho2 & HF).
      split; [done|]. split; [intros _; apply Hm2; lia|].
      exists ((a, v) :: reps). cbn [length report_lines]. split; [by rewrite Hlen|].
      split; [|by constructor]. rewrite Ho2, <- app_assoc. done.
Qed.

End EpochFacts.

Section TrainFacts.
Context `{Elementary} `{Autograd} `{RandomGen}.

Lemma train_unfold model teacher_model tokenizer train_dataset val_dataset epochs bs
    learning_rate max_length alpha temperature w :
  train model teacher_model tokenizer train_dataset val_dataset epochs (S bs)
    learning_rate max_length alpha temperature w
  = foldM (train_epoch model teacher_model (train_loader_of train_dataset (S bs))
             (val_loader_of val_dataset (S bs)) (MarginRankingLoss (Fin 1))
             epochs alpha temperature)
      (seq 0 epochs) tt
      (after_setup model learning_rate
         (len (train_loader_of train_dataset (S bs)) * epochs) w).
Proof. reflexivity. Qed.

Lemma train_batch_size_0 model teacher_model tokenizer train_dataset val_dataset epochs
    learning_rate max_length alpha temperature w :
  train model teacher_model tokenizer train_dataset val_dataset epochs 0
    learning_rate max_length alpha temperature w = (w, Raise ValueError).
Proof. reflexivity. Qed.

Lemma after_setup_frame model lr total w :
  let w' := after_setup model lr total w in
  params w' = params w /\ grads w' = grads w /\ training w' = training w
  /\ grad_enabled w' = grad_enabled w /\ rng w' = rng w
  /\ stdout w' = stdout w /\ trace w' = trace w
  /\ param_group (optimizer w') = parameters model
  /\ opt_state (optimizer w') = ∅
  /\ sched_inv lr total w' /\ last_epoch (scheduler w') = 0%nat.
Proof. cbn. repeat split. Qed.

(** The epoch loop without validation examples stops in its first
    epoch. *)
Lemma epochs_stop_without_validation model teacher_model tl vl loss_fn epochs
    alpha temperature n w :
  ds_len (dl_dataset vl) = 0%nat -> dl_shuffle vl = false ->
  let r := foldM (train_epoch model teacher_model tl vl loss_fn epochs alpha temperature)
             (seq 0 (S n)) tt w in
  exists e, r.2 = Raise e
    /\ (stdout r.1 = stdout w
        \/ exists a, stdout r.1 = stdout w ++ [AverageLoss 1 epochs a]
                     /\ e = ZeroDivisionError).
Proof.
  intros Hn Hs. cbn zeta. cbn [seq foldM]. unfold m_bind.
  pose proof (train_epoch_spec model teacher_model tl vl loss_fn epochs alpha temperature
                (fun _ => True) (fun _ _ _ _ _ _ => I)
                (stdout w) (grad_enabled w) tt 0 w (conj eq_refl eq_refl)) as Hsp.
  destruct (train_epoch _ _ _ _ _ _ _ _ tt 0%nat w) as [w1 [[]|e]]; cbn [fst snd].
  - destruct Hsp as (_ & _ & _ & _ & Hl & _). by rewrite (len_empty vl Hn) in Hl.
  - exists e. split; [done|]. destruct Hsp as [Ho|(a & Ho & He)]; [by left|].
    right. exists a. split; [done|]. by apply He.
Qed.

(** The schedule at the end of a run that returns. *)
Lemma train_schedule_end model teacher_model tokenizer train_dataset val_dataset epochs
    bs learning_rate max_length alpha temperature w w' :
  train model teacher_model tokenizer train_dataset val_dataset epochs (S bs)
    learning_rate max_length alpha temperature w = (w', Ok tt) ->
  let total := (len (train_loader_of train_dataset (S bs)) * epochs)%nat in
  sched_inv learning_rate total w' /\ last_epoch (scheduler w') = total.
Proof.
  rewrite train_unfold. intros Hrun total.
  set (tl := train_loader_of train_dataset (S bs)) in *.
  set (vl := val_loader_of val_dataset (S bs)) in *.
  set (W2 := after_setup model learning_rate (len tl * epochs) w) in *.
  assert (sched_inv learning_rate total W2) as Hinv by done.
  pose proof (steps_epochs (scheduled learning_rate total) model teacher_model
                (fun w b => scheduled_silent _ _ w _ eq_refl eq_refl eq_refl)
                (fun w f => scheduled_silent _ _ w _ eq_refl eq_refl eq_refl)
                (fun w f => scheduled_silent _ _ w _ eq_refl eq_refl eq_refl)
                (fun w f => scheduled_silent _ _ w _ eq_refl eq_refl eq_refl)
                (scheduled_forward _ _ model)
                (scheduled_forward_no_grad _ _ teacher_model)
                (scheduled_zero_grad _ _) (scheduled_backward _ _)
                (scheduled_update _ _)
                tl vl (MarginRankingLoss (Fin 1)) epochs alpha temperature
                (seq 0 epochs) W2) as Hs.
  rewrite Hrun in Hs. cbn [fst] in Hs.
  destruct (Hs Hinv) as (Hinv' & _). split; [exact Hinv'|].
  eapply (ticks_foldM (len tl)) in Hrun.
  2:{ intros s a. by apply ticks_train_epoch; cbn; lia. }
  assert (last_epoch (scheduler W2) = 0%nat) as Hz by done.
  rewrite Hrun, length_seq, Hz. unfold total. lia.
Qed.

End TrainFacts.

Section TrainTheorems.
Context `{Elementary} `{Autograd} `{RandomGen}.

Lemma length_report_lines epochs k reps :
  length (report_lines epochs k reps) = (2 * length reps)%nat.
Proof.
  revert k. induction reps as [|[a v] reps IH]; intros k; [done|].
  cbn [report_lines length]. rewrite IH. lia.
Qed.

(** X8. With an empty validation set and at least one epoch, [train]
    never returns: it raises in its first epoch, and when that epoch's
    training has completed and printed its average, the exception is
    the ZeroDivisionError of [evaluate]. *)
Theorem train_without_validation_data_raises (model teacher_model : DualEncoderModel)
    tokenizer train_dataset val_dataset epochs batch_size learning_rate max_length
    alpha temperature (w : World) :
  ds_len val_dataset = 0%nat -> (0 < epochs)%nat ->
  let r := train model teacher_model tokenizer train_dataset val_dataset epochs
             batch_size learning_rate max_length alpha temperature w in
  exists e, r.2 = Raise e
    /\ (stdout r.1 = stdout w
        \/ exists a, stdout r.1 = stdout w ++ [AverageLoss 1 epochs a]
                     /\ e = ZeroDivisionError).
Proof.
  intros Hn He. cbn zeta. destruct batch_size as [|bs].
  { rewrite train_batch_size_0. exists ValueError. split; [done|by left]. }
  rewrite train_unfold. destruct epochs as [|n]; [lia|].
  set (w1 := after_setup _ _ _ w).
  destruct (epochs_stop_without_validation model teacher_model
              (train_loader_of train_dataset (S bs)) (val_loader_of val_dataset (S bs))
              (MarginRankingLoss (Fin 1)) (S n) alpha temperature n w1 Hn eq_refl)
    as (e & Hr & Ho).
  exists e. split; [exact Hr|]. exact Ho.
Qed.

(** X9. With [epochs = 0], a positive batch size, a training set that
    is not empty and a student that has parameters, [train] returns
    without a forward pass, an update or an output line; it leaves a
    fresh optimizer over the student's parameters, whose learning rate
    the schedule over 0 steps has set to [learning_rate * 0]. *)
Theorem train_zero_epochs (model teacher_model : DualEncoderModel)
    tokenizer train_dataset val_dataset batch_size learning_rate max_length
    alpha temperature (w : World) :
  (0 < batch_size)%nat -> (0 < ds_len train_dataset)%nat -> parameters model <> [] ->
  exists w',
    train model teacher_model tokenizer train_dataset val_dataset 0 batch_size
      learning_rate max_length alpha temperature w = (w', Ok tt)
    /\ params w' = params w /\ grads w' = grads w
    /\ trace w' = trace w /\ stdout w' = stdout w
    /\ training w' = training w
    /\ param_group (optimizer w') = parameters model
    /\ opt_state (optimizer w') = ∅
    /\ group_lr (optimizer w') =x= (learning_rate * Fin 0)%X.
Proof.
  intros Hbs _ _. destruct batch_size as [|bs]; [lia|].
  rewrite train_unfold. cbn [seq foldM m_ret]. eexists. split; [reflexivity|].
  destruct (after_setup_frame model learning_rate
              (len (train_loader_of train_dataset (S bs)) * 0) w)
    as (Hp & Hg & Ht & _ & _ & Ho & Htr & Hpg & Hst & (Hb & Hw & Htot & Hl) & Hle).
  repeat split; try done.
  rewrite Hl. unfold scheduled_lr. rewrite Hb, Hw, Htot, Hle, Nat.mul_0_r.
  apply xmul_proper; reflexivity.
Qed.

(** X10. When [train] returns, the schedule has reached its end: the
    learning rate of the optimizer is [learning_rate * 0]. *)
Theorem train_ends_at_learning_rate_zero (model teacher_model : DualEncoderModel)
    tokenizer train_dataset val_dataset epochs batch_size learning_rate max_length
    alpha temperature (w w' : World) :
  train model teacher_model tokenizer train_dataset val_dataset epochs batch_size
    learning_rate max_length alpha temperature w = (w', Ok tt) ->
  group_lr (optimizer w') =x= (learning_rate * Fin 0)%X.
Proof.
  intros Hrun. destruct batch_size as [|bs]; [done|].
  destruct (train_schedule_end _ _ _ _ _ _ _ _ _ _ _ _ _ Hrun) as ((Hb & Hw & Ht & Hl) & Hlast).
  rewrite Hl. unfold scheduled_lr. rewrite Hb, Hw, Ht, Hlast.
  apply xmul_proper; [reflexivity|]. cbn [xeq].
  set (total := (len (train_loader_of train_dataset (S bs)) * epochs)%nat).
  destruct (decide (total = 0%nat)) as [->|Hpos]; [reflexivity|].
  apply lr_lambda_end. lia.
Qed.

(** X11. A run of [train] that returns has printed two lines per
    epoch, in this order: the average training loss of epoch
    [e + 1], then the validation loss. *)
Theorem train_prints_two_lines_per_epoch (model teacher_model : DualEncoderModel)
    tokenizer train_dataset val_dataset epochs batch_size learning_rate max_length
    alpha temperature (w w' : World) :
  train model teacher_model tokenizer train_dataset val_dataset epochs batch_size
    learning_rate max_length alpha temperature w = (w', Ok tt) ->
  exists reps,
    length reps = epochs
    /\ stdout w' = stdout w ++ report_lines epochs 0 reps
    /\ length (stdout w') = (length (stdout w) + 2 * epochs)%nat.
Proof.
  intros Hrun. destruct batch_size as [|bs]; [done|].
  rewrite train_unfold in Hrun. set (w1 := after_setup _ _ _ w) in Hrun.
  pose proof (epochs_spec model teacher_model (train_loader_of train_dataset (S bs))
                (val_loader_of val_dataset (S bs)) (MarginRankingLoss (Fin 1)) epochs
                alpha temperature (fun _ => True) (fun _ _ _ _ _ _ => I)
                (stdout w) (grad_enabled w) 0 epochs w1 (conj eq_refl eq_refl)) as Hsp.
  rewrite Hrun in Hsp. destruct Hsp as (_ & _ & reps & Hlen & Ho & _).
  exists reps. split; [done|]. split; [done|].
  by rewrite Ho, length_app, length_report_lines, Hlen.
Qed.

(** X12. When [train] returns after at least one epoch, the student is
    left in evaluation mode, where the last [evaluate] has put it, the
    teacher is in evaluation mode, and the autograd mode is the one
    [train] was called in. *)
Theorem train_leaves_student_in_eval_mode (model teacher_model : DualEncoderModel)
    tokenizer train_dataset val_dataset epochs batch_size learning_rate max_length
    alpha temperature (w w' : World) :
  train model teacher_model tokenizer train_dataset val_dataset epochs batch_size
    learning_rate max_length alpha temperature w = (w', Ok tt) ->
  (0 < epochs)%nat ->
  mode_of w' model = false
  /\ (model_id model <> model_id teacher_model -> mode_of w' teacher_model = false)
  /\ grad_enabled w' = grad_enabled w.
Proof.
  intros Hrun He. destruct batch_size as [|bs]; [done|].
  rewrite train_unfold in Hrun. set (w1 := after_setup _ _ _ w) in Hrun.
  pose proof (epochs_spec model teacher_model (train_loader_of train_dataset (S bs))
                (val_loader_of val_dataset (S bs)) (MarginRankingLoss (Fin 1)) epochs
                alpha temperature (fun _ => True) (fun _ _ _ _ _ _ => I)
                (stdout w) (grad_enabled w) 0 epochs w1 (conj eq_refl eq_refl)) as Hsp.
  rewrite Hrun in Hsp. destruct Hsp as (Hg & Hm & _).
  destruct (Hm He) as (Hs & Ht & _). unfold mode_of.
  split; [by rewrite Hs|]. split; [|done]. intros Hne. by rewrite (Ht Hne).
Qed.

End TrainTheorems.

(** ** What a batch step has computed *)

Section BatchInversion.
Context `{Elementary} `{Autograd} `{RandomGen}.

Lemma forward_result m q d w :
  (forward m q d w).2
  = rbind (forward_scores m (params w) (mode_of w m) q d)
      (fun '(scores, q', d') =>
         Ok (scores, if grad_enabled w then parameters m else [], q', d')).
Proof. unfold forward. by destruct (forward_scores _ _ _ _ _) as [[[? ?] ?]|]. Qed.

Lemma no_grad_forward_result m q d w :
  (no_grad (forward m q d) w).2
  = rbind (forward_scores m (params w) (mode_of w m) q d)
      (fun '(scores, q', d') => Ok (scores, [], q', d')).
Proof.
  unfold no_grad.
  pose proof (forward_result m q d (with_grad_enabled false w)) as Hf.
  destruct (forward m q d (with_grad_enabled false w)) as [w1 r]. cbn in *. done.
Qed.

Lemma triple_any {A} (P : World -> Prop) (c : M A) :
  triple P c (fun _ _ => True) (fun _ _ => True).
Proof. intros w _. by destruct (c w) as [w' [a|e]]. Qed.

Lemma triple_skip {A B} (K : Prop) (c : M A) (k : A -> M B) Q :
  (forall a, triple (fun _ => K) (k a) Q (fun _ _ => True)) ->
  triple (fun _ => K) (c ≫= k) Q (fun _ _ => True).
Proof.
  intros Hk w HK. unfold mbind, M_bind, m_bind.
  destruct (c w) as [w1 [a|e]]; [by apply Hk|done].
Qed.

(** A batch step that returns has computed its loss from the scores of
    the two models. *)
Lemma train_batch_inv model teacher_model loss_fn alpha temperature s b w w' v :
  train_batch model teacher_model loss_fn alpha temperature s b w = (w', Ok v) ->
  exists ts q1 d1 ss q2 d2 l,
    forward_scores teacher_model (params w) (mode_of w teacher_model)
      (query_inputs b) (doc_inputs b) = Ok (ts, q1, d1)
    /\ forward_scores model (params w) (mode_of w model) q1 d1 = Ok (ss, q2, d2)
    /\ compose_loss loss_fn alpha temperature ts ss = Ok l
    /\ v = (s + loss l)%X.
Proof.
  intros Hrun.
  assert (triple (fun w1 => params w1 = params w /\ training w1 = training w)
            (train_batch model teacher_model loss_fn alpha temperature s b)
            (fun v _ =>
               exists ts q1 d1 ss q2 d2 l,
                 forward_scores teacher_model (params w) (mode_of w teacher_model)
                   (query_inputs b) (doc_inputs b) = Ok (ts, q1, d1)
                 /\ forward_scores model (params w) (mode_of w model) q1 d1
                    = Ok (ss, q2, d2)
                 /\ compose_loss loss_fn alpha temperature ts ss = Ok l
                 /\ v = (s + loss l)%X)
            (fun _ _ => True)) as Ht.
  { unfold train_batch.
    apply (triple_bind _ _ _
             (fun r w1 =>
                (params w1 = params w /\ training w1 = training w)
                /\ forward_scores teacher_model (params w) (mode_of w teacher_model)
                     (query_inputs b) (doc_inputs b) = Ok (r.1.1.1, r.1.2, r.2))).
    { intros w1 [Hp Hm].
      pose proof (no_grad_forward_world teacher_model (query_inputs b) (doc_inputs b) w1) as Hw.
      pose proof (no_grad_forward_result teacher_model (query_inputs b) (doc_inputs b) w1) as Hr.
      destruct (no_grad _ w1) as [w2 [[[[ts lv] q1] d1]|e]]; [|done]. cbn [fst snd] in *.
      subst w2. split; [done|]. unfold mode_of in *. rewrite Hp, Hm in Hr.
      destruct (forward_scores teacher_model _ _ _ _) as [[[? ?] ?]|]; [|done].
      cbn in Hr. by simplify_eq. }
    intros [[[ts lv] q1] d1]. cbn [fst snd].
    apply (triple_bind _ _ _
             (fun r w1 =>
                forward_scores teacher_model (params w) (mode_of w teacher_model)
                  (query_inputs b) (doc_inputs b) = Ok (ts, q1, d1)
                /\ forward_scores model (params w) (mode_of w model) q1 d1
                   = Ok (r.1.1.1, r.1.2, r.2))).
    { intros w1 [[Hp Hm] Hts].
      pose proof (forward_result model q1 d1 w1) as Hr.
      destruct (forward model q1 d1 w1) as [w2 [[[[ss lv'] q2] d2]|e]]; [|done].
      cbn [fst snd] in *. split; [done|]. unfold mode_of in *. rewrite Hp, Hm in Hr.
      destruct (forward_scores model _ _ _ _) as [[[? ?] ?]|]; [|done].
      cbn in Hr. by simplify_eq. }
    intros [[[ss lv'] q2] d2]. cbn [fst snd].
    apply (triple_bind _ _ _
             (fun l _ =>
                forward_scores teacher_model (params w) (mode_of w teacher_model)
                  (query_inputs b) (doc_inputs b) = Ok (ts, q1, d1)
                /\ forward_scores model (params w) (mode_of w model) q1 d1
                   = Ok (ss, q2, d2)
                /\ compose_loss loss_fn alpha temperature ts ss = Ok l)).
    { apply triple_lift. intros w1 [Hts Hss].
      by destruct (compose_loss loss_fn alpha temperature ts ss). }
    intros l.
    apply triple_skip. intros _. apply triple_skip. intros theta.
    apply triple_skip. intros _. apply triple_skip. intros _.
    apply triple_skip.
    intros _. intros w1 (Hts & Hss & Hl). cbn.
    by exists ts, q1, d1, ss, q2, d2, l. }
  specialize (Ht w (conj eq_refl eq_refl)). by rewrite Hrun in Ht.
Qed.

(** The combined loss of a batch step is not finite as soon as the
    teacher's score matrix has an entry. *)
Lemma batch_loss_not_finite alpha temperature t r T ss l :
  compose_loss (MarginRankingLoss (Fin 1)) alpha temperature ((t :: r) :: T) ss = Ok l ->
  is_finite (loss l) = false.
Proof.
  intros Hc. destruct ss as [|[|a r'] S'].
  - cbn in Hc. injection Hc as <-. cbn. by destruct alpha.
  - done.
  - by apply train_loss_not_finite in Hc as [_ ?].
Qed.

Lemma xadd_not_finite_r a b : is_finite b = false -> is_finite (a + b)%X = false.
Proof.
  intros Hb. apply not_true_is_false. intros [_ ?]%xadd_finite. congruence.
Qed.

Lemma xadd_not_finite_l a b : is_finite a = false -> is_finite (a + b)%X = false.
Proof.
  intros Hb. apply not_true_is_false. intros [? _]%xadd_finite. congruence.
Qed.

Lemma train_loop_not_finite model teacher_model alpha temperature dl k idx :
  answers teacher_model dl ->
  (forall c, c ∈ idx -> c ∈ chunks (dl_batch_size dl) (randperm k (ds_len (dl_dataset dl)))) ->
  forall s w w' total,
    foldM (with_batch dl (train_batch model teacher_model (MarginRankingLoss (Fin 1))
                            alpha temperature)) idx s w = (w', Ok total) ->
    idx <> [] \/ is_finite s = false ->
    is_finite total = false.
Proof.
  intros Hans. induction idx as [|chunk idx IH]; intros Hin s w w' total Hrun Hs.
  - cbn in Hrun. injection Hrun as <- <-. by destruct Hs.
  - cbn [foldM] in Hrun. unfold m_bind in Hrun.
    unfold with_batch at 1 in Hrun. rewrite lift_bind in Hrun.
    destruct (fetch dl chunk) as [b|e] eqn:Hf; [|done].
    destruct (train_batch _ _ _ _ _ s b w) as [w1 [s1|e]] eqn:Hb; [|done].
    apply train_batch_inv in Hb as (ts & q1 & d1 & ss & q2 & d2 & l & Hts & Hss & Hl & ->).
    destruct (Hans k chunk b _ _ _ _ _ (Hin chunk (list_elem_of_here _ _)) Hf Hts)
      as (t & r & T & ->).
    apply batch_loss_not_finite in Hl.
    eapply IH; [|exact Hrun|].
    + intros c Hc. apply Hin. by apply list_elem_of_further.
    + right. by apply xadd_not_finite_r.
Qed.

Lemma train_average_not_finite model teacher_model alpha temperature dl w w' total avg :
  answers teacher_model dl -> dl_shuffle dl = true ->
  for_batches dl (train_batch model teacher_model (MarginRankingLoss (Fin 1))
                    alpha temperature) (Fin 0) w = (w', Ok total) ->
  py_div total (len dl) = Ok avg ->
  is_finite avg = false.
Proof.
  intros Hans Hsh Hrun Hd.
  unfold for_batches, iter_indices in Hrun. rewrite Hsh in Hrun.
  unfold mbind at 1, M_bind at 1, m_bind at 1 in Hrun. cbn beta iota in Hrun.
  assert (dl_batch_size dl <> 0%nat /\ len dl <> 0%nat) as [Hbs Hlen].
  { unfold py_div in Hd. destruct (len dl) eqn:E; [done|]. split; [|done].
    intros Hz. unfold len in E. by rewrite Hz in E. }
  eapply train_loop_not_finite in Hrun; [| exact Hans | by intros c Hc |].
  - unfold py_div in Hd. destruct (len dl); [done|]. injection Hd as <-.
    apply not_true_is_false. intros Hf%xdiv_finite. congruence.
  - left. intros Hnil. apply (f_equal length) in Hnil.
    rewrite length_chunks, randperm_length in Hnil by lia. done.
Qed.

(** X13. If the teacher's score matrix has an entry on every training
    batch, every average training loss that a returning run of [train]
    prints is not a finite number. *)
Theorem train_prints_non_finite_averages (model teacher_model : DualEncoderModel)
    tokenizer train_dataset val_dataset epochs batch_size learning_rate max_length
    alpha temperature (w w' : World) :
  answers teacher_model (train_loader_of train_dataset batch_size) ->
  train model teacher_model tokenizer train_dataset val_dataset epochs batch_size
    learning_rate max_length alpha temperature w = (w', Ok tt) ->
  exists reps,
    length reps = epochs
    /\ stdout w' = stdout w ++ report_lines epochs 0 reps
    /\ Forall (fun r => is_finite r.1 = false) reps.
Proof.
  intros Hans Hrun. destruct batch_size as [|bs]; [done|].
  rewrite train_unfold in Hrun. set (w1 := after_setup _ _ _ w) in Hrun.
  pose proof (epochs_spec model teacher_model (train_loader_of train_dataset (S bs))
                (val_loader_of val_dataset (S bs)) (MarginRankingLoss (Fin 1)) epochs
                alpha temperature (fun a => is_finite a = false)
                (fun w0 total w0' avg =>
                   train_average_not_finite model teacher_model alpha temperature
                     (train_loader_of train_dataset (S bs)) w0 w0' total avg Hans eq_refl)
                (stdout w) (grad_enabled w) 0 epochs w1 (conj eq_refl eq_refl)) as Hsp.
  rewrite Hrun in Hsp. destruct Hsp as (_ & _ & reps & Hlen & Ho & HF).
  by exists reps.
Qed.

Lemma forward_scores_pops m theta training q d scores q' d' :
  forward_scores m theta training q d = Ok (scores, q', d') ->
  q' = popped m q /\ d' = popped m d.
Proof.
  unfold forward_scores, popped. intros Hf.
  match type of Hf with rbind ?c _ = _ => destruct c as [[qe de]|] end; [|done].
  cbn in Hf. destruct (matmul_t qe de); [|done]. cbn in Hf.
  by injection Hf as <- <- <-.
Qed.

(** X14. A batch step that returns has scored the batch with the
    teacher first and then with the student, both under the parameters
    from before the update.  The student received the input dicts as
    the teacher's forward pass left them: without [token_type_ids]
    when one of the teacher's encoders is a DistilBERT.  What the step
    adds to the running total is the combined loss of these two score
    matrices. *)
Theorem batch_step_scores_the_same_inputs (model teacher_model : DualEncoderModel)
    loss_fn alpha temperature total batch (w w' : World) (v : xreal) :
  train_batch model teacher_model loss_fn alpha temperature total batch w = (w', Ok v) ->
  let q1 := popped teacher_model (query_inputs batch) in
  let d1 := popped teacher_model (doc_inputs batch) in
  exists teacher_scores student_scores l,
    forward_scores teacher_model (params w) (mode_of w teacher_model)
      (query_inputs batch) (doc_inputs batch) = Ok (teacher_scores, q1, d1)
    /\ forward_scores model (params w) (mode_of w model) q1 d1
       = Ok (student_scores, popped model q1, popped model d1)
    /\ compose_loss loss_fn alpha temperature teacher_scores student_scores = Ok l
    /\ v = (total + loss l)%X.
Proof.
  intros (ts & q1 & d1 & ss & q2 & d2 & l & Hts & Hss & Hl & ->)%train_batch_inv.
  destruct (forward_scores_pops _ _ _ _ _ _ _ _ Hts) as [-> ->].
  destruct (forward_scores_pops _ _ _ _ _ _ _ _ Hss) as [-> ->].
  by exists ts, ss, l.
Qed.

End BatchInversion.

(** ** The modes of the forward passes *)

Section Modes.
Context `{Elementary} `{Autograd} `{RandomGen}.
Context (model teacher_model : DualEncoderModel).
Context (g0 : bool) (w0 : World).
Hypothesis distinct : model_id model <> model_id teacher_model.

#[local] Abbreviation sid := (model_id model).
#[local] Abbreviation tid := (model_id teacher_model).
#[local] Abbreviation I0 := (forwards_ok (model_id model) (model_id teacher_model) g0 w0).
#[local] Abbreviation I1 := (batch_ready (model_id model) (model_id teacher_model) g0 w0).

Lemma modes_event w ev :
  I0 w -> mode_ok sid tid g0 ev -> I0 (with_trace (fun t => t ++ [ev]) w).
Proof.
  intros (Hg & evs & Ht & Hf) Hev. split; [done|].
  exists (evs ++ [ev]). cbn. rewrite Ht, app_assoc. split; [done|].
  apply Forall_app. split; [done|]. by constructor.
Qed.

Lemma modes_calm w w' : calm w w' -> I1 w -> I1 w'.
Proof.
  intros (Hg & Ht & _ & evs' & He & Hf) ((Hg0 & evs & Hev & Hok) & Hs & Htt).
  split; [split|].
  - congruence.
  - exists (evs ++ evs'). rewrite He, Hev, app_assoc. split; [done|].
    apply Forall_app. split; [done|]. eapply Forall_impl; [exact Hf|].
    intros [] Hx; done.
  - by rewrite Ht.
Qed.

Lemma modes_of_calm {A} (c : M A) :
  steps calm c -> triple I1 c (fun _ => I1) (fun _ => I1).
Proof.
  intros Hc. apply (triple_of_steps calm); [done|].
  intros w w' HI Hcalm. split; intros _; by eapply modes_calm.
Qed.

Lemma modes_train_batch loss_fn alpha temperature total batch :
  triple I1 (train_batch model teacher_model loss_fn alpha temperature total batch)
    (fun _ => I1) (fun _ => I1).
Proof.
  unfold train_batch.
  apply (triple_bind _ _ _ (fun _ => I1)).
  { intros w (HI & Hs & Ht).
    pose proof (no_grad_forward_world teacher_model (query_inputs batch) (doc_inputs batch) w)
      as Hw.
    assert (I1 (no_grad (forward teacher_model (query_inputs batch) (doc_inputs batch)) w).1)
      as HI1.
    { rewrite Hw. split; [|done]. apply modes_event; [done|].
      unfold mode_of. rewrite Ht. cbn. split; [done|]. intros _. by right. }
    by destruct (no_grad _ w) as [w1 [r|e]]. }
  intros [[[teacher_scores tl] q1] d1].
  apply (triple_bind _ _ _ (fun _ => I1)).
  { intros w (HI & Hs & Ht).
    pose proof (forward_world model q1 d1 w) as Hw.
    assert (I1 (forward model q1 d1 w).1) as HI1.
    { rewrite Hw. split; [|done]. apply modes_event; [done|].
      unfold mode_of. rewrite Hs. cbn. destruct HI as [Hg _]. rewrite Hg.
      split; [|intros _; by left]. intros E. by destruct distinct. }
    by destruct (forward model q1 d1 w) as [w1 [r|e]]. }
  intros [[[student_scores leaves] q2] d2].
  apply (triple_bind _ _ _ (fun _ => I1)).
  { apply triple_lift. intros w HI. by destruct (compose_loss _ _ _ _ _). }
  intros lo.
  apply (triple_bind _ _ _ (fun _ => I1)); [apply modes_of_calm, calm_zero_grad|].
  intros _.
  apply (triple_bind _ _ _ (fun _ => I1)); [by apply triple_gets|].
  intros theta.
  apply (triple_bind _ _ _ (fun _ => I1)); [apply modes_of_calm, calm_backward|].
  intros _. apply modes_of_calm, calm_update.
Qed.

Lemma modes_evaluate val_loader loss_fn :
  triple I0 (evaluate model val_loader loss_fn) (fun _ => I0) (fun _ => I0).
Proof.
  intros w (Hg & evs & Ht & Hf).
  pose proof (evaluate_effects model val_loader loss_fn w) as (Hg' & _ & (n & Hn) & _).
  cbn zeta in *.
  assert (I0 (evaluate model val_loader loss_fn w).1) as HI.
  { split; [congruence|]. eexists. rewrite Hn, Ht, <- app_assoc. split; [reflexivity|].
    apply Forall_app. split; [done|]. apply Forall_replicate. cbn.
    split; [done|]. intros _. by right. }
  by destruct (evaluate model val_loader loss_fn w) as [w1 [r|e]].
Qed.

Lemma modes_train_epoch train_loader val_loader loss_fn epochs alpha temperature u e :
  triple I0 (train_epoch model teacher_model train_loader val_loader loss_fn epochs
               alpha temperature u e) (fun _ => I0) (fun _ => I0).
Proof.
  unfold train_epoch.
  apply (triple_bind _ _ _ (fun _ w => I0 w /\ training w !! sid = Some true)).
  { apply triple_modify. intros w HI. split; [exact HI|]. cbn. by rewrite lookup_insert_eq. }
  intros _. apply (triple_bind _ _ _ (fun _ => I1)).
  { apply triple_modify. intros w [HI Hs]. split; [exact HI|]. cbn.
    rewrite lookup_insert_eq, lookup_insert_ne by (intros E; by destruct distinct). done. }
  intros _. apply (triple_bind _ _ _ (fun _ => I0)).
  { apply (triple_conseq _ I1 _ _ (fun _ => I1) _ (fun _ => I1)); [|done| |].
    - apply (triple_for_batches I1 (fun _ _ => I1)).
      + intros w HI. by destruct (dl_shuffle train_loader).
      + intros chunk l' s b _. apply modes_train_batch.
      + by intros.
    - by intros _ w [HI _].
    - by intros _ w [HI _]. }
  intros total. apply (triple_bind _ _ _ (fun _ => I0)).
  { apply triple_lift. intros w HI. by destruct (py_div _ _). }
  intros avg. apply (triple_bind _ _ _ (fun _ => I0)); [by apply triple_modify|].
  intros _. apply modes_evaluate.
Qed.

Lemma modes_epochs train_loader val_loader loss_fn epochs alpha temperature l :
  triple I0 (foldM (train_epoch model teacher_model train_loader val_loader loss_fn
                      epochs alpha temperature) l tt) (fun _ => I0) (fun _ => I0).
Proof.
  apply (triple_foldM (fun _ _ => I0)). intros a l' []. apply modes_train_epoch.
Qed.

End Modes.

Section ModesTheorem.
Context `{Elementary} `{Autograd} `{RandomGen}.

(** X15. In a run of [train], whatever its outcome, every forward pass
    of the teacher runs without gradients and in evaluation mode, and
    every forward pass of the student runs either in training mode
    with the autograd mode of the caller (a training batch) or in
    evaluation mode without gradients (a validation batch). *)
Theorem train_forward_passes_run_in_their_mode (model teacher_model : DualEncoderModel)
    tokenizer train_dataset val_dataset epochs batch_size learning_rate max_length
    alpha temperature (w : World) :
  model_id model <> model_id teacher_model ->
  let w' := (train model teacher_model tokenizer train_dataset val_dataset epochs
               batch_size learning_rate max_length alpha temperature w).1 in
  exists evs,
    trace w' = trace w ++ evs
    /\ Forall (mode_ok (model_id model) (model_id teacher_model) (grad_enabled w)) evs.
Proof.
  intros Hne. cbn zeta. destruct batch_size as [|bs].
  { rewrite train_batch_size_0. exists []. by rewrite app_nil_r. }
  rewrite train_unfold. set (w1 := after_setup _ _ _ w).
  pose proof (modes_epochs model teacher_model (grad_enabled w) w Hne
                (train_loader_of train_dataset (S bs)) (val_loader_of val_dataset (S bs))
                (MarginRankingLoss (Fin 1)) epochs alpha temperature (seq 0 epochs) w1)
    as Hm.
  assert (grad_enabled w1 = grad_enabled w
          /\ exists evs, trace w1 = trace w ++ evs
               /\ Forall (mode_ok (model_id model) (model_id teacher_model)
                            (grad_enabled w)) evs) as HI.
  { split; [done|]. exists []. by rewrite app_nil_r. }
  specialize (Hm HI).
  destruct (foldM _ (seq 0 epochs) tt w1) as [w2 [[]|e]]; cbn [fst]; apply Hm.
Qed.

End ModesTheorem.

(** ** The gradients of a batch step *)

Section GradientFacts.
Context `{Elementary} `{Autograd} `{RandomGen}.

Lemma lookup_foldr_delete_list (g : gmap positive (list xreal)) (ps : list positive) p :
  foldr delete g ps !! p = if decide (p ∈ ps) then None else g !! p.
Proof.
  induction ps as [|p0 ps IH]; cbn [foldr].
  - rewrite decide_False; [done|]. apply not_elem_of_nil.
  - destruct (decide (p = p0)) as [->|Hne].
    + rewrite lookup_delete_eq, decide_True; [done|]. apply list_elem_of_here.
    + rewrite lookup_delete_ne, IH by done.
      destruct (decide (p ∈ ps)) as [Hin|Hin].
      * rewrite decide_True; [done|]. by apply list_elem_of_further.
      * rewrite decide_False; [done|]. by intros [?|?]%elem_of_cons.
Qed.

Lemma lookup_foldl_accumulate ctx (g : gmap positive (list xreal)) (ps : list positive) p :
  NoDup ps -> (forall q, q ∈ ps -> g !! q = None) ->
  foldl (accumulate ctx) g ps !! p
  = if decide (p ∈ ps) then Some (gradient ctx p) else g !! p.
Proof.
  intros Hnd. revert g. induction Hnd as [|p0 ps Hnotin Hnd IH]; intros g Hg; cbn [foldl].
  - rewrite decide_False; [done|]. apply not_elem_of_nil.
  - unfold accumulate at 2. rewrite (Hg p0) by apply list_elem_of_here.
    rewrite IH.
    2:{ intros q Hq. rewrite lookup_insert_ne; [|by intros ->].
        apply Hg. by apply list_elem_of_further. }
    destruct (decide (p = p0)) as [->|Hne].
    + rewrite (decide_False (P := p0 ∈ ps)) by done.
      rewrite decide_True by apply list_elem_of_here. by rewrite lookup_insert_eq.
    + rewrite lookup_insert_ne by done.
      destruct (decide (p ∈ ps)) as [Hin|Hin].
      * rewrite decide_True; [done|]. by apply list_elem_of_further.
      * rewrite decide_False; [done|]. by intros [?|?]%elem_of_cons.
Qed.

(** X16. After a batch step of [train] every parameter of the student
    holds the gradient of this batch alone, whatever gradient it held
    before: [zero_grad] has discarded the old one.  No other parameter
    receives a gradient. *)
Theorem batch_gradients_replace_the_old_ones (model teacher_model : DualEncoderModel)
    loss_fn alpha temperature total batch (w : World)
    teacher_scores q1 d1 student_scores q2 d2 l :
  forward_scores teacher_model (params w) (mode_of w teacher_model)
    (query_inputs batch) (doc_inputs batch) = Ok (teacher_scores, q1, d1) ->
  forward_scores model (params w) (mode_of w model) q1 d1 = Ok (student_scores, q2, d2) ->
  compose_loss loss_fn alpha temperature teacher_scores student_scores = Ok l ->
  grad_enabled w = true ->
  parameters model <> [] -> NoDup (parameters model) ->
  param_group (optimizer w) = parameters model ->
  let ctx := {| gc_params := params w; gc_query_inputs := q2; gc_doc_inputs := d2;
                gc_teacher_scores := teacher_scores; gc_alpha := alpha;
                gc_temperature := temperature; gc_loss := loss l |} in
  let w' := (train_batch model teacher_model loss_fn alpha temperature total batch w).1 in
  (forall p, p ∈ parameters model -> grads w' !! p = Some (gradient ctx p))
  /\ (forall p, p ∉ parameters model -> grads w' !! p = grads w !! p).
Proof.
  intros Ht Hs Hc Hg Hp Hnd Hgroup ctx w'. subst w'.
  assert (grads (train_batch model teacher_model loss_fn alpha temperature total batch w).1
          = foldl (accumulate ctx) (foldr delete (grads w) (parameters model))
              (parameters model)) as ->.
  { unfold train_batch. unfold mode_of in *.
    destruct (parameters model) as [|p0 ps] eqn:E; [done|].
    erewrite bind_ok.
    2:{ unfold no_grad, forward, mode_of. cbn. rewrite Ht. reflexivity. }
    cbn beta iota.
    erewrite bind_ok.
    2:{ unfold forward, mode_of. cbn. rewrite Hs, Hg, E. reflexivity. }
    cbn beta iota.
    erewrite bind_ok; [|unfold lift; rewrite Hc; reflexivity].
    erewrite bind_ok; [|reflexivity].
    erewrite bind_ok; [|reflexivity].
    erewrite bind_ok; [|unfold backward; reflexivity].
    erewrite bind_ok; [|reflexivity].
    erewrite bind_ok; [|reflexivity].
    cbn [mret M_ret m_ret fst].
    match goal with
    | |- grads (with_trace _ (with_optimizer _ (with_scheduler _ (foldl ?f ?w0 ?ps0)))) = _ =>
        change (grads (foldl f w0 ps0) = foldl (accumulate ctx)
                  (foldr delete (grads w) (p0 :: ps)) (p0 :: ps));
        destruct (foldl_step_param_modes (group_lr (optimizer w0)) ps0 w0)
          as (_ & _ & Hgr & _)
    end.
    etrans; [exact Hgr|]. cbn. by rewrite Hgroup. }
  split; intros p Hin.
  - rewrite lookup_foldl_accumulate, decide_True; [done..|].
    intros q Hq. by rewrite lookup_foldr_delete_list, decide_True.
  - rewrite lookup_foldl_accumulate, decide_False; [|done..|].
    + by rewrite lookup_foldr_delete_list, decide_False.
    + intros q Hq. by rewrite lookup_foldr_delete_list, decide_True.
Qed.

End GradientFacts.

(** ** When the ranking loss vanishes *)

Section RankingZero.
#[local] Open Scope Q_scope.

Lemma qsum_nonneg l : Forall (fun x => 0 <= x) l -> 0 <= Spec.qsum l.
Proof.
  induction 1 as [|x l Hx _ IH]; cbn; [apply Qle_refl|].
  unfold Spec.qsum in *. lra.
Qed.

Lemma qsum_zero_iff l :
  Forall (fun x => 0 <= x) l -> (Spec.qsum l == 0 <-> Forall (fun x => x == 0) l).
Proof.
  induction 1 as [|x l Hx Hl IH]; cbn.
  - split; [constructor|reflexivity].
  - pose proof (qsum_nonneg l Hl) as Hs. unfold Spec.qsum in *.
    rewrite Forall_cons. rewrite <- IH. split; [intros E; split; lra|intros [? ?]; lra].
Qed.

Lemma hinge_nonneg margin p n : 0 <= Spec.hinge margin p n.
Proof. unfold Spec.hinge. apply Q.le_max_l. Qed.

Lemma hinge_zero_iff p n : Spec.hinge 1 p n == 0 <-> n + 1 <= p.
Proof.
  unfold Spec.hinge. rewrite Q.max_l_iff. split; intros; lra.
Qed.

Lemma foldl_Qmax_le a l c :
  foldl Qmax a l <= c <-> a <= c /\ Forall (fun x => x <= c) l.
Proof.
  revert a. induction l as [|b l IH]; intros a; cbn [foldl].
  - split; [intros; split; [done|constructor]|tauto].
  - rewrite IH, Q.max_lub_iff, Forall_cons. tauto.
Qed.

Lemma qmax_list_le l c :
  l <> [] -> (Spec.qmax_list l <= c <-> Forall (fun x => x <= c) l).
Proof.
  destruct l as [|a l]; [done|]. intros _. cbn [Spec.qmax_list].
  by rewrite foldl_Qmax_le, Forall_cons.
Qed.

Lemma Forall_delete {A} (P : A -> Prop) (l : list A) (i : nat) :
  Forall P (delete i l) <-> forall j x, j <> i -> l !! j = Some x -> P x.
Proof.
  revert i. induction l as [|a l IH]; intros i.
  - split; [by intros _ j x _|constructor].
  - destruct i as [|i]; cbn [delete list_delete].
    + rewrite Forall_lookup. split.
      * intros Hl [|j] x Hj Hx; [done|]. by apply (Hl j).
      * intros Hl j x Hx. by apply (Hl (S j)).
    + rewrite Forall_cons, IH. split.
      * intros [Ha Hl] [|j] x Hj Hx; [by simplify_eq/=|]. apply (Hl j); [lia|done].
      * intros Hl. split; [by apply (Hl 0%nat)|].
        intros j x Hj Hx. apply (Hl (S j)); [lia|done].
Qed.

(** The ranking loss of the specification's formula is zero exactly
    when every diagonal entry exceeds the other entries of its row by
    the margin. *)
Lemma spec_ranking_loss_zero_iff (m : list (list Q)) (B : nat) :
  (2 <= B)%nat -> length m = B -> Forall (fun r => length r = B) m ->
  0 <= Spec.ranking_loss 1 m
  /\ (Spec.ranking_loss 1 m == 0
      <-> forall i j, (i < B)%nat -> (j < B)%nat -> i <> j ->
            Spec.entry m i j + 1 <= Spec.entry m i i).
Proof.
  intros HB Hlen Hrows. unfold Spec.ranking_loss. rewrite Hlen.
  set (hs := map _ (seq 0 B)).
  assert (Forall (fun x => 0 <= x) hs) as Hnn.
  { apply Forall_forall. intros x [i [-> _]]%list_elem_of_fmap. apply hinge_nonneg. }
  assert (0 < inject_Z (Z.of_nat B)) as Hpos.
  { change 0 with (inject_Z 0). rewrite <- Zlt_Qlt. lia. }
  pose proof (qsum_nonneg hs Hnn) as Hs.
  split.
  { apply Qle_shift_div_l; [done|]. lra. }
  assert (Spec.qsum hs / inject_Z (Z.of_nat B) == 0 <-> Spec.qsum hs == 0) as ->.
  { split; intros E.
    - assert (Spec.qsum hs == Spec.qsum hs / inject_Z (Z.of_nat B) * inject_Z (Z.of_nat B))
        as -> by (field; lra).
      rewrite E. ring.
    - rewrite E. field. lra. }
  rewrite (qsum_zero_iff hs Hnn). unfold hs. rewrite Forall_fmap, Forall_forall.
  split.
  - intros Hall i j Hi Hj Hij.
    assert (i ∈ seq 0 B) as Hin by (apply list_elem_of_In, in_seq; lia).
    specialize (Hall i Hin). cbn in Hall. apply hinge_zero_iff in Hall.
    destruct (lookup_lt_is_Some_2 m i) as [r Hr]; [lia|].
    assert (length r = B) as Hlr by (rewrite Forall_lookup in Hrows; eauto).
    destruct (lookup_lt_is_Some_2 r j) as [x Hx]; [lia|].
    unfold Spec.neg, Spec.pos, Spec.entry in *. rewrite Hr in *. cbn in *. rewrite Hx. cbn.
    assert (Forall (fun y => y <= Spec.qmax_list (delete i r)) (delete i r)) as Hmax.
    { apply qmax_list_le; [|apply Qle_refl].
      intros Hnil. apply (f_equal length) in Hnil. rewrite length_delete in Hnil.
      - cbn in Hnil. lia.
      - apply lookup_lt_is_Some_2. lia. }
    rewrite Forall_delete in Hmax. specialize (Hmax j x (not_eq_sym Hij) Hx). lra.
  - intros Hall i [_ Hi]%list_elem_of_In%in_seq. cbn. apply hinge_zero_iff.
    destruct (lookup_lt_is_Some_2 m i) as [r Hr]; [lia|].
    assert (length r = B) as Hlr by (rewrite Forall_lookup in Hrows; eauto).
    unfold Spec.neg, Spec.pos. 
    assert (Spec.qmax_list (delete i (default [] (m !! i))) <= Spec.entry m i i - 1) as Hle.
    { rewrite Hr. cbn. apply qmax_list_le.
      - intros Hnil. apply (f_equal length) in Hnil. rewrite length_delete in Hnil.
        + cbn in Hnil. lia.
        + apply lookup_lt_is_Some_2. lia.
      - apply Forall_delete. intros j x Hj Hx.
        assert (j < B)%nat as HjB by (rewrite <- Hlr; by eapply lookup_lt_Some).
        specialize (Hall i j ltac:(lia) HjB (not_eq_sym Hj)).
        unfold Spec.entry in Hall at 1. rewrite Hr in Hall. cbn in Hall.
        rewrite Hx in Hall. cbn in Hall. lra. }
    lra.
Qed.

(** The ranking loss that a batch step computes on finite scores. *)
Lemma compose_loss_ranking_value `{Elementary} (m : list (list Q)) (B : nat)
    (alpha temperature : xreal) (teacher_scores : mat) :
  (2 <= B)%nat -> length m = B -> Forall (fun r => length r = B) m ->
  exists l,
    compose_loss (MarginRankingLoss (Fin 1)) alpha temperature teacher_scores (Spec.inj m)
      = Ok l
    /\ ranking_loss l =x= Fin (Spec.ranking_loss 1 m).
Proof.
  intros HB Hlen Hrows.
  assert (diag (Spec.inj m) = map Fin (imap (fun i r => default 0 (r !! i)) m)) as Hpos.
  { unfold diag. rewrite diag_from_inj; [apply imap_fmap_Fin|].
    intros i r Hi. rewrite Forall_lookup in Hrows. rewrite (Hrows i r Hi).
    apply lookup_lt_Some in Hi. lia. }
  destruct (max_dim1_masked 0 m) as (negs & Hnegs & Eneg).
  { eapply Forall_impl; [exact Hrows|]. intros r ->. done. }
  rewrite imap_fmap_Fin in Eneg.
  assert (length (diag (Spec.inj m)) = length negs) as Hl.
  { rewrite Hpos, length_map, length_imap.
    apply Forall2_length in Eneg. rewrite length_map, length_imap in Eneg. done. }
  unfold compose_loss. unfold fill_diagonal_ at 1.
  change (imap (fun i row => <[i := NInf]> row) (Spec.inj m))
    with (imap (fun i row => <[(0 + i)%nat := NInf]> row) (Spec.inj m)).
  rewrite Hnegs. cbn [rbind].
  rewrite MarginRankingLoss_same_length by done. cbn [rbind].
  eexists; split; [reflexivity|]. cbn [ranking_loss].
  unfold Spec.ranking_loss. rewrite spec_hinge_imap.
  set (L := zip_with (Spec.hinge 1) _ _).
  assert (length L = length m) as HL.
  { unfold L. rewrite length_zip_with, !length_imap. lia. }
  rewrite <- HL. apply vmean_fin; [lia|].
  unfold L. rewrite Hpos. by apply hinge_terms_fin.
Qed.


End RankingZero.

(** ** [main] *)

Section MainFacts.
Context `{Elementary} `{Autograd} `{RandomGen}.

Lemma split_idx_800 : Main.split_idx = 800%nat.
Proof. vm_compute. reflexivity. Qed.

(** X18. When the corpus loads, [main] trains on the first 800 loaded
    triples and validates on the next 200 (fewer when the corpus is
    smaller): the two datasets are consecutive, disjoint segments of
    the first 1000 triples, and every index below their length can be
    fetched. *)
Theorem main_splits_the_first_1000 tokenizer (teacher_model student_model : DualEncoderModel)
    (corpus : Dataset) (args : Main.Args) (w : World) queries documents labels :
  load_msmarco_data corpus = Ok (queries, documents, labels) ->
  let n := length (qrels_iter corpus) in
  exists train_dataset val_dataset,
    Main.main tokenizer teacher_model student_model corpus args w
    = train student_model teacher_model tokenizer train_dataset val_dataset
        (Main.epochs args) (Main.batch_size args) (Main.learning_rate args)
        (Main.max_length args) (Main.alpha args) (Main.temperature args) w
    /\ ds_len train_dataset = (n `min` 800)%nat
    /\ ds_len val_dataset = (n `min` 1000 - n `min` 800)%nat
    /\ ds_queries train_dataset ++ ds_queries val_dataset = take 1000 queries
    /\ ds_documents train_dataset ++ ds_documents val_dataset = take 1000 documents
    /\ ds_labels train_dataset ++ ds_labels val_dataset
       = map Main.as_float (take 1000 labels)
    /\ (forall i, (i < ds_len train_dataset)%nat -> exists ex, getitem train_dataset i = Ok ex)
    /\ (forall i, (i < ds_len val_dataset)%nat -> exists ex, getitem val_dataset i = Ok ex).
Proof.
  intros Hload n.
  destruct (load_msmarco_data_lengths _ _ _ _ Hload) as (Hq & Hd & Hl).
  fold n in Hq, Hd, Hl.
  eexists _, _. split.
  { unfold Main.main. rewrite lift_bind, Hload. cbn beta iota. unfold Main.datasets.
    reflexivity. }
  cbn [ds_queries ds_documents ds_labels]. unfold ds_len. cbn [ds_queries].
  rewrite split_idx_800. change Main.subset_size with 1000%nat.
  rewrite <- !map_app, !take_drop.
  rewrite length_drop, !length_take, Hq.
  split; [lia|]. split; [lia|]. split; [done|]. split; [done|]. split; [done|].
  split.
  - intros i Hi. apply getitem_in_range; cbn [ds_queries ds_documents ds_labels];
      rewrite ?length_map, !length_take; lia.
  - intros i Hi. apply getitem_in_range; cbn [ds_queries ds_documents ds_labels];
      rewrite ?length_map, length_drop, !length_take; lia.
Qed.

(** X19. One qrel, at any position, that refers to a query id or a
    document id the corpus does not have makes [main] raise KeyError
    before any training: no parameter, mode or output line has
    changed. *)
Theorem main_stops_at_a_dangling_qrel tokenizer (teacher_model student_model : DualEncoderModel)
    (corpus : Dataset) (args : Main.Args) (w : World) :
  Exists (fun qrel =>
            qrel_query_id qrel ∉ map query_id (queries_iter corpus)
            \/ qrel_doc_id qrel ∉ map doc_id (docs_iter corpus))
         (qrels_iter corpus) ->
  Main.main tokenizer teacher_model student_model corpus args w = (w, Raise KeyError).
Proof.
  intros Hex. unfold Main.main.
  by rewrite lift_bind, (load_msmarco_data_dangling corpus Hex).
Qed.

(** X20. On a corpus with at most 800 qrels the validation set is
    empty, so with at least one epoch [main] never returns. *)
Theorem main_needs_more_than_800_qrels tokenizer (teacher_model student_model : DualEncoderModel)
    (corpus : Dataset) (args : Main.Args) (w : World) :
  (length (qrels_iter corpus) <= 800)%nat -> (0 < Main.epochs args)%nat ->
  exists e, (Main.main tokenizer teacher_model student_model corpus args w).2 = Raise e.
Proof.
  intros Hn He. unfold Main.main. rewrite lift_bind.
  destruct (load_msmarco_data corpus) as [[[queries documents] labels]|e] eqn:Hload;
    [|by exists e].
  destruct (load_msmarco_data_lengths _ _ _ _ Hload) as (Hq & Hd & Hl).
  cbn beta iota. unfold Main.datasets.
  match goal with
  | |- context [train _ _ _ ?tr ?va] => set (tds := tr); set (vds := va)
  end.
  assert (ds_len vds = 0%nat) as Hv.
  { unfold ds_len, vds. cbn [ds_queries]. rewrite split_idx_800.
    rewrite length_drop, !length_take. lia. }
  destruct (Main.batch_size args) as [|bs]; [by exists ValueError|].
  rewrite train_unfold. destruct (Main.epochs args) as [|k]; [lia|].
  set (w1 := after_setup _ _ _ w).
  destruct (epochs_stop_without_validation student_model teacher_model
              (train_loader_of tds (S bs)) (val_loader_of vds (S bs))
              (MarginRankingLoss (Fin 1)) (S k) (Main.alpha args) (Main.temperature args)
              k w1 Hv eq_refl) as (e & Hr & _).
  by exists e.
Qed.

End MainFacts.

(** ** The further theorems on the small instance *)

Section MoreInstances.
Import Demo DemoData DemoCorpus.

Lemma load_msmarco_data_rows_follow_qrels_witness :
  load_msmarco_data corpus = Ok (["a"; "c"; "a"], ["b"; "ca"; "ca"], [1; 0; 1]%Z)
  /\ [1; 0; 1]%Z = map relevance (qrels_iter corpus)
  /\ ["a"; "c"; "a"] !! 0%nat
     = query_text <$> last (filter (fun x => query_id x = "q1") (queries_iter corpus)).
Proof.
  assert (load_msmarco_data corpus = Ok (["a"; "c"; "a"], ["b"; "ca"; "ca"], [1; 0; 1]%Z))
    as Hload by reflexivity.
  split; [exact Hload|].
  destruct (load_msmarco_data_rows_follow_qrels corpus _ _ _ Hload) as (_ & _ & Hl & Hrows).
  split; [exact Hl|]. exact (proj1 (Hrows 0%nat (qrel "q1" "d1" 1) eq_refl)).
Defined.

Lemma loader_pass_cuts_the_sampler_order_witness :
  (0 < dl_batch_size (train_loader_of train_set 2))%nat
  /\ exists idx,
       (iter_indices (train_loader_of train_set 2) world0).2 = Ok idx
       /\ length idx = len (train_loader_of train_set 2)
       /\ concat idx = randperm 0 3.
Proof.
  assert (0 < dl_batch_size (train_loader_of train_set 2))%nat as Hbs by (cbn; lia).
  split; [exact Hbs|].
  destruct (loader_pass_cuts_the_sampler_order (train_loader_of train_set 2) world0 Hbs)
    as (idx & Hi & Hl & Hc & _).
  exists idx. split; [exact Hi|]. split; [exact Hl|exact Hc].
Defined.

Lemma fetched_batch_has_one_row_per_index_witness :
  exists b,
    fetch val_loader [0%nat; 1%nat] = Ok b
    /\ length (labels b) = 2%nat.
Proof.
  assert {b | fetch val_loader [0%nat; 1%nat] = Ok b} as [b Hb].
  { eexists. vm_compute. reflexivity. }
  exists b. split; [exact Hb|].
  exact (proj1 (fetched_batch_has_one_row_per_index val_loader [0%nat; 1%nat] b Hb)).
Defined.

Lemma evaluate_without_examples_divides_by_zero_witness :
  ds_len (dl_dataset (val_loader_of no_examples 2)) = 0%nat
  /\ dl_shuffle (val_loader_of no_examples 2) = false
  /\ (evaluate student (val_loader_of no_examples 2) (MarginRankingLoss (Fin 1)) world0).2
     = Raise ZeroDivisionError.
Proof.
  split; [reflexivity|]. split; [reflexivity|].
  exact (proj1 (evaluate_without_examples_divides_by_zero student
                  (val_loader_of no_examples 2) (MarginRankingLoss (Fin 1)) world0
                  eq_refl eq_refl)).
Defined.

Lemma evaluate_raises_on_short_lists_witness :
  (length (ds_documents short_set) < ds_len short_set)%nat
  /\ exists e,
       (evaluate student (val_loader_of short_set 2) (MarginRankingLoss (Fin 1)) world0).2
       = Raise e.
Proof.
  assert (length (ds_documents short_set) < ds_len short_set)%nat as Hs by (cbn; lia).
  assert (0 < dl_batch_size (val_loader_of short_set 2))%nat as Hbs by (cbn; lia).
  split; [exact Hs|].
  destruct (evaluate_raises_on_short_lists student (val_loader_of short_set 2)
              (MarginRankingLoss (Fin 1)) world0 eq_refl Hbs (or_introl Hs)) as (e & He & _).
  exists e. exact He.
Defined.

Lemma train_without_validation_data_raises_witness :
  ds_len no_examples = 0%nat
  /\ exists e,
       (train student teacher tok train_set no_examples 2 2 (Fin (1 # 10)) 2
          (Fin (1 # 2)) (Fin 2) world0).2 = Raise e.
Proof.
  assert (0 < 2)%nat as He by lia.
  split; [reflexivity|].
  destruct (train_without_validation_data_raises student teacher tok train_set no_examples
              2 2 (Fin (1 # 10)) 2 (Fin (1 # 2)) (Fin 2) world0 eq_refl He)
    as (e & Hr & _).
  exists e. exact Hr.
Defined.

Lemma train_zero_epochs_witness :
  (0 < ds_len train_set)%nat /\ parameters student <> []
  /\ exists w',
       train student teacher tok train_set val_set 0 2 (Fin (1 # 10)) 2
         (Fin (1 # 2)) (Fin 2) world0 = (w', Ok tt)
       /\ params w' = params world0 /\ trace w' = [].
Proof.
  assert (0 < 2)%nat as Hbs by lia.
  assert (0 < ds_len train_set)%nat as Hn by (cbn; lia).
  assert (parameters student <> []) as Hp by discriminate.
  split; [exact Hn|]. split; [exact Hp|].
  destruct (train_zero_epochs student teacher tok train_set val_set 2 (Fin (1 # 10)) 2
              (Fin (1 # 2)) (Fin 2) world0 Hbs Hn Hp)
    as (w' & Hrun & Hp' & _ & Ht & _).
  exists w'. split; [exact Hrun|]. split; [exact Hp'|exact Ht].
Defined.

Lemma train_ends_at_learning_rate_zero_witness :
  let run := train student teacher tok train_set val_set 2 2 (Fin (1 # 10)) 2
               (Fin (1 # 2)) (Fin 2) world0 in
  run = (run.1, Ok tt)
  /\ group_lr (optimizer run.1) =x= (Fin (1 # 10) * Fin 0)%X.
Proof.
  intros run.
  assert (run = (run.1, Ok tt)) as Hrun by (vm_compute; reflexivity).
  split; [exact Hrun|].
  exact (train_ends_at_learning_rate_zero student teacher tok train_set val_set
           2 2 (Fin (1 # 10)) 2 (Fin (1 # 2)) (Fin 2) world0 run.1 Hrun).
Defined.

Lemma train_prints_two_lines_per_epoch_witness :
  let run := train student teacher tok train_set val_set 2 2 (Fin (1 # 10)) 2
               (Fin (1 # 2)) (Fin 2) world0 in
  run = (run.1, Ok tt)
  /\ length (stdout run.1) = 4%nat.
Proof.
  intros run.
  assert (run = (run.1, Ok tt)) as Hrun by (vm_compute; reflexivity).
  split; [exact Hrun|].
  destruct (train_prints_two_lines_per_epoch student teacher tok train_set val_set
              2 2 (Fin (1 # 10)) 2 (Fin (1 # 2)) (Fin 2) world0 run.1 Hrun)
    as (reps & _ & _ & Hlen).
  exact Hlen.
Defined.

Lemma train_leaves_student_in_eval_mode_witness :
  let run := train student teacher tok train_set val_set 2 2 (Fin (1 # 10)) 2
               (Fin (1 # 2)) (Fin 2) world0 in
  run = (run.1, Ok tt)
  /\ mode_of run.1 student = false
  /\ grad_enabled run.1 = true.
Proof.
  intros run.
  assert (run = (run.1, Ok tt)) as Hrun by (vm_compute; reflexivity).
  assert (0 < 2)%nat as He by lia.
  split; [exact Hrun|].
  destruct (train_leaves_student_in_eval_mode student teacher tok train_set val_set
              2 2 (Fin (1 # 10)) 2 (Fin (1 # 2)) (Fin 2) world0 run.1 Hrun He)
    as (Hs & _ & Hg).
  split; [exact Hs|exact Hg].
Defined.

(** The score matrix of the small teacher has one row per query and
    one column per document. *)
Lemma demo_teacher_scores theta tr q d scores q' d' :
  forward_scores teacher theta tr q d = Ok (scores, q', d') ->
  exists qs ds,
    q !! "input_ids" = Some qs /\ d !! "input_ids" = Some ds
    /\ scores = map (fun qi => map (fun dj => dot qi dj) (map (embed theta 4) ds))
                    (map (embed theta 3) qs).
Proof.
  unfold forward_scores. change (any_DistilBert teacher) with false.
  cbn [query_encoder doc_encoder teacher enc_call encoder].
  destruct (q !! "input_ids") as [qs|]; [|done]. cbn [rbind pooler_output of_option].
  destruct (d !! "input_ids") as [ds|]; [|done]. cbn [rbind pooler_output of_option].
  unfold matmul_t. case_decide; [|done]. cbn [rbind].
  intros [= <- _ _]. by exists qs, ds.
Qed.

Lemma demo_teacher_answers : answers teacher (train_loader_of train_set 2).
Proof.
  intros k chunk b theta tr scores q d Hin Hf Hs.
  apply demo_teacher_scores in Hs as (qs & ds & Hq & Hd & ->).
  apply list_elem_of_In in Hin. vm_compute in Hin.
  destruct Hin as [<-|[<-|[]]]; vm_compute in Hf; injection Hf as <-;
    vm_compute in Hq; vm_compute in Hd; injection Hq as <-; injection Hd as <-;
    by eexists _, _, _.
Qed.

Lemma train_prints_non_finite_averages_witness :
  let run := train student teacher tok train_set val_set 2 2 (Fin (1 # 10)) 2
               (Fin (1 # 2)) (Fin 2) world0 in
  answers teacher (train_loader_of train_set 2)
  /\ run = (run.1, Ok tt)
  /\ exists reps,
       length reps = 2%nat
       /\ stdout run.1 = report_lines 2 0 reps
       /\ Forall (fun r => is_finite r.1 = false) reps.
Proof.
  intros run.
  assert (run = (run.1, Ok tt)) as Hrun by (vm_compute; reflexivity).
  split; [exact demo_teacher_answers|]. split; [exact Hrun|].
  exact (train_prints_non_finite_averages student teacher tok train_set val_set
           2 2 (Fin (1 # 10)) 2 (Fin (1 # 2)) (Fin 2) world0 run.1
           demo_teacher_answers Hrun).
Defined.

Lemma batch_step_scores_the_same_inputs_witness :
  let r := train_batch student teacher (MarginRankingLoss (Fin 1)) (Fin (1 # 2)) (Fin 2)
             (Fin 0) batch_of_two ready in
  r = (r.1, Ok NaN)
  /\ exists teacher_scores student_scores l,
       forward_scores student (params ready) (mode_of ready student)
         (popped teacher (query_inputs batch_of_two))
         (popped teacher (doc_inputs batch_of_two))
       = Ok (student_scores,
             popped student (popped teacher (query_inputs batch_of_two)),
             popped student (popped teacher (doc_inputs batch_of_two)))
       /\ compose_loss (MarginRankingLoss (Fin 1)) (Fin (1 # 2)) (Fin 2)
            teacher_scores student_scores = Ok l
       /\ NaN = (Fin 0 + loss l)%X.
Proof.
  intros r.
  assert (r = (r.1, Ok NaN)) as Hr by (vm_compute; reflexivity).
  split; [exact Hr|].
  destruct (batch_step_scores_the_same_inputs student teacher (MarginRankingLoss (Fin 1))
              (Fin (1 # 2)) (Fin 2) (Fin 0) batch_of_two ready r.1 NaN Hr)
    as (ts & ss & l & _ & Hs & Hl & Hv).
  exists ts, ss, l. split; [exact Hs|]. split; [exact Hl|exact Hv].
Defined.

Lemma train_forward_passes_run_in_their_mode_witness :
  model_id student <> model_id teacher
  /\ exists evs,
       trace (train student teacher tok train_set val_set 2 2 (Fin (1 # 10)) 2
                (Fin (1 # 2)) (Fin 2) world0).1 = trace world0 ++ evs
       /\ Forall (mode_ok (model_id student) (model_id teacher) true) evs.
Proof.
  assert (model_id student <> model_id teacher) as Hne by discriminate.
  split; [exact Hne|].
  exact (train_forward_passes_run_in_their_mode student teacher tok train_set val_set
           2 2 (Fin (1 # 10)) 2 (Fin (1 # 2)) (Fin 2) world0 Hne).
Defined.

Lemma batch_gradients_replace_the_old_ones_witness :
  NoDup (parameters student)
  /\ param_group (optimizer ready) = parameters student
  /\ exists g,
       grads (train_batch student teacher (MarginRankingLoss (Fin 1)) (Fin (1 # 2)) (Fin 2)
                (Fin 0) batch_of_two ready).1 !! 1%positive = Some g
       /\ grads (train_batch student teacher (MarginRankingLoss (Fin 1)) (Fin (1 # 2)) (Fin 2)
                   (Fin 0) batch_of_two ready).1 !! 3%positive
          = grads ready !! 3%positive.
Proof.
  assert (NoDup (parameters student)) as Hnd.
  { apply NoDup_ListNoDup. repeat constructor; cbn; intuition discriminate. }
  assert (1%positive ∈ parameters student) as H1.
  { apply list_elem_of_In. cbn. tauto. }
  assert (3%positive ∉ parameters student) as H3.
  { intros Hin%list_elem_of_In. cbn in Hin. intuition discriminate. }
  split; [exact Hnd|]. split; [reflexivity|].
  edestruct (batch_gradients_replace_the_old_ones student teacher (MarginRankingLoss (Fin 1))
               (Fin (1 # 2)) (Fin 2) (Fin 0) batch_of_two ready) as [Hin Hout];
    [reflexivity|reflexivity|reflexivity|reflexivity|discriminate|exact Hnd|reflexivity|].
  eexists. split; [exact (Hin 1%positive H1)|exact (Hout 3%positive H3)].
Defined.


Lemma main_splits_the_first_1000_witness :
  load_msmarco_data corpus = Ok (["a"; "c"; "a"], ["b"; "ca"; "ca"], [1; 0; 1]%Z)
  /\ exists train_dataset val_dataset,
       Main.main tok teacher student corpus args world0
       = train student teacher tok train_dataset val_dataset 2 2 (Fin (1 # 10)) 2
           (Fin (1 # 2)) (Fin 2) world0
       /\ ds_len train_dataset = 3%nat /\ ds_len val_dataset = 0%nat.
Proof.
  assert (load_msmarco_data corpus = Ok (["a"; "c"; "a"], ["b"; "ca"; "ca"], [1; 0; 1]%Z))
    as Hload by reflexivity.
  split; [exact Hload|].
  destruct (main_splits_the_first_1000 tok teacher student corpus args world0 _ _ _ Hload)
    as (tr & va & Hm & Ht & Hv & _).
  exists tr, va. split; [exact Hm|]. split; [exact Ht|exact Hv].
Defined.

Lemma main_stops_at_a_dangling_qrel_witness :
  Exists (fun qrel =>
            qrel_query_id qrel ∉ map query_id (queries_iter dangling)
            \/ qrel_doc_id qrel ∉ map doc_id (docs_iter dangling))
         (qrels_iter dangling)
  /\ Main.main tok teacher student dangling args world0 = (world0, Raise KeyError).
Proof.
  assert (Exists (fun qrel =>
                    qrel_query_id qrel ∉ map query_id (queries_iter dangling)
                    \/ qrel_doc_id qrel ∉ map doc_id (docs_iter dangling))
                 (qrels_iter dangling)) as Hex.
  { do 3 apply Exists_cons_tl. apply Exists_cons_hd. left.
    intros Hin%list_elem_of_In. cbn in Hin. intuition discriminate. }
  split; [exact Hex|].
  exact (main_stops_at_a_dangling_qrel tok teacher student dangling args world0 Hex).
Defined.

Lemma main_needs_more_than_800_qrels_witness :
  (length (qrels_iter corpus) <= 800)%nat
  /\ exists e, (Main.main tok teacher student corpus args world0).2 = Raise e.
Proof.
  assert (length (qrels_iter corpus) <= 800)%nat as Hn by (cbn; lia).
  assert (0 < Main.epochs args)%nat as He by (cbn; lia).
  split; [exact Hn|].
  exact (main_needs_more_than_800_qrels tok teacher student corpus args world0 Hn He).
Defined.

(** The score matrix of the small student. *)
Lemma cls_token_singletons {A} (f : A -> list xreal) (l : list A) :
  cls_token (map (fun a => [f a]) l) = Ok (map f l).
Proof.
  unfold cls_token. induction l as [|a l IH]; [done|].
  cbn [map rmapM]. cbn [lookup list_lookup of_option rbind]. by rewrite IH.
Qed.

Lemma demo_student_scores theta tr q d scores q' d' :
  forward_scores student theta tr q d = Ok (scores, q', d') ->
  exists qs ds,
    delete "token_type_ids" q !! "input_ids" = Some qs
    /\ delete "token_type_ids" d !! "input_ids" = Some ds
    /\ scores = map (fun qi => map (fun dj => dot qi dj) (map (embed theta 2) ds))
                    (map (embed theta 1) qs).
Proof.
  unfold forward_scores. change (any_DistilBert student) with true.
  cbn [query_encoder doc_encoder student enc_call encoder].
  destruct (delete "token_type_ids" q !! "input_ids") as [qs|]; [|done].
  cbn [rbind last_hidden_state]. rewrite cls_token_singletons. cbn [rbind].
  destruct (delete "token_type_ids" d !! "input_ids") as [ds|]; [|done].
  cbn [rbind last_hidden_state]. rewrite cls_token_singletons. cbn [rbind].
  unfold matmul_t. case_decide; [|done]. cbn [rbind].
  intros [= <- _ _]. by exists qs, ds.
Qed.

Lemma demo_student_single_scores :
  single_scores student (val_loader_of val_set 1) (params world0).
Proof.
  intros chunk b tr scores q d Hin Hf Hs.
  apply demo_student_scores in Hs as (qs & ds & Hq & Hd & ->).
  apply list_elem_of_In in Hin. vm_compute in Hin.
  destruct Hin as [<-|[<-|[]]]; vm_compute in Hf; injection Hf as <-;
    vm_compute in Hq; vm_compute in Hd; injection Hq as <-; injection Hd as <-;
    match goal with
    | |- exists s, ?m = _ =>
        let v := eval vm_compute in m in
        match v with [[Fin ?s]] => exists s end
    end; vm_compute; reflexivity.
Qed.

Lemma evaluate_with_single_example_batches_reports_zero_witness :
  let run := evaluate student (val_loader_of val_set 1) (MarginRankingLoss (Fin 1)) world0 in
  single_scores student (val_loader_of val_set 1) (params world0)
  /\ run = (run.1, Ok tt)
  /\ exists v, stdout run.1 = stdout world0 ++ [ValidationLoss v] /\ v =x= Fin 0.
Proof.
  intros run.
  assert (run = (run.1, Ok tt)) as Hrun by (vm_compute; reflexivity).
  split; [exact demo_student_single_scores|]. split; [exact Hrun|].
  exact (evaluate_with_single_example_batches_reports_zero student
           (val_loader_of val_set 1) world0 run.1 eq_refl eq_refl
           demo_student_single_scores Hrun).
Defined.

End MoreInstances.
